(** * The immediate-aggregation backtester, embedded and verified

    A shallow embedding of [immediateAggregationBacktester.py]: candle
    aggregation, pivot detection, cascade confirmation, the trade life
    cycle and the main simulation loop, followed by the properties of
    the specification that were checked against it.

    Conventions of the embedding.
    - Python [int] is [Z]; [//] is floor division, which is [Z.div].
    - Python [float] prices, sizes and rates are exact rationals [Q]
      (the specification's data model calls them real numbers).
      Rounding is therefore not modelled; division by zero is, as the
      [ZeroDivisionError] it raises.
    - Python [str] is [string], restricted to ASCII.
    - A raised exception is the [Raise] branch of [result].
    - Console output is dropped: no property below is about what is
      printed. *)

From Stdlib Require Import ZArith QArith Qabs List String Ascii Bool Lia Lqa.
From Stdlib Require Import Sorted Permutation.
Import ListNotations.

Local Open Scope string_scope.
Local Open Scope list_scope.
Local Open Scope Z_scope.

(** ** Python primitives *)

Module Py.

Inductive exn : Type :=
| ValueError
| ZeroDivisionError
| KeyError
| IndexError.

Inductive result (A : Type) : Type :=
| Ok (a : A)
| Raise (e : exn).

Arguments Ok {A} a.
Arguments Raise {A} e.

Definition bind {A B : Type} (m : result A) (k : A -> result B) : result B :=
  match m with
  | Ok a => k a
  | Raise e => Raise e
  end.

Definition raises {A : Type} (m : result A) : Prop :=
  exists e, m = Raise e.

(** [a // b] on integers. *)
Definition floordiv (a b : Z) : result Z :=
  if b =? 0 then Raise ZeroDivisionError else Ok (a / b).

(** [a / b] on floats. *)
Definition truediv (a b : Q) : result Q :=
  if Qeq_bool b 0 then Raise ZeroDivisionError else Ok (a / b)%Q.

(** [int(x)] on a float: truncation toward zero. *)
Definition int_of_float (x : Q) : Z := Z.quot (Qnum x) (Zpos (Qden x)).

(** *** Strings *)

Definition chars (s : string) : list ascii := list_ascii_of_string s.

(** [s.endswith(c)] for a one-character suffix. *)
Definition endswith (s : string) (c : ascii) : bool :=
  match rev (chars s) with
  | [] => false
  | x :: _ => Ascii.eqb x c
  end.

(** [s[:-1]]. *)
Definition drop_last (s : string) : string :=
  string_of_list_ascii (removelast (chars s)).

Definition lower_char (c : ascii) : ascii :=
  let n := nat_of_ascii c in
  if ((65 <=? n) && (n <=? 90))%nat then ascii_of_nat (n + 32) else c.

(** [s.lower()]. *)
Definition lower (s : string) : string :=
  string_of_list_ascii (map lower_char (chars s)).

(** [s.replace(c, '')] for a one-character pattern. *)
Definition remove_char (c : ascii) (s : string) : string :=
  string_of_list_ascii (filter (fun x => negb (Ascii.eqb x c)) (chars s)).

(** *** [int(s)] on a string, base ten

    Surrounding whitespace is stripped, one sign is allowed, and the
    digits may be separated by single underscores. *)

Definition is_space (c : ascii) : bool :=
  let n := nat_of_ascii c in
  (((9 <=? n) && (n <=? 13)) || ((28 <=? n) && (n <=? 32)))%nat.

Definition is_digit (c : ascii) : bool :=
  let n := nat_of_ascii c in ((48 <=? n) && (n <=? 57))%nat.

Definition digit_value (c : ascii) : Z := Z.of_nat (nat_of_ascii c) - 48.

Fixpoint lstrip (cs : list ascii) : list ascii :=
  match cs with
  | c :: cs' => if is_space c then lstrip cs' else cs
  | [] => []
  end.

Definition strip (cs : list ascii) : list ascii :=
  rev (lstrip (rev (lstrip cs))).

Fixpoint digits (acc : Z) (after_digit : bool) (cs : list ascii) : option Z :=
  match cs with
  | [] => if after_digit then Some acc else None
  | c :: cs' =>
      if is_digit c then digits (10 * acc + digit_value c) true cs'
      else if Ascii.eqb c "_" && after_digit then
        match cs' with
        | d :: _ => if is_digit d then digits acc false cs' else None
        | [] => None
        end
      else None
  end.

Definition int_of_chars (cs : list ascii) : option Z :=
  match strip cs with
  | [] => None
  | c :: cs' =>
      if Ascii.eqb c "-" then option_map Z.opp (digits 0 false cs')
      else if Ascii.eqb c "+" then digits 0 false cs'
      else digits 0 false (c :: cs')
  end.

Definition int (s : string) : result Z :=
  match int_of_chars (chars s) with
  | Some n => Ok n
  | None => Raise ValueError
  end.

End Py.

Import Py.

Notation "x <- m ;; k" := (Py.bind m (fun x => k))
  (at level 61, m at next level, right associativity).

(** ** Timeframe parsing

    The module defines [parse_timeframe_to_minutes] twice.  Python binds
    a name to the last [def] executed, so once the module is loaded
    every call, [aggregate_candles]' included, reaches the second
    definition.  The first one is kept under [Utility]. *)

Module Utility.

(** The definition in the utility section (shadowed at run time). *)
Definition parse_timeframe_to_minutes (timeframe : string) : result Z :=
  let tf := lower timeframe in
  if endswith tf "m" then int (remove_char "m" tf)
  else if endswith tf "h" then n <- int (remove_char "h" tf) ;; Ok (n * 60)
  else if endswith tf "d" then n <- int (remove_char "d" tf) ;; Ok (n * 60 * 24)
  else if endswith tf "w" then n <- int (remove_char "w" tf) ;; Ok (n * 60 * 24 * 7)
  else int tf.

End Utility.

(** The definition next to [aggregate_candles]: the one in force. *)
Definition parse_timeframe_to_minutes (timeframe : string) : result Z :=
  if endswith timeframe "m" then int (drop_last timeframe)
  else if endswith timeframe "h" then n <- int (drop_last timeframe) ;; Ok (n * 60)
  else if endswith timeframe "d" then n <- int (drop_last timeframe) ;; Ok (n * 24 * 60)
  else if endswith timeframe "w" then n <- int (drop_last timeframe) ;; Ok (n * 7 * 24 * 60)
  else Raise ValueError.

(** ** Data classes *)

Module Candle.
Record t : Type := mk {
  time : Z;
  open : Q;
  high : Q;
  low : Q;
  close : Q;
  volume : Q
}.
End Candle.

Inductive Side : Type := long | short.

Definition Side_eqb (a b : Side) : bool :=
  match a, b with
  | long, long | short, short => true
  | _, _ => false
  end.

Inductive PivotType : Type := high_pivot | low_pivot.

Module Pivot.
Record t : Type := mk {
  type : PivotType;
  price : Q;
  time : Z;
  index : Z;
  signal : Side;
  swing_pct : Q;
  timeframe : string
}.
End Pivot.

(** ** Sequences: [sorted], [max], [min], [sum] *)

Section Sorted.
Context {A : Type} (key : A -> Z).

Fixpoint insert_by (x : A) (l : list A) : list A :=
  match l with
  | [] => [x]
  | y :: l' => if key x <=? key y then x :: l else y :: insert_by x l'
  end.

(** [sorted(l, key=key)]: Python's sort is stable, and so is this
    insertion sort, so both return the same list. *)
Fixpoint sorted_by (l : list A) : list A :=
  match l with
  | [] => []
  | x :: l' => insert_by x (sorted_by l')
  end.
End Sorted.

Definition Qltb (a b : Q) : bool := negb (Qle_bool b a).

(** [max(l)]: the first of the greatest items; [ValueError] when empty. *)
Definition max_of (l : list Q) : result Q :=
  match l with
  | [] => Raise ValueError
  | x :: l' => Ok (fold_left (fun m y => if Qltb m y then y else m) l' x)
  end.

(** [min(l)]: the first of the least items; [ValueError] when empty. *)
Definition min_of (l : list Q) : result Q :=
  match l with
  | [] => Raise ValueError
  | x :: l' => Ok (fold_left (fun m y => if Qltb y m then y else m) l' x)
  end.

(** [sum(l)]: accumulated from the left, starting at [0]. *)
Definition sum_of (l : list Q) : Q := fold_left Qplus l 0%Q.

(** ** Immediate aggregation *)

(** [candle_groups[k].append(c)] on a [defaultdict(list)], kept as an
    association list in insertion order. *)
Fixpoint group_append (k : Z) (c : Candle.t) (g : list (Z * list Candle.t))
  : list (Z * list Candle.t) :=
  match g with
  | [] => [(k, [c])]
  | (k', cs) :: g' =>
      if k =? k' then (k', cs ++ [c]) :: g' else (k', cs) :: group_append k c g'
  end.

Fixpoint group_get (k : Z) (g : list (Z * list Candle.t)) : list Candle.t :=
  match g with
  | [] => []
  | (k', cs) :: g' => if k =? k' then cs else group_get k g'
  end.

Definition window_start_of (interval_ms : Z) (c : Candle.t) : Z :=
  (Candle.time c / interval_ms) * interval_ms.

Definition group_candles (interval_ms : Z) (cs : list Candle.t)
  : list (Z * list Candle.t) :=
  fold_left (fun g c => group_append (window_start_of interval_ms c) c g) cs [].

(** The body of the loop over the sorted window starts: the candles it
    appends to [aggregated_candles] (none or one). *)
Definition aggregate_window (interval_ms window_start : Z)
    (candles_in_window : list Candle.t) : result (list Candle.t) :=
  match sorted_by Candle.time candles_in_window with
  | [] => Ok []
  | (first :: _) as sorted_candles =>
      hi <- max_of (map Candle.high sorted_candles) ;;
      lo <- min_of (map Candle.low sorted_candles) ;;
      Ok [ Candle.mk (window_start + interval_ms)
                     (Candle.open first)
                     hi
                     lo
                     (Candle.close (last sorted_candles first))
                     (sum_of (map Candle.volume sorted_candles)) ]
  end.

Fixpoint aggregate_windows (interval_ms : Z) (g : list (Z * list Candle.t))
    (window_starts : list Z) : result (list Candle.t) :=
  match window_starts with
  | [] => Ok []
  | w :: ws =>
      here <- aggregate_window interval_ms w (group_get w g) ;;
      rest <- aggregate_windows interval_ms g ws ;;
      Ok (here ++ rest)
  end.

Definition aggregate_candles (one_minute_candles : list Candle.t)
    (target_interval : string) : result (list Candle.t) :=
  interval_minutes <- parse_timeframe_to_minutes target_interval ;;
  if interval_minutes <=? 0 then Raise ValueError
  else
    let interval_ms := interval_minutes * 60 * 1000 in
    let candle_groups := group_candles interval_ms one_minute_candles in
    aggregated_candles <-
      aggregate_windows interval_ms candle_groups
        (sorted_by (fun k => k) (map fst candle_groups)) ;;
    Ok (sorted_by Candle.time aggregated_candles).

(** ** Pivot detection *)

Module PivotConfig.
Record t : Type := mk {
  pivotLookback : Z;
  minSwingPct : Q;
  minLegBars : Z;
  pivot_detection_mode : option string   (* [.get(..., 'close')] *)
}.
End PivotConfig.

(** [l[i]], negative indices counting from the end. *)
Definition getitem {A : Type} (l : list A) (i : Z) : result A :=
  let n := Z.of_nat (List.length l) in
  let j := if i <? 0 then i + n else i in
  if (j <? 0) || (n <=? j) then Raise IndexError
  else match nth_error l (Z.to_nat j) with
       | Some x => Ok x
       | None => Raise IndexError
       end.

Definition get_default {A : Type} (o : option A) (d : A) : A :=
  match o with
  | Some x => x
  | None => d
  end.

Definition close_mode (config : PivotConfig.t) : bool :=
  String.eqb (get_default (PivotConfig.pivot_detection_mode config) "close") "close".

Definition high_value (config : PivotConfig.t) (c : Candle.t) : Q :=
  if close_mode config then Candle.close c else Candle.high c.

Definition low_value (config : PivotConfig.t) (c : Candle.t) : Q :=
  if close_mode config then Candle.close c else Candle.low c.

(** The loop [for j in range(j, j + n)] that clears [is_high_pivot]. *)
Fixpoint lookback_high (config : PivotConfig.t) (candles : list Candle.t)
    (index : Z) (current_high : Q) (j : Z) (n : nat) : result bool :=
  match n with
  | O => Ok true
  | S n' =>
      if index - j <? 0 then Ok false
      else
        c <- getitem candles (index - j) ;;
        if Qle_bool current_high (high_value config c) then Ok false
        else lookback_high config candles index current_high (j + 1) n'
  end.

(** The loop that clears [is_low_pivot]. *)
Fixpoint lookback_low (config : PivotConfig.t) (candles : list Candle.t)
    (index : Z) (current_low : Q) (j : Z) (n : nat) : result bool :=
  match n with
  | O => Ok true
  | S n' =>
      if index - j <? 0 then Ok false
      else
        c <- getitem candles (index - j) ;;
        if Qle_bool (low_value config c) current_low then Ok false
        else lookback_low config candles index current_low (j + 1) n'
  end.

(** The swing loop, returning [max_swing_pct]. *)
Fixpoint swing_loop (config : PivotConfig.t) (candles : list Candle.t)
    (index : Z) (pivot_type : PivotType) (pivot_price : Q)
    (max_swing_pct : Q) (j : Z) (n : nat) : result Q :=
  match n with
  | O => Ok max_swing_pct
  | S n' =>
      if index - j <? 0 then Ok max_swing_pct
      else
        compare_candle <- getitem candles (index - j) ;;
        let compare_price :=
          if close_mode config then Candle.close compare_candle
          else match pivot_type with
               | high_pivot => Candle.low compare_candle
               | low_pivot => Candle.high compare_candle
               end in
        r <- truediv (pivot_price - compare_price) compare_price ;;
        let swing_pct := Qabs (r * 100) in
        swing_loop config candles index pivot_type pivot_price
          (if Qltb max_swing_pct swing_pct then swing_pct else max_swing_pct)
          (j + 1) n'
  end.

Definition signal_of (pivot_type : PivotType) : Side :=
  match pivot_type with
  | high_pivot => short
  | low_pivot => long
  end.

Definition detect_pivot (candles : list Candle.t) (index : Z)
    (config : PivotConfig.t) : result (option Pivot.t) :=
  let pivot_lookback := PivotConfig.pivotLookback config in
  let min_swing_pct := PivotConfig.minSwingPct config in
  if (pivot_lookback =? 0) && (index =? 0) then Ok None
  else if (index <? pivot_lookback) || (Z.of_nat (List.length candles) <=? index)
  then Ok None
  else
    current_candle <- getitem candles index ;;
    let current_high := high_value config current_candle in
    let current_low := low_value config current_candle in
    is_high_pivot <-
      (if 0 <? pivot_lookback
       then lookback_high config candles index current_high 1
              (Z.to_nat pivot_lookback)
       else Ok true) ;;
    is_low_pivot <-
      (if 0 <? pivot_lookback
       then lookback_low config candles index current_low 1
              (Z.to_nat pivot_lookback)
       else Ok true) ;;
    flags <-
      (if pivot_lookback =? 0 then
         prev <- getitem candles (index - 1) ;;
         let prev_high := high_value config prev in
         let prev_low := low_value config prev in
         let is_high_pivot := Qltb prev_high current_high in
         let is_low_pivot := Qltb current_low prev_low in
         if is_high_pivot && is_low_pivot then
           let up_excursion := Qabs (current_high - prev_high) in
           let down_excursion := Qabs (prev_low - current_low) in
           if Qle_bool down_excursion up_excursion
           then Ok (is_high_pivot, false)
           else Ok (false, is_low_pivot)
         else Ok (is_high_pivot, is_low_pivot)
       else Ok (is_high_pivot, is_low_pivot)) ;;
    let '(is_high_pivot, is_low_pivot) := flags in
    if negb is_high_pivot && negb is_low_pivot then Ok None
    else
      let pivot_type := if is_high_pivot then high_pivot else low_pivot in
      let pivot_price := if is_high_pivot then current_high else current_low in
      max_swing_pct <-
        (if Qltb 0 min_swing_pct then
           let upper := if pivot_lookback =? 0 then 1 else pivot_lookback in
           swing_loop config candles index pivot_type pivot_price 0 1
             (Z.to_nat upper)
         else Ok 0%Q) ;;
      if Qltb 0 min_swing_pct && Qltb max_swing_pct min_swing_pct then Ok None
      else
        Ok (Some (Pivot.mk pivot_type pivot_price (Candle.time current_candle)
                    index (signal_of pivot_type) max_swing_pct "")).

(** ** Trades *)

Inductive Status : Type := open | closed.

Module Trade.
(** The dataclass [Trade].  Its [id] is built from the wall clock and
    read by nothing; it is left out. *)
Record t : Type := mk {
  type : Side;
  timeframe : string;
  entry_price : Q;
  entry_time : Z;
  trade_size : Q;
  take_profit_price : Q;
  stop_loss_price : Q;
  leverage : Z;
  status : Status;
  exit_price : option Q;
  exit_time : option Z;
  exit_reason : string;
  pnl : Q;
  pnl_pct : Q;
  pivot : option Pivot.t;
  original_entry_price : option Q;
  entry_slippage : Q;
  exit_slippage : option Q;
  original_exit_price : option Q;
  best_price : Q;
  trailing_take_profit_active : bool;
  trailing_take_profit_price : option Q;
  original_take_profit_price : option Q;
  trailing_stop_loss_active : bool;
  trailing_stop_loss_price : option Q;
  original_stop_loss_price : option Q
}.

(** [Trade(type=..., ..., leverage=..., pivot=...)]: every other field
    takes its default, and [__post_init__] then fills [best_price] and
    the two [original_*] prices. *)
Definition new (type : Side) (timeframe : string) (entry_price : Q)
    (entry_time : Z) (trade_size take_profit_price stop_loss_price : Q)
    (leverage : Z) (pivot : option Pivot.t) : t :=
  let best_price := 0%Q in
  let original_take_profit_price : option Q := None in
  let original_stop_loss_price : option Q := None in
  mk type timeframe entry_price entry_time trade_size
     take_profit_price stop_loss_price leverage
     open None None "" 0 0 pivot
     None 0 None None
     (if Qeq_bool best_price 0 then entry_price else best_price)
     false None
     (match original_take_profit_price with
      | None => Some take_profit_price
      | Some x => Some x
      end)
     false None
     (match original_stop_loss_price with
      | None => Some stop_loss_price
      | Some x => Some x
      end).

Definition set_entry_price (x : Q) (tr : t) : t :=
  mk (type tr) (timeframe tr) x (entry_time tr) (trade_size tr)
     (take_profit_price tr) (stop_loss_price tr) (leverage tr)
     (status tr) (exit_price tr) (exit_time tr) (exit_reason tr)
     (pnl tr) (pnl_pct tr) (pivot tr)
     (original_entry_price tr) (entry_slippage tr) (exit_slippage tr)
     (original_exit_price tr)
     (best_price tr)
     (trailing_take_profit_active tr) (trailing_take_profit_price tr)
     (original_take_profit_price tr)
     (trailing_stop_loss_active tr) (trailing_stop_loss_price tr)
     (original_stop_loss_price tr).

Definition set_best_price (x : Q) (tr : t) : t :=
  mk (type tr) (timeframe tr) (entry_price tr) (entry_time tr) (trade_size tr)
     (take_profit_price tr) (stop_loss_price tr) (leverage tr)
     (status tr) (exit_price tr) (exit_time tr) (exit_reason tr)
     (pnl tr) (pnl_pct tr) (pivot tr)
     (original_entry_price tr) (entry_slippage tr) (exit_slippage tr)
     (original_exit_price tr)
     x
     (trailing_take_profit_active tr) (trailing_take_profit_price tr)
     (original_take_profit_price tr)
     (trailing_stop_loss_active tr) (trailing_stop_loss_price tr)
     (original_stop_loss_price tr).

(** The assignments of the closing branch of [update_trade]. *)
Definition set_closed (price : Q) (time : Z) (reason : string)
    (pnl' pnl_pct' : Q) (tr : t) : t :=
  mk (type tr) (timeframe tr) (entry_price tr) (entry_time tr) (trade_size tr)
     (take_profit_price tr) (stop_loss_price tr) (leverage tr)
     closed (Some price) (Some time) reason
     pnl' pnl_pct' (pivot tr)
     (original_entry_price tr) (entry_slippage tr) (exit_slippage tr)
     (original_exit_price tr)
     (best_price tr)
     (trailing_take_profit_active tr) (trailing_take_profit_price tr)
     (original_take_profit_price tr)
     (trailing_stop_loss_active tr) (trailing_stop_loss_price tr)
     (original_stop_loss_price tr).
End Trade.

Module TradeConfig.
(** [trade_config.json] as the code reads it: a key read with
    [config['k']] is a plain field, a key read with [config.get('k', d)]
    is optional and the default is applied where it is read. *)
Record t : Type := mk {
  initial_capital : Q;
  take_profit : Q;
  stop_loss : Q;
  leverage : Z;
  total_maker_fee : option Q;
  simulate_slippage : option bool;
  slippage_percentage : option Q;
  simulate_funding : option bool;
  funding_rate : option Q;
  funding_interval_hours : option Z;
  position_sizing_mode : option string;
  amount_per_trade : option Q;
  risk_per_trade : option Q;
  minimum_trade_amount : option Q;
  direction : option string;
  entry_delay_minutes : option Z;
  single_trade_mode : option bool;
  max_concurrent_trades : option Z
}.
End TradeConfig.

Definition create_trade (trade_type : Side) (pivot : Pivot.t) (trade_size : Q)
    (entry_time : Z) (timeframe : string) (config : TradeConfig.t) : Trade.t :=
  let entry_price := Pivot.price pivot in
  let tp_distance := (entry_price * (TradeConfig.take_profit config / 100))%Q in
  let sl_distance := (entry_price * (TradeConfig.stop_loss config / 100))%Q in
  let '(take_profit_price, stop_loss_price) :=
    match trade_type with
    | long => (entry_price + tp_distance, entry_price - sl_distance)%Q
    | short => (entry_price - tp_distance, entry_price + sl_distance)%Q
    end in
  Trade.new trade_type timeframe entry_price entry_time trade_size
    take_profit_price stop_loss_price (TradeConfig.leverage config)
    (Some pivot).

Definition is_long (trade : Trade.t) : bool := Side_eqb (Trade.type trade) long.

(** The exit test of [update_trade]: [(should_close, exit_reason)]. *)
Definition exit_condition (trade : Trade.t) (current_price : Q) : bool * string :=
  if is_long trade then
    if Qle_bool (Trade.take_profit_price trade) current_price then (true, "TP")
    else if Qle_bool current_price (Trade.stop_loss_price trade) then (true, "SL")
    else (false, "")
  else
    if Qle_bool current_price (Trade.take_profit_price trade) then (true, "TP")
    else if Qle_bool (Trade.stop_loss_price trade) current_price then (true, "SL")
    else (false, "").

(** The first block of [update_trade]: the best price seen. *)
Definition update_best_price (trade : Trade.t) (current_price : Q) : Trade.t :=
  if is_long trade then
    if Qltb (Trade.best_price trade) current_price
    then Trade.set_best_price current_price trade else trade
  else
    if Qltb current_price (Trade.best_price trade)
    then Trade.set_best_price current_price trade else trade.

(** [update_trade] mutates [trade] and returns [should_close]; here it
    returns the trade after the call together with that flag. *)
Definition update_trade (trade : Trade.t) (current_candle : Candle.t)
    (config : TradeConfig.t) : result (Trade.t * bool) :=
  let current_price := Candle.close current_candle in
  let trade := update_best_price trade current_price in
  let '(should_close, exit_reason) := exit_condition trade current_price in
  if should_close then
    let exit_price := current_price in
    let exit_time := Candle.time current_candle in
    let price_change :=
      (if is_long trade then exit_price - Trade.entry_price trade
       else Trade.entry_price trade - exit_price)%Q in
    r <- truediv price_change (Trade.entry_price trade) ;;
    let pnl := (r * Trade.trade_size trade * inject_Z (Trade.leverage trade))%Q in
    let pnl_pct := (r * 100 * inject_Z (Trade.leverage trade))%Q in
    let total_fees :=
      (Trade.trade_size trade
       * (get_default (TradeConfig.total_maker_fee config) 0.1 / 100) * 2)%Q in
    let pnl :=
      if get_default (TradeConfig.simulate_slippage config) false then
        let slippage_pct := get_default (TradeConfig.slippage_percentage config) 0.02%Q in
        let slippage_amount := (Trade.trade_size trade * (slippage_pct / 100))%Q in
        (pnl - slippage_amount)%Q
      else pnl in
    let pnl :=
      if get_default (TradeConfig.simulate_funding config) false then
        let trade_duration_hours :=
          (inject_Z (exit_time - Trade.entry_time trade)
           / inject_Z (1000 * 60 * 60))%Q in
        let funding_periods := int_of_float (trade_duration_hours / 8) in
        if 0 <? funding_periods then
          let funding_rate := get_default (TradeConfig.funding_rate config) 0.01%Q in
          let funding_cost :=
            (Trade.trade_size trade * (funding_rate / 100)
             * inject_Z funding_periods)%Q in
          (pnl - funding_cost)%Q
        else pnl
      else pnl in
    let pnl := (pnl - total_fees)%Q in
    Ok (Trade.set_closed exit_price exit_time exit_reason pnl pnl_pct trade, true)
  else Ok (trade, false).

Definition Qmax_py (a b : Q) : Q := if Qltb a b then b else a.
Definition Zmax_py (a b : Z) : Z := if a <? b then b else a.
Definition Zmin_py (a b : Z) : Z := if b <? a then b else a.

Definition calculate_trade_size (capital : Q) (config : TradeConfig.t) : Q :=
  let sizing_mode := get_default (TradeConfig.position_sizing_mode config) "percent" in
  if String.eqb sizing_mode "fixed" then
    get_default (TradeConfig.amount_per_trade config) 100%Q
  else if String.eqb sizing_mode "percent" then
    (capital * (get_default (TradeConfig.risk_per_trade config) 100 / 100))%Q
  else if String.eqb sizing_mode "minimum" then
    let calculated :=
      (capital * (get_default (TradeConfig.risk_per_trade config) 100 / 100))%Q in
    let minimum := get_default (TradeConfig.minimum_trade_amount config) 100%Q in
    Qmax_py calculated minimum
  else get_default (TradeConfig.amount_per_trade config) 100%Q.

(** [(True, side)] is [Some side]; [(False, '')] is [None]. *)
Definition apply_direction_filter (pivot : Pivot.t) (config : TradeConfig.t)
  : option Side :=
  let direction := get_default (TradeConfig.direction config) "both" in
  match Pivot.signal pivot with
  | long =>
      if String.eqb direction "buy" || String.eqb direction "both" then Some long
      else if String.eqb direction "alternate" then Some short
      else None
  | short =>
      if String.eqb direction "sell" || String.eqb direction "both" then Some short
      else if String.eqb direction "alternate" then Some long
      else None
  end.

(** ** Cascade confirmation *)

Module Confirmation.
Record t : Type := mk {
  timeframe : string;
  role : string;
  weight : Q;
  pivot : Pivot.t;
  inverted : bool
}.
End Confirmation.

Module TimeframeConfig.
(** One entry of [multi_pivot_config['timeframes']]. *)
Record t : Type := mk {
  interval : string;
  role : option string;
  lookback : Z;
  minSwingPct : Q;
  minLegBars : Z;
  weight : option Q;
  opposite : option bool
}.
End TimeframeConfig.

(** A [dict] with string keys, as an association list; the first
    binding of a key is the one in force. *)
Fixpoint dict_get {V : Type} (d : list (string * V)) (k : string) : option V :=
  match d with
  | [] => None
  | (k', v) :: d' => if String.eqb k k' then Some v else dict_get d' k
  end.

Fixpoint dict_set {V : Type} (d : list (string * V)) (k : string) (v : V)
  : list (string * V) :=
  match d with
  | [] => [(k, v)]
  | (k', v') :: d' =>
      if String.eqb k k' then (k', v) :: d' else (k', v') :: dict_set d' k v
  end.

Module MultiPivotConfig.
(** [multi_agg_config.json] as the code reads it.  The confirmation
    window is looked up under two spellings: [check_cascade_confirmation]
    reads [cascade_settings.confirmation_window], the main loop reads
    [cascadeSettings.confirmationWindow]; both are kept. *)
Record t : Type := mk {
  timeframes : list TimeframeConfig.t;
  cascade_settings_confirmation_window : list (string * Z);
  cascade_settings_min_timeframes_required : option Z;
  cascade_settings_require_primary_timeframe : option bool;
  cascadeSettings_confirmationWindow : list (string * Z)
}.
End MultiPivotConfig.

(** The conditional expression that sets [target_signal].  Python reads
    [a if c else b if d else e] as [a if c else (b if d else e)]. *)
Definition target_signal (primary_signal : Side) (opposite : bool) : Side :=
  if Side_eqb primary_signal long then short
  else if opposite then long
  else primary_signal.

Definition check_timeframe (primary_pivot : Pivot.t)
    (all_timeframe_pivots : list (string * list Pivot.t)) (as_of_time : Z)
    (effective_window_ms : Z) (tf_config : TimeframeConfig.t)
  : list Confirmation.t :=
  let timeframe := TimeframeConfig.interval tf_config in
  let pivots := get_default (dict_get all_timeframe_pivots timeframe) [] in
  let target :=
    target_signal (Pivot.signal primary_pivot)
      (get_default (TimeframeConfig.opposite tf_config) false) in
  let recent_pivots :=
    filter (fun p =>
              Side_eqb (Pivot.signal p) target
              && (Z.abs (Pivot.time p - Pivot.time primary_pivot) <=? effective_window_ms)
              && (Pivot.time p <=? as_of_time)) pivots in
  match recent_pivots with
  | [] => []
  | first :: _ =>
      [ Confirmation.mk timeframe
          (get_default (TimeframeConfig.role tf_config) "secondary")
          (get_default (TimeframeConfig.weight tf_config) 1%Q)
          first
          (get_default (TimeframeConfig.opposite tf_config) false) ]
  end.

Definition check_cascade_confirmation (primary_pivot : Pivot.t)
    (all_timeframe_pivots : list (string * list Pivot.t)) (as_of_time : Z)
    (primary_interval : string) (config : MultiPivotConfig.t)
  : list Confirmation.t :=
  let proximity_window_ms := 5 * 60 * 1000 in
  let configured_minutes :=
    dict_get (MultiPivotConfig.cascade_settings_confirmation_window config)
      primary_interval in
  let effective_window_ms :=
    match configured_minutes with
    | Some m => Zmin_py proximity_window_ms (m * 60 * 1000)
    | None => proximity_window_ms
    end in
  flat_map (check_timeframe primary_pivot all_timeframe_pivots as_of_time
              effective_window_ms)
    (MultiPivotConfig.timeframes config).

Definition meets_execution_requirements (confirmations : list Confirmation.t)
    (config : MultiPivotConfig.t) : bool :=
  let min_required :=
    get_default (MultiPivotConfig.cascade_settings_min_timeframes_required config) 2 in
  if Z.of_nat (List.length confirmations) <? min_required then false
  else if get_default (MultiPivotConfig.cascade_settings_require_primary_timeframe config) false
  then existsb (fun c => String.eqb (Confirmation.role c) "primary") confirmations
  else true.

(** ** The simulation loop *)

Fixpoint foldM {A S : Type} (f : S -> A -> result S) (l : list A) (s : S)
  : result S :=
  match l with
  | [] => Ok s
  | x :: l' => s' <- f s x ;; foldM f l' s'
  end.

Module Window.
(** An entry of [pending_windows]. *)
Record t : Type := mk {
  primary_pivot : Pivot.t;
  created_time : Z
}.
End Window.

Module Sim.
(** The local variables of [run_immediate_aggregation_backtest] that the
    loop updates.  A [Trade] object is appended to [open_trades] and to
    [all_trades] when it is created and both lists hold the same object;
    [all_trades] only grows, so a trade is identified by its position
    there and [open_trades] holds positions. *)
Record t : Type := mk {
  capital : Q;
  open_trades : list nat;
  all_trades : list Trade.t;
  confirmed_signals : Z;
  executed_trades : Z;
  total_signals : Z;
  pending_windows : list Window.t;
  applied_funding_rates : list Z
}.

Definition init (capital : Q) : t := mk capital [] [] 0 0 0 [] [].
End Sim.

Module Env.
(** What the loop reads and never writes. *)
Record t : Type := mk {
  trade_config : TradeConfig.t;
  multi_pivot_config : MultiPivotConfig.t;
  timeframe_pivots : list (string * list Pivot.t);
  one_minute_candles : list Candle.t;
  primary_tf_name : string;
  primary_pivots : list Pivot.t
}.
End Env.

(** [BACKTEST_CONFIG['trading_mode']]. *)
Definition trading_mode : string := "cascade".

Definition deref (store : list Trade.t) (r : nat) : result Trade.t :=
  match nth_error store r with
  | Some tr => Ok tr
  | None => Raise IndexError
  end.

Fixpoint store_set (store : list Trade.t) (r : nat) (tr : Trade.t) : list Trade.t :=
  match store, r with
  | [], _ => []
  | _ :: store', O => tr :: store'
  | x :: store', S r' => x :: store_set store' r' tr
  end.

Fixpoint deref_all (store : list Trade.t) (refs : list nat) : result (list Trade.t) :=
  match refs with
  | [] => Ok []
  | r :: refs' =>
      tr <- deref store r ;;
      trs <- deref_all store refs' ;;
      Ok (tr :: trs)
  end.

(** [apply_funding_rates]: the new capital and the updated set of
    funding keys. *)
Definition apply_funding_rates (current_time : Z) (open_trades : list Trade.t)
    (capital : Q) (applied_funding_rates : list Z) (trade_config : TradeConfig.t)
  : result (Q * list Z) :=
  let funding_interval_hours :=
    get_default (TradeConfig.funding_interval_hours trade_config) 8 in
  let funding_rate := get_default (TradeConfig.funding_rate trade_config) 0.0001%Q in
  if (match open_trades with [] => true | _ => false end) || Qeq_bool funding_rate 0
  then Ok (capital, applied_funding_rates)
  else
    q <- floordiv current_time (funding_interval_hours * 60 * 60 * 1000) ;;
    let funding_time_key := q * (funding_interval_hours * 60 * 60 * 1000) in
    if existsb (Z.eqb funding_time_key) applied_funding_rates
    then Ok (capital, applied_funding_rates)
    else
      let total_funding :=
        fold_left (fun total trade => (total + Trade.trade_size trade * funding_rate)%Q)
          open_trades 0%Q in
      Ok ((capital - total_funding)%Q, funding_time_key :: applied_funding_rates).

(** The loop [for j in range(len(open_trades) - 1, -1, -1)]: positions
    are visited from the last to the first, and a closed trade is popped
    from [open_trades].  Returns what is left of [open_trades], the
    capital and the trade objects. *)
Fixpoint monitor_trades (minute_candle : Candle.t) (config : TradeConfig.t)
    (refs : list nat) (capital : Q) (store : list Trade.t)
  : result (list nat * Q * list Trade.t) :=
  match refs with
  | [] => Ok ([], capital, store)
  | r :: refs' =>
      later <- monitor_trades minute_candle config refs' capital store ;;
      let '(kept, capital, store) := later in
      trade <- deref store r ;;
      if Trade.entry_time trade <=? Candle.time minute_candle then
        u <- update_trade trade minute_candle config ;;
        let '(trade, should_close) := u in
        let store := store_set store r trade in
        if should_close then Ok (kept, (capital + Trade.pnl trade)%Q, store)
        else Ok (r :: kept, capital, store)
      else Ok (r :: kept, capital, store)
  end.

Definition truthy (n : Z) : bool := negb (n =? 0).

(** The window length computed inside the loop over [pending_windows]. *)
Definition loop_effective_window_ms (config : MultiPivotConfig.t)
    (primary_interval : string) : Z :=
  let proximity_window_ms := 5 * 60 * 1000 in
  let configured_minutes :=
    dict_get (MultiPivotConfig.cascadeSettings_confirmationWindow config)
      primary_interval in
  let configured_window_ms :=
    match configured_minutes with
    | Some m => if truthy m then Some (m * 60 * 1000) else None
    | None => None
    end in
  match configured_window_ms with
  | Some w => if truthy w then Zmin_py proximity_window_ms w else proximity_window_ms
  | None => proximity_window_ms
  end.

Definition max_of_Z (l : list Z) : result Z :=
  match l with
  | [] => Raise ValueError
  | x :: l' => Ok (fold_left (fun m y => if m <? y then y else m) l' x)
  end.

(** The entry price: the close of the 1m candle at [actual_entry_time]
    ([one_minute_time_map] keeps the last candle of each time), else of
    the nearest candle within thirty seconds. *)
Definition entry_price_override (one_minute_candles : list Candle.t)
    (actual_entry_time : Z) : option Q :=
  match find (fun c => Candle.time c =? actual_entry_time) (rev one_minute_candles) with
  | Some c => Some (Candle.close c)
  | None =>
      let thirty_sec := 30 * 1000 in
      let nearest :=
        fold_left
          (fun (nearest : option Candle.t) c =>
             if Z.abs (Candle.time c - actual_entry_time) <=? thirty_sec then
               match nearest with
               | None => Some c
               | Some n =>
                   if Z.abs (Candle.time c - actual_entry_time)
                      <? Z.abs (Candle.time n - actual_entry_time)
                   then Some c else nearest
               end
             else nearest)
          one_minute_candles None in
      option_map Candle.close nearest
  end.

(** One pass of the body of the loop over [pending_windows], for the
    window [win].  The flag says whether [win] stays in
    [pending_windows]. *)
Definition evaluate_window (env : Env.t) (minute_candle : Candle.t)
    (win : Window.t) (st : Sim.t) : result (bool * Sim.t) :=
  let trade_config := Env.trade_config env in
  let multi_pivot_config := Env.multi_pivot_config env in
  let primary_interval := Env.primary_tf_name env in
  let effective_window_ms := loop_effective_window_ms multi_pivot_config primary_interval in
  let window_end := Pivot.time (Window.primary_pivot win) + effective_window_ms in
  if window_end <? Candle.time minute_candle then Ok (false, st)
  else
    let confirmations :=
      check_cascade_confirmation (Window.primary_pivot win)
        (Env.timeframe_pivots env) (Candle.time minute_candle)
        primary_interval multi_pivot_config in
    if meets_execution_requirements confirmations multi_pivot_config then
      last_conf_time <-
        max_of_Z (map (fun c => Pivot.time (Confirmation.pivot c)) confirmations) ;;
      let execution_time :=
        Zmax_py (Pivot.time (Window.primary_pivot win)) last_conf_time in
      let delay_ms :=
        get_default (TradeConfig.entry_delay_minutes trade_config) 0 * 60 * 1000 in
      let actual_entry_time := execution_time + delay_ms in
      match entry_price_override (Env.one_minute_candles env) actual_entry_time with
      | None => Ok (true, st)
      | Some price =>
          if Qeq_bool price 0 then Ok (true, st)
          else
            match apply_direction_filter (Window.primary_pivot win) trade_config with
            | Some trade_type =>
                let max_trades :=
                  if get_default (TradeConfig.single_trade_mode trade_config) false
                  then 1
                  else get_default (TradeConfig.max_concurrent_trades trade_config) 1 in
                if Z.of_nat (List.length (Sim.open_trades st)) <? max_trades then
                  let trade_size := calculate_trade_size (Sim.capital st) trade_config in
                  let trade :=
                    Trade.set_entry_price price
                      (create_trade trade_type (Window.primary_pivot win) trade_size
                         actual_entry_time (Env.primary_tf_name env) trade_config) in
                  Ok (false,
                      Sim.mk (Sim.capital st)
                        (Sim.open_trades st ++ [List.length (Sim.all_trades st)])
                        (Sim.all_trades st ++ [trade])
                        (Sim.confirmed_signals st + 1)
                        (Sim.executed_trades st + 1)
                        (Sim.total_signals st)
                        (Sim.pending_windows st)
                        (Sim.applied_funding_rates st))
                else Ok (false, st)
            | None => Ok (false, st)
            end
      end
    else Ok (true, st).

(** The loop [for w in range(len(pending_windows) - 1, -1, -1)]: the
    windows left pending and the state. *)
Fixpoint evaluate_windows (env : Env.t) (minute_candle : Candle.t)
    (wins : list Window.t) (st : Sim.t) : result (list Window.t * Sim.t) :=
  match wins with
  | [] => Ok ([], st)
  | win :: wins' =>
      later <- evaluate_windows env minute_candle wins' st ;;
      let '(kept, st) := later in
      here <- evaluate_window env minute_candle win st ;;
      let '(stays, st) := here in
      Ok (if stays then win :: kept else kept, st)
  end.

(** The body of [for minute_candle in minute_candles_in_range]. *)
Definition process_minute (env : Env.t) (st : Sim.t) (minute_candle : Candle.t)
  : result Sim.t :=
  m <- monitor_trades minute_candle (Env.trade_config env)
         (Sim.open_trades st) (Sim.capital st) (Sim.all_trades st) ;;
  let '(open_trades, capital, all_trades) := m in
  let st :=
    Sim.mk capital open_trades all_trades
      (Sim.confirmed_signals st) (Sim.executed_trades st) (Sim.total_signals st)
      (Sim.pending_windows st) (Sim.applied_funding_rates st) in
  if String.eqb trading_mode "cascade"
     && negb (match Sim.pending_windows st with [] => true | _ => false end)
  then
    e <- evaluate_windows env minute_candle (Sim.pending_windows st) st ;;
    let '(pending_windows, st) := e in
    Ok (Sim.mk (Sim.capital st) (Sim.open_trades st) (Sim.all_trades st)
          (Sim.confirmed_signals st) (Sim.executed_trades st)
          (Sim.total_signals st) pending_windows (Sim.applied_funding_rates st))
  else Ok st.

(** The body of [for i, current_candle in enumerate(primary_candles)]. *)
Definition process_primary_candle (env : Env.t) (st : Sim.t)
    (current_candle : Candle.t) : result Sim.t :=
  let current_time := Candle.time current_candle in
  primary_tf_minutes <- parse_timeframe_to_minutes (Env.primary_tf_name env) ;;
  let start_time := current_time - primary_tf_minutes * 60 * 1000 in
  let minute_candles_in_range :=
    filter (fun minute_candle =>
              (start_time <? Candle.time minute_candle)
              && (Candle.time minute_candle <=? current_time))
      (Env.one_minute_candles env) in
  trades <- deref_all (Sim.all_trades st) (Sim.open_trades st) ;;
  f <- apply_funding_rates current_time trades (Sim.capital st)
         (Sim.applied_funding_rates st) (Env.trade_config env) ;;
  let '(capital, applied_funding_rates) := f in
  let st :=
    Sim.mk capital (Sim.open_trades st) (Sim.all_trades st)
      (Sim.confirmed_signals st) (Sim.executed_trades st) (Sim.total_signals st)
      (Sim.pending_windows st) applied_funding_rates in
  st <- foldM (process_minute env) minute_candles_in_range st ;;
  match find (fun p => Pivot.time p =? current_time) (Env.primary_pivots env) with
  | Some current_pivot =>
      Ok (Sim.mk (Sim.capital st) (Sim.open_trades st) (Sim.all_trades st)
            (Sim.confirmed_signals st) (Sim.executed_trades st)
            (Sim.total_signals st + 1)
            (if String.eqb trading_mode "cascade"
             then Sim.pending_windows st ++ [Window.mk current_pivot current_time]
             else Sim.pending_windows st)
            (Sim.applied_funding_rates st))
  | None => Ok st
  end.

(** The body of [for trade in open_trades] in the closing block: the
    flag returned by [update_trade] is not looked at. *)
Definition close_one (env : Env.t) (last_candle : Candle.t) (st : Sim.t) (r : nat)
  : result Sim.t :=
  trade <- deref (Sim.all_trades st) r ;;
  u <- update_trade trade last_candle (Env.trade_config env) ;;
  let trade := fst u in
  Ok (Sim.mk (Sim.capital st + Trade.pnl trade)%Q
        (Sim.open_trades st)
        (store_set (Sim.all_trades st) r trade)
        (Sim.confirmed_signals st) (Sim.executed_trades st)
        (Sim.total_signals st) (Sim.pending_windows st)
        (Sim.applied_funding_rates st)).

(** The block under [# Close any remaining open trades]. *)
Definition close_remaining (env : Env.t) (primary_candles : list Candle.t)
    (st : Sim.t) : result Sim.t :=
  match Sim.open_trades st with
  | [] => Ok st
  | _ :: _ =>
      last_candle <- getitem primary_candles (-1) ;;
      foldM (close_one env last_candle) (Sim.open_trades st) st
  end.

(** The trading simulation: the loop over the primary candles, then the
    closing block. *)
Definition simulate (env : Env.t) (primary_candles : list Candle.t)
    (st : Sim.t) : result Sim.t :=
  st <- foldM (process_primary_candle env) primary_candles st ;;
  close_remaining env primary_candles st.

(** *** Setting the run up *)

Definition build_timeframe_data (one_minute_candles : list Candle.t)
    (timeframes : list TimeframeConfig.t)
  : result (list (string * list Candle.t)) :=
  foldM (fun timeframe_data tf_config =>
           let tf_name := TimeframeConfig.interval tf_config in
           cs <- (if String.eqb tf_name "1m" then Ok one_minute_candles
                  else if String.eqb tf_name "2h"
                  then aggregate_candles one_minute_candles "2h"
                  else aggregate_candles one_minute_candles tf_name) ;;
           Ok (dict_set timeframe_data tf_name cs))
    timeframes [].

(** [for i in range(len(aggregated_candles))]: the pivots found, in
    order, each stamped with its timeframe. *)
Definition detect_pivots (aggregated_candles : list Candle.t)
    (pivot_config : PivotConfig.t) (tf_name : string) (found : list Pivot.t)
  : result (list Pivot.t) :=
  foldM (fun found i =>
           pivot <- detect_pivot aggregated_candles (Z.of_nat i) pivot_config ;;
           match pivot with
           | Some p =>
               Ok (found ++ [Pivot.mk (Pivot.type p) (Pivot.price p) (Pivot.time p)
                               (Pivot.index p) (Pivot.signal p) (Pivot.swing_pct p)
                               tf_name])
           | None => Ok found
           end)
    (seq 0 (List.length aggregated_candles)) found.

Definition build_timeframe_pivots (pivot_detection_mode : string)
    (timeframe_data : list (string * list Candle.t))
    (timeframes : list TimeframeConfig.t)
  : result (list (string * list Pivot.t)) :=
  let empty :=
    fold_left (fun d tf_config => dict_set d (TimeframeConfig.interval tf_config) [])
      timeframes [] in
  foldM (fun timeframe_pivots tf_config =>
           let tf_name := TimeframeConfig.interval tf_config in
           aggregated_candles <-
             (match dict_get timeframe_data tf_name with
              | Some cs => Ok cs
              | None => Raise KeyError
              end) ;;
           let pivot_config :=
             PivotConfig.mk (TimeframeConfig.lookback tf_config)
               (TimeframeConfig.minSwingPct tf_config)
               (TimeframeConfig.minLegBars tf_config)
               (Some pivot_detection_mode) in
           found <- detect_pivots aggregated_candles pivot_config tf_name
                      (get_default (dict_get timeframe_pivots tf_name) []) ;;
           Ok (dict_set timeframe_pivots tf_name found))
    timeframes empty.

(** [next((tf for tf in timeframes if tf['role'] == 'primary'), None)]. *)
Fixpoint find_primary (timeframes : list TimeframeConfig.t)
  : result (option TimeframeConfig.t) :=
  match timeframes with
  | [] => Ok None
  | tf :: rest =>
      match TimeframeConfig.role tf with
      | None => Raise KeyError
      | Some role => if String.eqb role "primary" then Ok (Some tf) else find_primary rest
      end
  end.

(** [run_immediate_aggregation_backtest], from the loaded configuration
    and candles on.  [None] is the early [return] on an empty candle
    file; otherwise the state when the summary is printed. *)
Definition run_immediate_aggregation_backtest (pivot_detection_mode : string)
    (trade_config : TradeConfig.t) (multi_pivot_config : MultiPivotConfig.t)
    (one_minute_candles : list Candle.t) : result (option Sim.t) :=
  match one_minute_candles with
  | [] => Ok None
  | _ :: _ =>
      let timeframes := MultiPivotConfig.timeframes multi_pivot_config in
      timeframe_data <- build_timeframe_data one_minute_candles timeframes ;;
      timeframe_pivots <-
        build_timeframe_pivots pivot_detection_mode timeframe_data timeframes ;;
      primary_tf <- find_primary timeframes ;;
      match primary_tf with
      | None => Raise ValueError
      | Some primary_tf =>
          let primary_tf_name := TimeframeConfig.interval primary_tf in
          primary_candles <-
            (match dict_get timeframe_data primary_tf_name with
             | Some cs => Ok cs
             | None => Raise KeyError
             end) ;;
          primary_pivots <-
            (match dict_get timeframe_pivots primary_tf_name with
             | Some ps => Ok ps
             | None => Raise KeyError
             end) ;;
          match get_default (dict_get timeframe_data "1m") [] with
          | [] => Raise ValueError
          | (_ :: _) as one_minute_candles =>
              let env :=
                Env.mk trade_config multi_pivot_config timeframe_pivots
                  one_minute_candles primary_tf_name primary_pivots in
              st <- simulate env primary_candles
                      (Sim.init (TradeConfig.initial_capital trade_config)) ;;
              Ok (Some st)
          end
      end
  end.

(** [execution_rate] of the results summary (printed when
    [total_signals > 0]). *)
Definition execution_rate (st : Sim.t) : Q :=
  if 0 <? Sim.confirmed_signals st
  then (inject_Z (Sim.executed_trades st) / inject_Z (Sim.confirmed_signals st) * 100)%Q
  else 0%Q.

(** ** Definitions in the words of the specification *)

Definition flip (s : Side) : Side :=
  match s with
  | long => short
  | short => long
  end.

(** The required signal of a confirming timeframe: that of the primary
    pivot, or the other one when the timeframe is marked opposite. *)
Definition required_signal_spec (primary_signal : Side) (opposite : bool) : Side :=
  if opposite then flip primary_signal else primary_signal.

(** The terms of the realized P&L. *)
Definition direction_sign (trade : Trade.t) : Q :=
  match Trade.type trade with
  | long => 1
  | short => -1
  end.

Definition pnl_before_costs (trade : Trade.t) (exit_price : Q) : Q :=
  (direction_sign trade
   * ((exit_price - Trade.entry_price trade) / Trade.entry_price trade)
   * Trade.trade_size trade * inject_Z (Trade.leverage trade))%Q.

Definition fee_rate (config : TradeConfig.t) : Q :=
  (get_default (TradeConfig.total_maker_fee config) 0.1 / 100)%Q.

Definition round_trip_fees (trade : Trade.t) (config : TradeConfig.t) : Q :=
  (Trade.trade_size trade * fee_rate config * 2)%Q.

Definition slippage_cost (trade : Trade.t) (config : TradeConfig.t) : Q :=
  if get_default (TradeConfig.simulate_slippage config) false
  then (Trade.trade_size trade
        * (get_default (TradeConfig.slippage_percentage config) 0.02 / 100))%Q
  else 0%Q.

Definition funding_cost (trade : Trade.t) (exit_time : Z) (config : TradeConfig.t) : Q :=
  if get_default (TradeConfig.simulate_funding config) false then
    let periods :=
      int_of_float (inject_Z (exit_time - Trade.entry_time trade)
                    / inject_Z (1000 * 60 * 60) / 8)%Q in
    if 0 <? periods
    then (Trade.trade_size trade
          * (get_default (TradeConfig.funding_rate config) 0.01 / 100)
          * inject_Z periods)%Q
    else 0%Q
  else 0%Q.

(** The direction of a pivot at zero lookback: high when the value
    exceeds the previous candle's, low when it is below; when both
    hold, the larger excursion wins and a tie goes to high. *)
Definition zero_lookback_direction (config : PivotConfig.t)
    (prev cur : Candle.t) : option PivotType :=
  let exceeds := Qltb (high_value config prev) (high_value config cur) in
  let below := Qltb (low_value config cur) (low_value config prev) in
  let up_excursion := Qabs (high_value config cur - high_value config prev) in
  let down_excursion := Qabs (low_value config prev - low_value config cur) in
  match exceeds, below with
  | true, true =>
      if Qle_bool down_excursion up_excursion then Some high_pivot else Some low_pivot
  | true, false => Some high_pivot
  | false, true => Some low_pivot
  | false, false => None
  end.

(** The last stage of [detect_pivot]: the minimum-swing threshold, then
    the pivot. *)
Definition finish_pivot (config : PivotConfig.t) (candles : list Candle.t)
    (index : Z) (cur : Candle.t) (ty : PivotType) : result (option Pivot.t) :=
  let min_swing_pct := PivotConfig.minSwingPct config in
  let pivot_lookback := PivotConfig.pivotLookback config in
  let pivot_price :=
    match ty with
    | high_pivot => high_value config cur
    | low_pivot => low_value config cur
    end in
  max_swing_pct <-
    (if Qltb 0 min_swing_pct then
       swing_loop config candles index ty pivot_price 0 1
         (Z.to_nat (if pivot_lookback =? 0 then 1 else pivot_lookback))
     else Ok 0%Q) ;;
  if Qltb 0 min_swing_pct && Qltb max_swing_pct min_swing_pct then Ok None
  else Ok (Some (Pivot.mk ty pivot_price (Candle.time cur) index (signal_of ty)
                   max_swing_pct "")).

(** ** Invariants of the simulation state *)

Definition counters_agree (st : Sim.t) : Prop :=
  Sim.confirmed_signals st = Sim.executed_trades st.

(** The concurrency cap read when a window is about to execute. *)
Definition max_trades (trade_config : TradeConfig.t) : Z :=
  if get_default (TradeConfig.single_trade_mode trade_config) false
  then 1
  else get_default (TradeConfig.max_concurrent_trades trade_config) 1.

(** The window is confirmed at this tick: inside its deadline, with
    enough confirmations. *)
Definition confirmed_at (env : Env.t) (minute_candle : Candle.t) (win : Window.t) : Prop :=
  Candle.time minute_candle
  <= Pivot.time (Window.primary_pivot win)
     + loop_effective_window_ms (Env.multi_pivot_config env) (Env.primary_tf_name env)
  /\ meets_execution_requirements
       (check_cascade_confirmation (Window.primary_pivot win)
          (Env.timeframe_pivots env) (Candle.time minute_candle)
          (Env.primary_tf_name env) (Env.multi_pivot_config env))
       (Env.multi_pivot_config env) = true.

(** The entry price of a confirmed window resolves to [price]. *)
Definition entry_price_resolved (env : Env.t) (minute_candle : Candle.t)
    (win : Window.t) (price : Q) : Prop :=
  exists last_conf_time,
    max_of_Z
      (map (fun c => Pivot.time (Confirmation.pivot c))
         (check_cascade_confirmation (Window.primary_pivot win)
            (Env.timeframe_pivots env) (Candle.time minute_candle)
            (Env.primary_tf_name env) (Env.multi_pivot_config env)))
    = Ok last_conf_time
    /\ entry_price_override (Env.one_minute_candles env)
         (Zmax_py (Pivot.time (Window.primary_pivot win)) last_conf_time
          + get_default (TradeConfig.entry_delay_minutes (Env.trade_config env)) 0
            * 60 * 1000)
       = Some price
    /\ ~ (price == 0)%Q.

(** No trailing level is active or set, and the take-profit and
    stop-loss prices are the original ones. *)
Definition untrailed (trade : Trade.t) : Prop :=
  Trade.trailing_take_profit_active trade = false
  /\ Trade.trailing_stop_loss_active trade = false
  /\ Trade.trailing_take_profit_price trade = None
  /\ Trade.trailing_stop_loss_price trade = None
  /\ Trade.original_take_profit_price trade = Some (Trade.take_profit_price trade)
  /\ Trade.original_stop_loss_price trade = Some (Trade.stop_loss_price trade).

(** The take-profit and stop-loss prices are those [create_trade] set
    from the pivot price. *)
Definition levels_fixed_at_entry (config : TradeConfig.t) (trade : Trade.t) : Prop :=
  exists pivot,
    Trade.pivot trade = Some pivot
    /\ let price := Pivot.price pivot in
       let tp_distance := (price * (TradeConfig.take_profit config / 100))%Q in
       let sl_distance := (price * (TradeConfig.stop_loss config / 100))%Q in
       match Trade.type trade with
       | long =>
           Trade.take_profit_price trade = (price + tp_distance)%Q
           /\ Trade.stop_loss_price trade = (price - sl_distance)%Q
       | short =>
           Trade.take_profit_price trade = (price - tp_distance)%Q
           /\ Trade.stop_loss_price trade = (price + sl_distance)%Q
       end.

(** The invariant kept for every trade object of a run. *)
Definition trade_ok (config : TradeConfig.t) (trade : Trade.t) : Prop :=
  untrailed trade /\ levels_fixed_at_entry config trade.

(** The state after a trade has been opened for a confirmed window. *)
Definition with_opened_trade (st : Sim.t) (trade : Trade.t) : Sim.t :=
  Sim.mk (Sim.capital st)
    (Sim.open_trades st ++ [List.length (Sim.all_trades st)])
    (Sim.all_trades st ++ [trade])
    (Sim.confirmed_signals st + 1)
    (Sim.executed_trades st + 1)
    (Sim.total_signals st)
    (Sim.pending_windows st)
    (Sim.applied_funding_rates st).

(** The deadline the loop computes for a pending window. *)
Definition window_end (env : Env.t) (win : Window.t) : Z :=
  Pivot.time (Window.primary_pivot win)
  + loop_effective_window_ms (Env.multi_pivot_config env) (Env.primary_tf_name env).

(** What one evaluation of a pending window can do: whether the window
    stays pending, and the state afterwards. *)
Inductive window_outcome (env : Env.t) (minute_candle : Candle.t)
    (win : Window.t) (st : Sim.t) : bool -> Sim.t -> Prop :=
| outcome_expired :
    window_end env win < Candle.time minute_candle ->
    window_outcome env minute_candle win st false st
| outcome_unconfirmed :
    Candle.time minute_candle <= window_end env win ->
    meets_execution_requirements
      (check_cascade_confirmation (Window.primary_pivot win)
         (Env.timeframe_pivots env) (Candle.time minute_candle)
         (Env.primary_tf_name env) (Env.multi_pivot_config env))
      (Env.multi_pivot_config env) = false ->
    window_outcome env minute_candle win st true st
| outcome_no_price :
    confirmed_at env minute_candle win ->
    (forall price, ~ entry_price_resolved env minute_candle win price) ->
    window_outcome env minute_candle win st true st
| outcome_not_opened (price : Q) :
    confirmed_at env minute_candle win ->
    entry_price_resolved env minute_candle win price ->
    apply_direction_filter (Window.primary_pivot win) (Env.trade_config env) = None
    \/ max_trades (Env.trade_config env) <= Z.of_nat (List.length (Sim.open_trades st)) ->
    window_outcome env minute_candle win st false st
| outcome_opened (price : Q) (side : Side) (trade : Trade.t) :
    confirmed_at env minute_candle win ->
    entry_price_resolved env minute_candle win price ->
    apply_direction_filter (Window.primary_pivot win) (Env.trade_config env) = Some side ->
    Z.of_nat (List.length (Sim.open_trades st)) < max_trades (Env.trade_config env) ->
    Trade.type trade = side ->
    Trade.entry_price trade = price ->
    Trade.pivot trade = Some (Window.primary_pivot win) ->
    trade_ok (Env.trade_config env) trade ->
    window_outcome env minute_candle win st false (with_opened_trade st trade).

(** The invariant of the simulation: the two counters agree and every
    trade object is as [create_trade] left its levels. *)
Definition run_invariant (env : Env.t) (st : Sim.t) : Prop :=
  counters_agree st
  /\ Forall (trade_ok (Env.trade_config env)) (Sim.all_trades st).

(** The exit test on given levels, as a proposition. *)
Definition exit_triggered (side : Side) (take_profit stop_loss close : Q) : Prop :=
  match side with
  | long => (take_profit <= close)%Q \/ (close <= stop_loss)%Q
  | short => (close <= take_profit)%Q \/ (stop_loss <= close)%Q
  end.

(** A small run used as a concrete instance: five 1m candles, the 1m
    timeframe alone, one confirmation required.  The rise from 100 to
    101 is a high pivot, its window confirms on the next tick and a
    short trade opens; the price then stays at 101. *)
Definition sample_trade_config : TradeConfig.t :=
  TradeConfig.mk 10000 10 10 1 (Some 0%Q) None None None None None None None
    None None None None None None.

Definition sample_timeframes : list TimeframeConfig.t :=
  [TimeframeConfig.mk "1m" (Some "primary") 1 0 0 None None].

Definition sample_multi_pivot_config : MultiPivotConfig.t :=
  MultiPivotConfig.mk sample_timeframes [] (Some 1) None [].

Definition flat_candle (time : Z) (price : Q) : Candle.t :=
  Candle.mk time price price price price 1.

Definition sample_candles : list Candle.t :=
  [flat_candle 60000 100; flat_candle 120000 101; flat_candle 180000 101;
   flat_candle 240000 101; flat_candle 300000 101].

(** The sample run with a confirmation window of zero minutes, under
    both spellings of the setting. *)
Definition zero_window_config : MultiPivotConfig.t :=
  MultiPivotConfig.mk sample_timeframes [("1m", 0)] (Some 1) None [("1m", 0)].

(** The effective window and the deadline in the words of the
    specification. *)
Definition effective_window_spec (configured_minutes : option Z) : Z :=
  match configured_minutes with
  | Some m => Z.min (5 * 60 * 1000) (m * 60 * 1000)
  | None => 5 * 60 * 1000
  end.

Definition deadline_spec (configured_minutes : option Z) (win : Window.t) : Z :=
  Pivot.time (Window.primary_pivot win) + effective_window_spec configured_minutes.

(** ** Buckets and derived candles *)

(** The candles of [s] whose window starts at [k], in the order of [s]. *)
Definition bucket (interval_ms k : Z) (s : list Candle.t) : list Candle.t :=
  filter (fun c => window_start_of interval_ms c =? k) s.

(** The derived candle of a window, from its candles sorted by time. *)
Definition merge_sorted (interval_ms k : Z) (first : Candle.t)
    (rest : list Candle.t) : Candle.t :=
  Candle.mk (k + interval_ms)
    (Candle.open first)
    (fold_left (fun m y => if Qltb m y then y else m) (map Candle.high rest)
       (Candle.high first))
    (fold_left (fun m y => if Qltb y m then y else m) (map Candle.low rest)
       (Candle.low first))
    (Candle.close (last (first :: rest) first))
    (sum_of (map Candle.volume (first :: rest))).

Definition derive (interval_ms : Z) (s : list Candle.t) (k : Z) : list Candle.t :=
  match sorted_by Candle.time (bucket interval_ms k s) with
  | [] => []
  | first :: rest => [merge_sorted interval_ms k first rest]
  end.

(** The window starts of [s], ascending, each once. *)
Definition window_starts (interval_ms : Z) (s : list Candle.t) : list Z :=
  sorted_by (fun k => k) (map fst (group_candles interval_ms s)).

(** One derived candle per window, as the specification describes it. *)
Definition derived_candle (interval_ms : Z) (s : list Candle.t) (k : Z)
    (d : Candle.t) : Prop :=
  let b := bucket interval_ms k s in
  Candle.time d = k + interval_ms
  /\ (exists c, In c b /\ (forall c', In c' b -> Candle.time c <= Candle.time c')
                /\ Candle.open d = Candle.open c)
  /\ (exists c, In c b /\ Candle.high d = Candle.high c)
  /\ (forall c, In c b -> (Candle.high c <= Candle.high d)%Q)
  /\ (exists c, In c b /\ Candle.low d = Candle.low c)
  /\ (forall c, In c b -> (Candle.low d <= Candle.low c)%Q)
  /\ (exists c, In c b /\ (forall c', In c' b -> Candle.time c' <= Candle.time c)
                /\ Candle.close d = Candle.close c)
  /\ (Candle.volume d == fold_right Qplus 0 (map Candle.volume b))%Q.

(** The same candle, one interval later. *)
Definition shift_time (interval_ms : Z) (d : Candle.t) : Candle.t :=
  Candle.mk (Candle.time d + interval_ms) (Candle.open d) (Candle.high d)
    (Candle.low d) (Candle.close d) (Candle.volume d).

(** The synthetic series of the specification: four 1-minute candles. *)
Definition four_candles : list Candle.t :=
  [Candle.mk 0 1 2 0.5 1.5 10; Candle.mk 60000 1.5 3 1 2 20;
   Candle.mk 120000 2 2.5 1.5 2 5; Candle.mk 180000 2 4 2 3 7].

(** The same with two confirmations required, so that the window of the
    sample run is never confirmed. *)
Definition zero_window_unconfirmed_config : MultiPivotConfig.t :=
  MultiPivotConfig.mk sample_timeframes [("1m", 0)] (Some 2) None [("1m", 0)].

(** What the first block of [update_trade] leaves untouched. *)
Definition same_terms (a b : Trade.t) : Prop :=
  Trade.type a = Trade.type b
  /\ Trade.entry_price a = Trade.entry_price b
  /\ Trade.entry_time a = Trade.entry_time b
  /\ Trade.trade_size a = Trade.trade_size b
  /\ Trade.leverage a = Trade.leverage b
  /\ Trade.take_profit_price a = Trade.take_profit_price b
  /\ Trade.stop_loss_price a = Trade.stop_loss_price b.

(** The volume of a series. *)
Definition total_volume (l : list Candle.t) : Q :=
  fold_right Qplus 0%Q (map Candle.volume l).

(** ** Stages of [detect_pivot] *)

(** The two flags [is_high_pivot] and [is_low_pivot] as they stand
    before the test [if not is_high_pivot and not is_low_pivot]. *)
Definition pivot_flags (config : PivotConfig.t) (candles : list Candle.t)
    (index : Z) (cur : Candle.t) : result (bool * bool) :=
  let pivot_lookback := PivotConfig.pivotLookback config in
  let current_high := high_value config cur in
  let current_low := low_value config cur in
  is_high_pivot <-
    (if 0 <? pivot_lookback
     then lookback_high config candles index current_high 1 (Z.to_nat pivot_lookback)
     else Ok true) ;;
  is_low_pivot <-
    (if 0 <? pivot_lookback
     then lookback_low config candles index current_low 1 (Z.to_nat pivot_lookback)
     else Ok true) ;;
  if pivot_lookback =? 0 then
    prev <- getitem candles (index - 1) ;;
    let prev_high := high_value config prev in
    let prev_low := low_value config prev in
    let is_high_pivot := Qltb prev_high current_high in
    let is_low_pivot := Qltb current_low prev_low in
    if is_high_pivot && is_low_pivot then
      let up_excursion := Qabs (current_high - prev_high) in
      let down_excursion := Qabs (prev_low - current_low) in
      if Qle_bool down_excursion up_excursion
      then Ok (is_high_pivot, false)
      else Ok (false, is_low_pivot)
    else Ok (is_high_pivot, is_low_pivot)
  else Ok (is_high_pivot, is_low_pivot).

(** The value of a pivot of the given type at a candle. *)
Definition pivot_value (config : PivotConfig.t) (ty : PivotType) (c : Candle.t) : Q :=
  match ty with
  | high_pivot => high_value config c
  | low_pivot => low_value config c
  end.

(** The two triggers of [update_trade], on the levels of the trade. *)
Definition take_profit_hit (trade : Trade.t) (close : Q) : Prop :=
  match Trade.type trade with
  | long => (Trade.take_profit_price trade <= close)%Q
  | short => (close <= Trade.take_profit_price trade)%Q
  end.

Definition stop_loss_hit (trade : Trade.t) (close : Q) : Prop :=
  match Trade.type trade with
  | long => (close <= Trade.stop_loss_price trade)%Q
  | short => (Trade.stop_loss_price trade <= close)%Q
  end.

(** The nearest-candle search of the entry price, as a function. *)
Definition nearer (actual_entry_time : Z) (nearest : option Candle.t) (c : Candle.t)
  : option Candle.t :=
  if Z.abs (Candle.time c - actual_entry_time) <=? 30 * 1000 then
    match nearest with
    | None => Some c
    | Some n =>
        if Z.abs (Candle.time c - actual_entry_time)
           <? Z.abs (Candle.time n - actual_entry_time)
        then Some c else nearest
    end
  else nearest.

(** The funding key of a time: the start of its funding interval. *)
Definition funding_key (config : TradeConfig.t) (time : Z) : Z :=
  let ms := get_default (TradeConfig.funding_interval_hours config) 8
            * 60 * 60 * 1000 in
  time / ms * ms.

(** The funding rate in force in [apply_funding_rates], and the sum of
    the sizes of the trades it charges. *)
Definition funding_rate_of (config : TradeConfig.t) : Q :=
  get_default (TradeConfig.funding_rate config) 0.0001%Q.

Definition total_size (trades : list Trade.t) : Q :=
  fold_right Qplus 0%Q (map Trade.trade_size trades).

(** ** The ledger invariant *)

(** What holds of every trade object of a run. *)
Definition ledger_trade_ok (env : Env.t) (trade : Trade.t) : Prop :=
  ~ (Trade.entry_price trade == 0)%Q
  /\ Trade.timeframe trade = Env.primary_tf_name env
  /\ Trade.leverage trade = TradeConfig.leverage (Env.trade_config env)
  /\ exists pivot,
       Trade.pivot trade = Some pivot
       /\ In pivot (Env.primary_pivots env)
       /\ apply_direction_filter pivot (Env.trade_config env) = Some (Trade.type trade)
       /\ let delay :=
            get_default (TradeConfig.entry_delay_minutes (Env.trade_config env)) 0
            * 60 * 1000 in
          Pivot.time pivot + delay <= Trade.entry_time trade
          <= Pivot.time pivot + 5 * 60 * 1000 + delay.

Definition window_ok (env : Env.t) (win : Window.t) : Prop :=
  In (Window.primary_pivot win) (Env.primary_pivots env)
  /\ Window.created_time win = Pivot.time (Window.primary_pivot win).

(** What holds of the state between two steps of the loop. *)
Definition ledger_invariant (env : Env.t) (st : Sim.t) : Prop :=
  Forall (fun r => (r < List.length (Sim.all_trades st))%nat) (Sim.open_trades st)
  /\ NoDup (Sim.open_trades st)
  /\ (forall r trade, nth_error (Sim.all_trades st) r = Some trade ->
        (In r (Sim.open_trades st) <-> Trade.status trade = open))
  /\ Sim.executed_trades st = Z.of_nat (List.length (Sim.all_trades st))
  /\ Sim.confirmed_signals st + Z.of_nat (List.length (Sim.pending_windows st))
     <= Sim.total_signals st
  /\ Z.of_nat (List.length (Sim.open_trades st))
     <= Z.max 0 (max_trades (Env.trade_config env))
  /\ Forall (ledger_trade_ok env) (Sim.all_trades st)
  /\ Forall (window_ok env) (Sim.pending_windows st).


(** What the monitoring loop does to each referenced trade. *)
Inductive monitored (config : TradeConfig.t) (c : Candle.t) (kept : list nat)
    (r : nat) (before after : Trade.t) : Prop :=
| monitored_not_started :
    Candle.time c < Trade.entry_time before ->
    after = before -> In r kept ->
    monitored config c kept r before after
| monitored_updated (should_close : bool) :
    Trade.entry_time before <= Candle.time c ->
    update_trade before c config = Ok (after, should_close) ->
    (should_close = false <-> In r kept) ->
    monitored config c kept r before after.

(** The part of the ledger invariant that does not mention the pending
    windows. *)
Definition ledger_core (env : Env.t) (st : Sim.t) : Prop :=
  Forall (fun r => (r < List.length (Sim.all_trades st))%nat) (Sim.open_trades st)
  /\ NoDup (Sim.open_trades st)
  /\ (forall r trade, nth_error (Sim.all_trades st) r = Some trade ->
        (In r (Sim.open_trades st) <-> Trade.status trade = open))
  /\ Sim.executed_trades st = Z.of_nat (List.length (Sim.all_trades st))
  /\ Z.of_nat (List.length (Sim.open_trades st))
     <= Z.max 0 (max_trades (Env.trade_config env))
  /\ Forall (ledger_trade_ok env) (Sim.all_trades st).

(** What holds of the state when the summary is printed: the closing
    block pops nothing from [open_trades], so a trade it closes stays
    referenced. *)
Definition final_ledger (env : Env.t) (st : Sim.t) : Prop :=
  Forall (fun r => (r < List.length (Sim.all_trades st))%nat) (Sim.open_trades st)
  /\ NoDup (Sim.open_trades st)
  /\ (forall r trade, nth_error (Sim.all_trades st) r = Some trade ->
        Trade.status trade = open -> In r (Sim.open_trades st))
  /\ Sim.executed_trades st = Z.of_nat (List.length (Sim.all_trades st))
  /\ Sim.confirmed_signals st + Z.of_nat (List.length (Sim.pending_windows st))
     <= Sim.total_signals st
  /\ Z.of_nat (List.length (Sim.open_trades st))
     <= Z.max 0 (max_trades (Env.trade_config env))
  /\ Forall (ledger_trade_ok env) (Sim.all_trades st).

(** The number of trades of a ledger whose status is [open], and their
    positions counted from [from]. *)
Definition is_open (trade : Trade.t) : bool :=
  match Trade.status trade with
  | open => true
  | closed => false
  end.

Definition open_count (trades : list Trade.t) : nat :=
  List.length (filter is_open trades).

Fixpoint open_positions (from : nat) (trades : list Trade.t) : list nat :=
  match trades with
  | [] => []
  | trade :: rest =>
      if is_open trade then from :: open_positions (S from) rest
      else open_positions (S from) rest
  end.

(** What the sample run hands to its loop: the one pivot found, the
    high at the second candle. *)
Definition sample_pivot : Pivot.t :=
  Pivot.mk high_pivot 101 120000 1 short 0 "1m".

Definition sample_env : Env.t :=
  Env.mk sample_trade_config sample_multi_pivot_config
    [("1m", [sample_pivot])] sample_candles "1m" [sample_pivot].

(** The sum of the P&L of the trades of a ledger. *)
Definition realized_pnl (trades : list Trade.t) : Q :=
  fold_right (fun trade total => (Trade.pnl trade + total)%Q) 0%Q trades.

(** The exit fields of a trade agree with its status: an open trade has
    no exit and no P&L; a closed trade was closed on a candle, admitted
    by [exit_candle] for its entry time, whose close triggered its exit
    and gave its exit price and time. *)
Definition trade_life (exit_candle : Z -> Candle.t -> Prop) (trade : Trade.t) : Prop :=
  match Trade.status trade with
  | open =>
      Trade.pnl trade = 0%Q
      /\ Trade.exit_price trade = None
      /\ Trade.exit_time trade = None
  | closed =>
      exists c,
        exit_candle (Trade.entry_time trade) c
        /\ Trade.exit_price trade = Some (Candle.close c)
        /\ Trade.exit_time trade = Some (Candle.time c)
        /\ exit_triggered (Trade.type trade) (Trade.take_profit_price trade)
             (Trade.stop_loss_price trade) (Candle.close c)
  end.

(** The candles a trade can be closed on: in the loop a 1m candle not
    before the trade's entry time; in the closing block the last primary
    candle. *)
Definition monitored_tick (env : Env.t) (entry_time : Z) (c : Candle.t) : Prop :=
  In c (Env.one_minute_candles env) /\ entry_time <= Candle.time c.

Definition closing_tick (env : Env.t) (primary_candles : list Candle.t)
    (entry_time : Z) (c : Candle.t) : Prop :=
  monitored_tick env entry_time c \/ getitem primary_candles (-1) = Ok c.

(** The capital is the initial capital plus the P&L of the ledger. *)
Definition books_balance (initial_capital : Q) (st : Sim.t) : Prop :=
  (Sim.capital st == initial_capital + realized_pnl (Sim.all_trades st))%Q.

(** Funding charges are switched off. *)
Definition no_funding (config : TradeConfig.t) : Prop :=
  (get_default (TradeConfig.funding_rate config) 0.0001 == 0)%Q.

(** The sample run with fees and funding switched off and a sixth candle
    at 90, below the take-profit (90.9) of the short trade opened at
    101: the trade is closed there by the loop. *)
Definition unfunded_trade_config : TradeConfig.t :=
  TradeConfig.mk 10000 10 10 1 (Some 0%Q) None None None (Some 0%Q) None None
    None None None None None None None.

Definition closing_candles : list Candle.t :=
  sample_candles ++ [flat_candle 360000 90].

Definition closing_env : Env.t :=
  Env.mk unfunded_trade_config sample_multi_pivot_config
    [("1m", [sample_pivot])] closing_candles "1m" [sample_pivot].

(** The state of a run that has opened no trade. *)
Definition no_trade_yet (capital : Q) (st : Sim.t) : Prop :=
  Sim.all_trades st = []
  /\ Sim.open_trades st = []
  /\ Sim.capital st = capital
  /\ Sim.confirmed_signals st = 0
  /\ Sim.executed_trades st = 0
  /\ Sim.applied_funding_rates st = [].

(** The sample run with [min_timeframes_required] left unset: the one
    configured timeframe is fewer than the default of two. *)
Definition lone_timeframe_config : MultiPivotConfig.t :=
  MultiPivotConfig.mk sample_timeframes [] None None [].

Definition lone_timeframe_env : Env.t :=
  Env.mk sample_trade_config lone_timeframe_config
    [("1m", [sample_pivot])] sample_candles "1m" [sample_pivot].

(** A primary candle whose time is that of a pivot of the primary
    timeframe. *)
Definition carries_pivot (env : Env.t) (c : Candle.t) : bool :=
  existsb (fun p => Pivot.time p =? Candle.time c) (Env.primary_pivots env).

(** The trade types the [direction] setting admits for a signal. *)
Definition direction_allows (direction : string) (signal side : Side) : Prop :=
  (direction = "both" /\ side = signal)
  \/ (direction = "buy" /\ signal = long /\ side = long)
  \/ (direction = "sell" /\ signal = short /\ side = short)
  \/ (direction = "alternate" /\ side = flip signal).

(** [pivot.timeframe = tf_name]. *)
Definition with_timeframe (tf_name : string) (p : Pivot.t) : Pivot.t :=
  Pivot.mk (Pivot.type p) (Pivot.price p) (Pivot.time p) (Pivot.index p)
    (Pivot.signal p) (Pivot.swing_pct p) tf_name.

(** A pivot of a timeframe's list: what [detect_pivot] returned at some
    index of the candle list, stamped with the timeframe's name; it
    carries that index and the time of the candle there. *)
Definition detected_at (candles : list Candle.t) (config : PivotConfig.t)
    (tf_name : string) (q : Pivot.t) : Prop :=
  exists p index,
    detect_pivot candles index config = Ok (Some p)
    /\ q = with_timeframe tf_name p
    /\ Pivot.index q = index
    /\ exists cur, getitem candles index = Ok cur /\ Pivot.time q = Candle.time cur.

(** The funding keys recorded so far: no key twice, each the key of the
    time of one of the primary candles. *)
Definition funding_keys_ok (env : Env.t) (primary_candles : list Candle.t)
    (applied : list Z) : Prop :=
  NoDup applied
  /\ Forall (fun key =>
               exists c, In c primary_candles
                         /\ key = funding_key (Env.trade_config env) (Candle.time c))
       applied.

(* ================================================================= *)
(** * Properties *)

(** ** Strings and [int] *)

Lemma chars_append (a b : string) : chars (a ++ b)%string = chars a ++ chars b.
Proof.
  unfold chars. induction a as [|c a IH]; simpl; [reflexivity|].
  now rewrite IH.
Qed.

Lemma endswith_append_char (p : string) (c x : ascii) :
  endswith (p ++ String c EmptyString)%string x = Ascii.eqb c x.
Proof.
  unfold endswith. rewrite chars_append. simpl.
  rewrite rev_app_distr. reflexivity.
Qed.

Lemma drop_last_append_char (p : string) (c : ascii) :
  drop_last (p ++ String c EmptyString)%string = p.
Proof.
  unfold drop_last. rewrite chars_append. simpl.
  rewrite removelast_last. unfold chars.
  apply string_of_list_ascii_of_string.
Qed.

(** ** Timeframe parsing *)

(** The four suffixes: the number in front, times 1, 60, 1440, 10080. *)
Lemma parse_timeframe_suffix_m (p : string) :
  parse_timeframe_to_minutes (p ++ "m")%string = int p.
Proof.
  unfold parse_timeframe_to_minutes.
  rewrite endswith_append_char, drop_last_append_char. reflexivity.
Qed.

Lemma parse_timeframe_suffix_h (p : string) :
  parse_timeframe_to_minutes (p ++ "h")%string = (n <- int p ;; Ok (n * 60)).
Proof.
  unfold parse_timeframe_to_minutes.
  rewrite !endswith_append_char, drop_last_append_char. reflexivity.
Qed.

Lemma parse_timeframe_suffix_d (p : string) :
  parse_timeframe_to_minutes (p ++ "d")%string = (n <- int p ;; Ok (n * 1440)).
Proof.
  unfold parse_timeframe_to_minutes.
  rewrite !endswith_append_char, drop_last_append_char. simpl.
  destruct (int p); simpl; [f_equal; lia | reflexivity].
Qed.

Lemma parse_timeframe_suffix_w (p : string) :
  parse_timeframe_to_minutes (p ++ "w")%string = (n <- int p ;; Ok (n * 10080)).
Proof.
  unfold parse_timeframe_to_minutes.
  rewrite !endswith_append_char, drop_last_append_char. simpl.
  destruct (int p); simpl; [f_equal; lia | reflexivity].
Qed.

(** A string that does not parse fails the aggregation call with the
    same exception; so does an interval that is not positive. *)
Lemma aggregate_candles_invalid_timeframe (cs : list Candle.t) (tf : string) (e : exn) :
  parse_timeframe_to_minutes tf = Raise e -> aggregate_candles cs tf = Raise e.
Proof. intros H. unfold aggregate_candles. now rewrite H. Qed.

Lemma aggregate_candles_nonpositive_interval (cs : list Candle.t) (tf : string) (n : Z) :
  parse_timeframe_to_minutes tf = Ok n -> n <= 0 ->
  aggregate_candles cs tf = Raise ValueError.
Proof.
  intros H Hn. unfold aggregate_candles. rewrite H. simpl.
  destruct (Z.leb_spec n 0); [reflexivity | lia].
Qed.

Lemma endswith_last_char (s : string) (x : ascii) :
  endswith s x = true -> exists l, chars s = l ++ [x].
Proof.
  unfold endswith. intros H.
  destruct (rev (chars s)) as [|y r] eqn:E; [discriminate|].
  apply Ascii.eqb_eq in H. subst y.
  exists (rev r). rewrite <- (rev_involutive (chars s)), E. reflexivity.
Qed.

(** A string made of digits only has no suffix: the definition in force
    rejects it. *)
Lemma parse_timeframe_digits_only (s : string) :
  forallb is_digit (chars s) = true ->
  parse_timeframe_to_minutes s = Raise ValueError.
Proof.
  intros Hd. unfold parse_timeframe_to_minutes.
  assert (Hno : forall x, is_digit x = false -> endswith s x = false).
  { intros x Hx. destruct (endswith s x) eqn:E; [|reflexivity].
    apply endswith_last_char in E. destruct E as [l El].
    rewrite El, forallb_app in Hd. simpl in Hd.
    rewrite Hx in Hd. now rewrite andb_false_r in Hd. }
  rewrite !Hno by reflexivity. reflexivity.
Qed.

(** C4.  The definition of [parse_timeframe_to_minutes] that is in
    force when [aggregate_candles] runs has no branch for a string
    without suffix: ["5"] makes the call fail with [ValueError], while
    the first definition of the same name, which the second one
    replaces, reads it as five minutes. *)
Theorem aggregate_candles_digits_only_timeframe :
  (forall cs, aggregate_candles cs "5" = Raise ValueError)
  /\ parse_timeframe_to_minutes "5" = Raise ValueError
  /\ Utility.parse_timeframe_to_minutes "5" = Ok 5.
Proof.
  split; [|split; reflexivity].
  intros cs. now apply aggregate_candles_invalid_timeframe.
Qed.

(** ** The required signal of a confirming timeframe *)

Lemma target_signal_agrees_elsewhere (s : Side) (opposite : bool) :
  (s = long /\ opposite = false) \/ target_signal s opposite = required_signal_spec s opposite.
Proof. destruct s, opposite; simpl; auto. Qed.

(** C1.  For a long primary pivot and a timeframe that is not marked
    opposite the code searches for short pivots: the required signal is
    [short], not [long]; a long pivot of that timeframe inside the
    window is therefore not taken as a confirmation. *)
Theorem target_signal_long_not_opposite :
  target_signal long false = short
  /\ required_signal_spec long false = long
  /\ (let primary := Pivot.mk low_pivot 100 0 0 long 0 "1m" in
      let secondary := Pivot.mk low_pivot 100 60000 0 long 0 "5m" in
      let config :=
        MultiPivotConfig.mk
          [TimeframeConfig.mk "5m" (Some "secondary") 1 0 0 None (Some false)]
          [] None None [] in
      check_cascade_confirmation primary [("5m", [secondary])] 60000 "1m" config = []).
Proof. repeat split. Qed.

(** ** Realized P&L *)

Lemma truediv_Ok (a b r : Q) :
  truediv a b = Ok r -> ~ (b == 0)%Q /\ r = (a / b)%Q.
Proof.
  unfold truediv. destruct (Qeq_bool b 0) eqn:E; [discriminate|].
  intros H. inversion H. split; [|reflexivity].
  intros Hb. apply Qeq_bool_iff in Hb. congruence.
Qed.

Lemma best_price_update_same_terms (trade : Trade.t) (price : Q) :
  same_terms (update_best_price trade price) trade.
Proof.
  unfold update_best_price.
  destruct (is_long trade), (Qltb (Trade.best_price trade) price),
    (Qltb price (Trade.best_price trade)); repeat split.
Qed.

(** C7.  When [update_trade] closes a trade, the P&L it stores is the
    signed relative price move times size times leverage, less the
    slippage and funding charges when these are simulated, less the
    round-trip fees [trade_size * fee_rate * 2]. *)
Theorem update_trade_realized_pnl
    (trade : Trade.t) (current_candle : Candle.t) (config : TradeConfig.t)
    (trade' : Trade.t) :
  update_trade trade current_candle config = Ok (trade', true) ->
  Trade.status trade' = closed
  /\ Trade.exit_price trade' = Some (Candle.close current_candle)
  /\ Trade.exit_time trade' = Some (Candle.time current_candle)
  /\ (Trade.pnl trade'
      == pnl_before_costs trade (Candle.close current_candle)
         - slippage_cost trade config
         - funding_cost trade (Candle.time current_candle) config
         - round_trip_fees trade config)%Q.
Proof.
  unfold update_trade.
  pose proof (best_price_update_same_terms trade (Candle.close current_candle)) as Hs.
  set (t1 := update_best_price trade (Candle.close current_candle)) in *.
  destruct Hs as (Hty & Hep & Het & Hsz & Hlv & _).
  destruct (exit_condition t1 (Candle.close current_candle)) as [should_close reason].
  destruct should_close; [|discriminate].
  destruct (truediv _ (Trade.entry_price t1)) as [r|] eqn:Hr; [|discriminate].
  apply truediv_Ok in Hr. destruct Hr as [Hnz ->].
  simpl. intros H. inversion H; subst trade'; clear H. simpl.
  repeat split.
  unfold pnl_before_costs, slippage_cost, funding_cost, round_trip_fees,
    fee_rate, direction_sign, is_long.
  rewrite Hty, Hep, Het, Hsz, Hlv in *.
  destruct (Trade.type trade); simpl;
    destruct (get_default (TradeConfig.simulate_slippage config) false);
    destruct (get_default (TradeConfig.simulate_funding config) false);
    try destruct (0 <? int_of_float _);
    field; exact Hnz.
Qed.

Lemma update_trade_realized_pnl_witness :
  let config :=
    TradeConfig.mk 10000 10 10 1 (Some 0%Q) (Some false) None (Some false)
      None None None None None None None None None None in
  let pivot := Pivot.mk low_pivot 100 0 0 long 0 "1m" in
  let exit_candle := Candle.mk 60000 110 110 110 110 1 in
  exists long_closed short_closed,
    update_trade (create_trade long pivot 1000 0 "1m" config) exit_candle config
    = Ok (long_closed, true)
    /\ (Trade.pnl long_closed == 100)%Q
    /\ update_trade (create_trade short pivot 1000 0 "1m" config) exit_candle config
       = Ok (short_closed, true)
    /\ (Trade.pnl short_closed == -100)%Q.
Proof.
  intros config pivot exit_candle.
  eexists. eexists.
  assert (Hl : forall side,
             update_trade (create_trade side pivot 1000 0 "1m" config) exit_candle config
             = Ok (fst (match update_trade (create_trade side pivot 1000 0 "1m" config)
                                exit_candle config with
                        | Ok u => u
                        | Raise _ => (create_trade side pivot 1000 0 "1m" config, false)
                        end), true)).
  { intros []; vm_compute; reflexivity. }
  split; [exact (Hl long)|].
  split.
  { destruct (update_trade_realized_pnl _ _ _ _ (Hl long)) as (_ & _ & _ & Hp).
    eapply Qeq_trans; [exact Hp|]. vm_compute. reflexivity. }
  split; [exact (Hl short)|].
  destruct (update_trade_realized_pnl _ _ _ _ (Hl short)) as (_ & _ & _ & Hp).
  eapply Qeq_trans; [exact Hp|]. vm_compute. reflexivity.
Defined.

(** ** Pivot detection at zero lookback *)

Lemma Qltb_lt (a b : Q) : Qltb a b = true <-> (a < b)%Q.
Proof.
  unfold Qltb. rewrite negb_true_iff. split; intros H.
  - apply Qnot_le_lt. intros Hle. apply Qle_bool_iff in Hle. congruence.
  - destruct (Qle_bool b a) eqn:E; [|reflexivity].
    apply Qle_bool_iff in E. exfalso. now apply (Qlt_not_le a b).
Qed.

Lemma Qltb_ge (a b : Q) : Qltb a b = false <-> (b <= a)%Q.
Proof.
  unfold Qltb. rewrite negb_false_iff. apply Qle_bool_iff.
Qed.

Lemma getitem_Ok_bounds {A : Type} (l : list A) (i : Z) (x : A) :
  0 <= i -> getitem l i = Ok x -> i < Z.of_nat (List.length l).
Proof.
  unfold getitem. intros Hi.
  destruct (Z.ltb_spec i 0); [lia|].
  destruct (Z.ltb_spec i 0); [lia|]. simpl.
  destruct (Z.leb_spec (Z.of_nat (List.length l)) i); [discriminate|]. lia.
Qed.

(** At zero lookback [detect_pivot] is the direction rule followed by
    the minimum-swing stage. *)
Lemma detect_pivot_zero_lookback_eq
    (candles : list Candle.t) (index : Z) (config : PivotConfig.t)
    (prev cur : Candle.t) :
  PivotConfig.pivotLookback config = 0 ->
  0 < index ->
  getitem candles (index - 1) = Ok prev ->
  getitem candles index = Ok cur ->
  detect_pivot candles index config =
  match zero_lookback_direction config prev cur with
  | None => Ok None
  | Some ty => finish_pivot config candles index cur ty
  end.
Proof.
  intros HL Hi Hprev Hcur.
  pose proof (getitem_Ok_bounds _ _ _ (Z.lt_le_incl _ _ Hi) Hcur) as Hlen.
  unfold detect_pivot, zero_lookback_direction, finish_pivot.
  rewrite HL, Hcur, Hprev. simpl.
  destruct (Z.eqb_spec index 0); [lia|].
  destruct (Z.ltb_spec index 0); [lia|].
  destruct (Z.leb_spec (Z.of_nat (List.length candles)) index); [lia|]. simpl.
  destruct (Qltb (high_value config prev) (high_value config cur)),
    (Qltb (low_value config cur) (low_value config prev)); simpl;
    try destruct (Qle_bool _ _); reflexivity.
Qed.

(** C8.  With lookback 0 [detect_pivot] returns [None] at index 0.  At
    a later index the candle is a high pivot when its value exceeds the
    previous candle's and a low pivot when it is below; when both hold
    the larger excursion decides and a tie goes to high.  No pivot is
    returned when neither holds, every pivot returned has the direction
    so chosen, and a candle with a direction is returned as a pivot
    unless a positive minimum swing is configured and that stage drops
    it. *)
Theorem detect_pivot_zero_lookback :
  (forall candles config,
      PivotConfig.pivotLookback config = 0 ->
      detect_pivot candles 0 config = Ok None)
  /\
  forall (candles : list Candle.t) (index : Z) (config : PivotConfig.t)
         (prev cur : Candle.t),
  PivotConfig.pivotLookback config = 0 ->
  0 < index ->
  getitem candles (index - 1) = Ok prev ->
  getitem candles index = Ok cur ->
  let exceeds := (high_value config prev < high_value config cur)%Q in
  let below := (low_value config cur < low_value config prev)%Q in
  let up_excursion := Qabs (high_value config cur - high_value config prev) in
  let down_excursion := Qabs (low_value config prev - low_value config cur) in
  let chosen (ty : PivotType) : Prop :=
    match ty with
    | high_pivot => exceeds /\ (below -> (down_excursion <= up_excursion)%Q)
    | low_pivot => below /\ (exceeds -> (up_excursion < down_excursion)%Q)
    end in
  (~ exceeds -> ~ below -> detect_pivot candles index config = Ok None)
  /\ (forall p, detect_pivot candles index config = Ok (Some p) ->
        chosen (Pivot.type p)
        /\ Pivot.signal p = signal_of (Pivot.type p)
        /\ Pivot.time p = Candle.time cur
        /\ Pivot.index p = index)
  /\ (forall ty, chosen ty ->
        (exists p, detect_pivot candles index config = Ok (Some p)
                   /\ Pivot.type p = ty)
        \/ ((0 < PivotConfig.minSwingPct config)%Q
            /\ (detect_pivot candles index config = Ok None
                \/ detect_pivot candles index config = Raise ZeroDivisionError))).
Proof.
  split.
  { intros candles config HL. unfold detect_pivot. rewrite HL. reflexivity. }
  intros candles index config prev cur HL Hi Hprev Hcur
    exceeds below up_excursion down_excursion chosen.
  rewrite (detect_pivot_zero_lookback_eq _ _ _ _ _ HL Hi Hprev Hcur).
  assert (Hdir : forall ty,
             zero_lookback_direction config prev cur = Some ty <-> chosen ty).
  { intros ty. unfold zero_lookback_direction, chosen, exceeds, below,
      up_excursion, down_excursion.
    destruct (Qltb (high_value config prev) (high_value config cur)) eqn:Eh;
      destruct (Qltb (low_value config cur) (low_value config prev)) eqn:El;
      try destruct (Qle_bool _ _) eqn:Ee;
      try (apply Qltb_lt in Eh); try (apply Qltb_ge in Eh);
      try (apply Qltb_lt in El); try (apply Qltb_ge in El);
      try match goal with
        | H : Qle_bool ?a ?b = true |- _ => apply Qle_bool_iff in H
        | H : Qle_bool ?a ?b = false |- _ =>
            assert (Hlt : (b < a)%Q) by (apply Qltb_lt; unfold Qltb; now rewrite H)
        end;
      destruct ty; split; intros Hc; try discriminate; try reflexivity;
      try (exfalso; lra); try (split; [lra | intros; lra]).
  }
  split; [|split].
  - intros Hne Hnb.
    destruct (zero_lookback_direction config prev cur) as [ty|]; [|reflexivity].
    assert (E : chosen ty) by (now apply Hdir).
    destruct ty; destruct E; tauto.
  - intros p Hp.
    destruct (zero_lookback_direction config prev cur) as [ty|]; [|discriminate].
    assert (E : chosen ty) by (now apply Hdir).
    unfold finish_pivot in Hp.
    destruct (if Qltb 0 (PivotConfig.minSwingPct config) then _ else _) as [m|];
      [|discriminate].
    simpl in Hp. destruct (_ && _); [discriminate|].
    inversion Hp; subst p; simpl. repeat split; try reflexivity; apply E.
  - intros ty Hty. apply Hdir in Hty. rewrite Hty.
    unfold finish_pivot. rewrite HL. simpl.
    destruct (Qltb 0 (PivotConfig.minSwingPct config)) eqn:Em.
    + apply Qltb_lt in Em.
      rewrite Hprev. simpl.
      destruct (Z.ltb_spec (index - 1) 0); [lia|].
      destruct (truediv _ _) as [r|e] eqn:Er; simpl.
      * destruct (Qltb _ (PivotConfig.minSwingPct config)).
        -- right. split; [exact Em | left; reflexivity].
        -- left. eexists. split; reflexivity.
      * right. split; [exact Em|]. right.
        unfold truediv in Er. destruct (Qeq_bool _ 0); [|discriminate].
        now inversion Er.
    + simpl. left. eexists. split; reflexivity.
Qed.

Lemma detect_pivot_zero_lookback_witness :
  let config := PivotConfig.mk 0 0 0 (Some "extreme") in
  let candles := [Candle.mk 0 7 10 5 7 1; Candle.mk 60000 7 12 3 8 1] in
  exists p, detect_pivot candles 1 config = Ok (Some p)
            /\ Pivot.type p = high_pivot.
Proof.
  intros config candles.
  destruct detect_pivot_zero_lookback as [_ Hlater].
  destruct (Hlater candles 1 config
              (Candle.mk 0 7 10 5 7 1) (Candle.mk 60000 7 12 3 8 1)
              eq_refl eq_refl eq_refl eq_refl) as (_ & _ & H).
  destruct (H high_pivot) as [Hp | [Hm _]].
  - split; [reflexivity | intros _; discriminate].
  - exact Hp.
  - discriminate Hm.
Defined.

(** ** Invariants of the loop *)

Lemma foldM_invariant {A S : Type} (P : S -> Prop) (f : S -> A -> result S) :
  (forall s x s', P s -> f s x = Ok s' -> P s') ->
  forall l s s', P s -> foldM f l s = Ok s' -> P s'.
Proof.
  intros Hstep. induction l as [|x l IH]; simpl; intros s s' Hs H.
  - inversion H. now subst.
  - destruct (f s x) as [s1|] eqn:E; [|discriminate]. simpl in H.
    eapply IH; [|exact H]. eapply Hstep; eauto.
Qed.

Lemma foldM_app {A S : Type} (f : S -> A -> result S) (l1 l2 : list A) (s : S) :
  foldM f (l1 ++ l2) s = (s1 <- foldM f l1 s ;; foldM f l2 s1).
Proof.
  revert s. induction l1 as [|x l1 IH]; simpl; intros s; [reflexivity|].
  destruct (f s x); simpl; [apply IH | reflexivity].
Qed.

Lemma update_trade_trade_ok (config : TradeConfig.t) (trade : Trade.t)
    (c : Candle.t) (trade' : Trade.t) (b : bool) :
  update_trade trade c config = Ok (trade', b) ->
  trade_ok config trade -> trade_ok config trade'.
Proof.
  unfold update_trade.
  set (t1 := update_best_price trade (Candle.close c)).
  assert (H1 : trade_ok config trade -> trade_ok config t1).
  { unfold t1, update_best_price. destruct (is_long trade); destruct (Qltb _ _); auto;
      intros [U (pv & Hp & Hl)]; (split; [exact U | exists pv; split; [exact Hp | exact Hl]]). }
  destruct (exit_condition t1 (Candle.close c)) as [sc reason].
  destruct sc.
  - destruct (truediv _ _) as [r|]; [|discriminate]. simpl.
    intros H Hok. inversion H; subst. apply H1 in Hok.
    destruct Hok as [U (pv & Hp & Hl)].
    split; [exact U | exists pv; split; [exact Hp | exact Hl]].
  - intros H Hok. inversion H; subst. auto.
Qed.

Lemma new_trade_ok (config : TradeConfig.t) (side : Side) (pivot : Pivot.t)
    (size : Q) (entry_time : Z) (timeframe : string) (price : Q) :
  trade_ok config
    (Trade.set_entry_price price
       (create_trade side pivot size entry_time timeframe config)).
Proof.
  split.
  - unfold untrailed, create_trade. destruct side; simpl; repeat split.
  - exists pivot. unfold create_trade. destruct side; simpl; repeat split.
Qed.

Lemma store_set_Forall (P : Trade.t -> Prop) (store : list Trade.t) (r : nat)
    (tr : Trade.t) :
  Forall P store -> P tr -> Forall P (store_set store r tr).
Proof.
  intros H Htr. revert r. induction H as [|x l Hx Hl IH]; intros r; simpl.
  - constructor.
  - destruct r; constructor; auto.
Qed.

Lemma deref_Forall (P : Trade.t -> Prop) (store : list Trade.t) (r : nat)
    (tr : Trade.t) :
  Forall P store -> deref store r = Ok tr -> P tr.
Proof.
  unfold deref. intros H E.
  destruct (nth_error store r) as [x|] eqn:N; [|discriminate].
  inversion E; subst. rewrite Forall_forall in H. apply H.
  eapply nth_error_In; eauto.
Qed.

Lemma monitor_trades_store (config : TradeConfig.t) (c : Candle.t)
    (refs : list nat) (capital : Q) (store : list Trade.t)
    (kept : list nat) (capital' : Q) (store' : list Trade.t) :
  monitor_trades c config refs capital store = Ok (kept, capital', store') ->
  Forall (trade_ok config) store -> Forall (trade_ok config) store'.
Proof.
  revert kept capital' store'.
  induction refs as [|r refs IH]; simpl; intros kept capital' store' H Hs.
  - inversion H; subst. exact Hs.
  - destruct (monitor_trades c config refs capital store) as [[[k1 c1] s1]|] eqn:E;
      [|discriminate].
    simpl in H. specialize (IH _ _ _ eq_refl Hs).
    destruct (deref s1 r) as [tr|] eqn:D; [|discriminate]. simpl in H.
    destruct (Trade.entry_time tr <=? Candle.time c).
    + destruct (update_trade tr c config) as [[tr' b]|] eqn:U; [|discriminate].
      simpl in H.
      assert (Forall (trade_ok config) (store_set s1 r tr')).
      { apply store_set_Forall; [exact IH|].
        eapply update_trade_trade_ok; [exact U|].
        exact (deref_Forall _ _ _ _ IH D). }
      destruct b; inversion H; subst; assumption.
    + inversion H; subst. exact IH.
Qed.

Lemma evaluate_window_outcome (env : Env.t) (minute_candle : Candle.t)
    (win : Window.t) (st : Sim.t) (stays : bool) (st' : Sim.t) :
  evaluate_window env minute_candle win st = Ok (stays, st') ->
  window_outcome env minute_candle win st stays st'.
Proof.
  unfold evaluate_window. fold (window_end env win).
  destruct (Z.ltb_spec (window_end env win) (Candle.time minute_candle)) as [He|He].
  { intros H. inversion H; subst. now apply outcome_expired. }
  destruct (meets_execution_requirements _ _) eqn:Hm.
  2:{ intros H. inversion H; subst. now apply outcome_unconfirmed. }
  assert (Hc : confirmed_at env minute_candle win) by (split; assumption).
  destruct (max_of_Z _) as [last|] eqn:Hl; [|discriminate]. simpl.
  destruct (entry_price_override _ _) as [price|] eqn:Hp.
  2:{ intros H. inversion H; subst. apply outcome_no_price; [exact Hc|].
      intros price (l & Hl' & Hp' & _). rewrite Hl in Hl'. inversion Hl'; subst.
      rewrite Hp in Hp'. discriminate. }
  destruct (Qeq_bool price 0) eqn:Hz.
  { intros H. inversion H; subst. apply outcome_no_price; [exact Hc|].
    intros price' (l & Hl' & Hp' & Hn). rewrite Hl in Hl'. inversion Hl'; subst.
    rewrite Hp in Hp'. inversion Hp'; subst.
    apply Hn. now apply Qeq_bool_iff. }
  assert (Hr : entry_price_resolved env minute_candle win price).
  { exists last. split; [exact Hl|]. split; [exact Hp|].
    intros Hq. apply Qeq_bool_iff in Hq. congruence. }
  destruct (apply_direction_filter _ _) as [side|] eqn:Hd.
  2:{ intros H. inversion H; subst. eapply outcome_not_opened; eauto. }
  fold (max_trades (Env.trade_config env)).
  destruct (Z.ltb_spec (Z.of_nat (List.length (Sim.open_trades st)))
              (max_trades (Env.trade_config env))) as [Hcap|Hcap].
  2:{ intros H. inversion H; subst. eapply outcome_not_opened; eauto. }
  intros H. inversion H; subst.
  eapply (outcome_opened _ _ _ _ price side); eauto.
  - unfold create_trade. destruct side; reflexivity.
  - unfold create_trade. destruct side; reflexivity.
  - apply new_trade_ok.
Qed.

Lemma window_outcome_invariant (env : Env.t) (minute_candle : Candle.t)
    (win : Window.t) (st : Sim.t) (stays : bool) (st' : Sim.t) :
  window_outcome env minute_candle win st stays st' ->
  run_invariant env st -> run_invariant env st'.
Proof.
  intros H [Hc Ht]. destruct H; try (split; assumption).
  split.
  - unfold counters_agree in *. simpl. now rewrite Hc.
  - simpl. apply Forall_app. split; [exact Ht|]. constructor; [assumption|constructor].
Qed.

Lemma evaluate_windows_invariant (env : Env.t) (minute_candle : Candle.t)
    (wins : list Window.t) (st : Sim.t) (kept : list Window.t) (st' : Sim.t) :
  evaluate_windows env minute_candle wins st = Ok (kept, st') ->
  run_invariant env st -> run_invariant env st'.
Proof.
  revert kept st'. induction wins as [|w wins IH]; simpl; intros kept st' H Hi.
  - inversion H; subst. exact Hi.
  - destruct (evaluate_windows env minute_candle wins st) as [[k1 s1]|] eqn:E;
      [|discriminate].
    simpl in H.
    destruct (evaluate_window env minute_candle w s1) as [[b s2]|] eqn:W;
      [|discriminate].
    simpl in H. inversion H; subst.
    eapply window_outcome_invariant.
    + eapply evaluate_window_outcome; exact W.
    + eapply IH; eauto.
Qed.

(** A window that is left pending by a tick was pending before it and
    is not past its deadline at that tick. *)
Lemma evaluate_windows_kept (env : Env.t) (minute_candle : Candle.t)
    (wins : list Window.t) (st : Sim.t) (kept : list Window.t) (st' : Sim.t) :
  evaluate_windows env minute_candle wins st = Ok (kept, st') ->
  forall w, In w kept ->
    In w wins /\ Candle.time minute_candle <= window_end env w.
Proof.
  revert kept st'. induction wins as [|w0 wins IH]; simpl; intros kept st' H w Hw.
  - inversion H; subst. destruct Hw.
  - destruct (evaluate_windows env minute_candle wins st) as [[k1 s1]|] eqn:E;
      [|discriminate].
    simpl in H.
    destruct (evaluate_window env minute_candle w0 s1) as [[b s2]|] eqn:W;
      [|discriminate].
    simpl in H. inversion H; subst. clear H.
    apply evaluate_window_outcome in W.
    destruct b.
    + destruct Hw as [<-|Hw].
      * split; [now left|].
        inversion W; subst; [assumption | match goal with H : confirmed_at _ _ _ |- _ => apply H end].
      * destruct (IH _ _ eq_refl w Hw). split; [now right | assumption].
    + destruct (IH _ _ eq_refl w Hw). split; [now right | assumption].
Qed.

Lemma process_minute_invariant (env : Env.t) (st : Sim.t) (c : Candle.t) (st' : Sim.t) :
  run_invariant env st -> process_minute env st c = Ok st' -> run_invariant env st'.
Proof.
  intros [Hc Ht]. unfold process_minute.
  destruct (monitor_trades _ _ _ _ _) as [[[o1 c1] s1]|] eqn:M; [|discriminate].
  simpl. apply monitor_trades_store in M; [|exact Ht].
  set (st1 := Sim.mk c1 o1 s1 _ _ _ _ _).
  assert (H1 : run_invariant env st1) by (split; [exact Hc | exact M]).
  match goal with |- (if ?b then _ else _) = _ -> _ => destruct b end.
  - destruct (evaluate_windows _ _ _ _) as [[k s2]|] eqn:E; [|discriminate].
    simpl. intros H. inversion H; subst.
    apply evaluate_windows_invariant in E; [|exact H1].
    destruct E as [Ec Et]. split; [exact Ec | exact Et].
  - intros H. inversion H; subst. exact H1.
Qed.

Lemma process_primary_candle_invariant (env : Env.t) (st : Sim.t) (c : Candle.t)
    (st' : Sim.t) :
  run_invariant env st -> process_primary_candle env st c = Ok st' ->
  run_invariant env st'.
Proof.
  intros [Hc Ht]. unfold process_primary_candle.
  destruct (parse_timeframe_to_minutes _) as [m|]; [|discriminate]. simpl.
  destruct (deref_all _ _) as [trs|]; [|discriminate]. simpl.
  destruct (apply_funding_rates _ _ _ _ _) as [[cap app]|]; [|discriminate]. simpl.
  destruct (foldM _ _ _) as [s1|] eqn:F; [|discriminate]. simpl.
  apply (foldM_invariant (run_invariant env)) in F;
    [| intros; eapply process_minute_invariant; eauto | split; [exact Hc | exact Ht]].
  destruct F as [Fc Ft].
  destruct (find _ _); intros H; inversion H; subst; split; assumption.
Qed.

Lemma close_remaining_invariant (env : Env.t) (primary_candles : list Candle.t)
    (st st' : Sim.t) :
  run_invariant env st -> close_remaining env primary_candles st = Ok st' ->
  run_invariant env st'.
Proof.
  intros Hi. unfold close_remaining.
  destruct (Sim.open_trades st) as [|r refs] eqn:Eo.
  { intros H. inversion H; subst. exact Hi. }
  destruct (getitem primary_candles (-1)) as [last_candle|]; [|discriminate].
  unfold bind at 1. rewrite <- Eo. intros F.
  apply (foldM_invariant (run_invariant env)) in F; [exact F| |exact Hi].
  clear. intros s x s' [Hc Ht]. unfold close_one.
  destruct (deref (Sim.all_trades s) x) as [tr|] eqn:D; [|discriminate]. simpl.
  destruct (update_trade tr last_candle (Env.trade_config env)) as [[tr' b]|] eqn:U;
    [|discriminate].
  simpl. intros H. inversion H; subst. split; [exact Hc|]. simpl.
  apply store_set_Forall; [exact Ht|].
  eapply update_trade_trade_ok; [exact U|]. exact (deref_Forall _ _ _ _ Ht D).
Qed.

Lemma loop_invariant (env : Env.t) (candles : list Candle.t) (st st' : Sim.t) :
  run_invariant env st ->
  foldM (process_primary_candle env) candles st = Ok st' ->
  run_invariant env st'.
Proof.
  intros Hi F. eapply (foldM_invariant (run_invariant env)); eauto.
  intros. eapply process_primary_candle_invariant; eauto.
Qed.

Lemma simulate_invariant (env : Env.t) (primary_candles : list Candle.t)
    (st st' : Sim.t) :
  run_invariant env st -> simulate env primary_candles st = Ok st' ->
  run_invariant env st'.
Proof.
  intros Hi. unfold simulate.
  destruct (foldM _ _ _) as [s1|] eqn:F; [|discriminate]. simpl.
  intros H. eapply close_remaining_invariant; [|exact H].
  eapply loop_invariant; eauto.
Qed.

Lemma init_invariant (env : Env.t) (capital : Q) : run_invariant env (Sim.init capital).
Proof. split; [reflexivity | constructor]. Qed.

Lemma run_invariant_holds (pivot_detection_mode : string)
    (trade_config : TradeConfig.t) (multi_pivot_config : MultiPivotConfig.t)
    (one_minute_candles : list Candle.t) (st : Sim.t) :
  run_immediate_aggregation_backtest pivot_detection_mode trade_config
    multi_pivot_config one_minute_candles = Ok (Some st) ->
  counters_agree st /\ Forall (trade_ok trade_config) (Sim.all_trades st).
Proof.
  unfold run_immediate_aggregation_backtest.
  destruct one_minute_candles as [|c0 cs]; [discriminate|].
  destruct (build_timeframe_data _ _) as [td|]; [|discriminate]. simpl.
  destruct (build_timeframe_pivots _ _ _) as [tp|]; [|discriminate]. simpl.
  destruct (find_primary _) as [[ptf|]|]; try discriminate. simpl.
  destruct (dict_get td _) as [pcs|]; [|discriminate]. simpl.
  destruct (dict_get tp _) as [pps|]; [|discriminate]. simpl.
  destruct (get_default (dict_get td "1m") []) as [|m ms]; [discriminate|].
  destruct (simulate _ _ _) as [s1|] eqn:S; [|discriminate]. simpl.
  intros H. inversion H; subst.
  apply simulate_invariant in S; [exact S | apply init_invariant].
Qed.

(** ** The two signal counters *)

Lemma evaluate_window_cannot_open (env : Env.t) (minute_candle : Candle.t)
    (win : Window.t) (st : Sim.t) (price : Q) :
  confirmed_at env minute_candle win ->
  entry_price_resolved env minute_candle win price ->
  apply_direction_filter (Window.primary_pivot win) (Env.trade_config env) = None
  \/ max_trades (Env.trade_config env) <= Z.of_nat (List.length (Sim.open_trades st)) ->
  evaluate_window env minute_candle win st = Ok (false, st).
Proof.
  intros [Ht Hm] (l & Hl & Hp & Hn) Hcant.
  unfold evaluate_window. fold (window_end env win).
  unfold window_end.
  destruct (Z.ltb_spec
              (Pivot.time (Window.primary_pivot win)
               + loop_effective_window_ms (Env.multi_pivot_config env)
                   (Env.primary_tf_name env))
              (Candle.time minute_candle)); [lia|].
  rewrite Hm, Hl. simpl. rewrite Hp.
  destruct (Qeq_bool price 0) eqn:Hz.
  { exfalso. apply Hn. now apply Qeq_bool_iff. }
  destruct (apply_direction_filter _ _) as [side|]; [|reflexivity].
  destruct Hcant as [Hd|Hcap]; [discriminate|].
  fold (max_trades (Env.trade_config env)).
  destruct (Z.ltb_spec (Z.of_nat (List.length (Sim.open_trades st)))
              (max_trades (Env.trade_config env))); [lia | reflexivity].
Qed.

Lemma execution_rate_full (st : Sim.t) :
  counters_agree st -> 0 < Sim.confirmed_signals st ->
  (execution_rate st == 100)%Q.
Proof.
  unfold counters_agree, execution_rate. intros <- Hpos.
  destruct (Z.ltb_spec 0 (Sim.confirmed_signals st)); [|lia].
  field. intros Hz.
  assert (Hq : (0 < inject_Z (Sim.confirmed_signals st))%Q).
  { unfold Qlt. simpl. lia. }
  rewrite Hz in Hq. now apply (Qlt_irrefl 0).
Qed.

(** C9.  The confirmed-signal counter equals the executed-trade counter
    after any number of primary candles and at the end of a run.  One
    evaluation of a pending window either adds one to both, and then the
    window was confirmed, its entry price resolved, the direction filter
    passed and the open trades were below the cap, or leaves both as
    they are.  A confirmed window with a resolved price whose trade
    cannot open changes no counter and is removed.  The execution rate
    is 100 whenever a signal was confirmed. *)
Theorem confirmed_signals_equal_executed_trades :
  (forall env candles capital st,
      foldM (process_primary_candle env) candles (Sim.init capital) = Ok st ->
      counters_agree st)
  /\ (forall pivot_detection_mode trade_config multi_pivot_config one_minute_candles st,
         run_immediate_aggregation_backtest pivot_detection_mode trade_config
           multi_pivot_config one_minute_candles = Ok (Some st) ->
         counters_agree st)
  /\ (forall env minute_candle win st stays st',
         evaluate_window env minute_candle win st = Ok (stays, st') ->
         (Sim.confirmed_signals st' = Sim.confirmed_signals st + 1
          /\ Sim.executed_trades st' = Sim.executed_trades st + 1
          /\ stays = false
          /\ confirmed_at env minute_candle win
          /\ (exists price, entry_price_resolved env minute_candle win price)
          /\ (exists side,
                 apply_direction_filter (Window.primary_pivot win)
                   (Env.trade_config env) = Some side)
          /\ Z.of_nat (List.length (Sim.open_trades st))
             < max_trades (Env.trade_config env))
         \/ (Sim.confirmed_signals st' = Sim.confirmed_signals st
             /\ Sim.executed_trades st' = Sim.executed_trades st))
  /\ (forall env minute_candle win st price,
         confirmed_at env minute_candle win ->
         entry_price_resolved env minute_candle win price ->
         apply_direction_filter (Window.primary_pivot win) (Env.trade_config env) = None
         \/ max_trades (Env.trade_config env)
            <= Z.of_nat (List.length (Sim.open_trades st)) ->
         evaluate_window env minute_candle win st = Ok (false, st))
  /\ (forall st, counters_agree st -> 0 < Sim.confirmed_signals st ->
                 (execution_rate st == 100)%Q).
Proof.
  split; [|split; [|split; [|split]]].
  - intros env candles capital st F.
    apply (loop_invariant env candles (Sim.init capital) st); [|exact F].
    apply init_invariant.
  - intros m tc mc cs st H. now apply run_invariant_holds in H.
  - intros env mc win st stays st' H.
    apply evaluate_window_outcome in H.
    inversion H; subst; try (right; split; reflexivity).
    left. simpl. repeat split; try assumption; try (apply H0); eauto.
  - exact evaluate_window_cannot_open.
  - exact execution_rate_full.
Qed.

Lemma confirmed_signals_equal_executed_trades_witness :
  exists st,
    run_immediate_aggregation_backtest "close" sample_trade_config
      sample_multi_pivot_config sample_candles = Ok (Some st)
    /\ Sim.confirmed_signals st = 1
    /\ Sim.executed_trades st = 1
    /\ (execution_rate st == 100)%Q.
Proof.
  destruct confirmed_signals_equal_executed_trades as (_ & Hrun & _ & _ & Hrate).
  eexists. split; [vm_compute; reflexivity|].
  match goal with
  | |- Sim.confirmed_signals ?s = 1 /\ _ =>
      assert (Hagree : counters_agree s)
        by (apply (Hrun "close" sample_trade_config sample_multi_pivot_config
                     sample_candles); vm_compute; reflexivity)
  end.
  split; [reflexivity|]. split; [reflexivity|].
  apply Hrate; [exact Hagree | reflexivity].
Defined.

(** ** Trailing levels *)

Lemma exit_condition_triggered (trade : Trade.t) (price : Q) :
  fst (exit_condition trade price) = true
  <-> exit_triggered (Trade.type trade) (Trade.take_profit_price trade)
        (Trade.stop_loss_price trade) price.
Proof.
  unfold exit_condition, exit_triggered, is_long.
  destruct (Trade.type trade); simpl.
  - destruct (Qle_bool (Trade.take_profit_price trade) price) eqn:E1;
      [|destruct (Qle_bool price (Trade.stop_loss_price trade)) eqn:E2]; simpl.
    + apply Qle_bool_iff in E1. tauto.
    + apply Qle_bool_iff in E2. tauto.
    + split; [discriminate|].
      intros [H|H]; apply Qle_bool_iff in H; congruence.
  - destruct (Qle_bool price (Trade.take_profit_price trade)) eqn:E1;
      [|destruct (Qle_bool (Trade.stop_loss_price trade) price) eqn:E2]; simpl.
    + apply Qle_bool_iff in E1. tauto.
    + apply Qle_bool_iff in E2. tauto.
    + split; [discriminate|].
      intros [H|H]; apply Qle_bool_iff in H; congruence.
Qed.

Lemma update_trade_decision (trade : Trade.t) (c : Candle.t)
    (config : TradeConfig.t) (trade' : Trade.t) (b : bool) :
  update_trade trade c config = Ok (trade', b) ->
  (b = true <-> exit_triggered (Trade.type trade) (Trade.take_profit_price trade)
                  (Trade.stop_loss_price trade) (Candle.close c))
  /\ Trade.take_profit_price trade' = Trade.take_profit_price trade
  /\ Trade.stop_loss_price trade' = Trade.stop_loss_price trade.
Proof.
  unfold update_trade.
  pose proof (best_price_update_same_terms trade (Candle.close c)) as Hs.
  pose proof (exit_condition_triggered
                (update_best_price trade (Candle.close c)) (Candle.close c)) as Hx.
  set (t1 := update_best_price trade (Candle.close c)) in *.
  destruct Hs as (Hty & _ & _ & _ & _ & Htp & Hsl).
  rewrite Hty, Htp, Hsl in Hx.
  destruct (exit_condition t1 (Candle.close c)) as [sc reason]. simpl in Hx.
  destruct sc.
  - destruct (truediv _ _) as [r|]; [|discriminate]. simpl.
    intros H. inversion H; subst. simpl. repeat split; try tauto; assumption.
  - intros H. inversion H; subst. repeat split; try tauto; assumption.
Qed.

(** C10.  Every trade of a run, after any number of primary candles and
    at the end, has both trailing flags [False] and both trailing prices
    [None], and its take-profit and stop-loss prices are the original
    ones, set by [create_trade] from the pivot price.  [update_trade]
    keeps this, and its decision to close is the comparison of the tick
    close with those two original prices. *)
Theorem trailing_levels_never_set :
  (forall env candles capital st,
      foldM (process_primary_candle env) candles (Sim.init capital) = Ok st ->
      Forall (fun trade => untrailed trade
                           /\ levels_fixed_at_entry (Env.trade_config env) trade)
        (Sim.all_trades st))
  /\ (forall pivot_detection_mode trade_config multi_pivot_config one_minute_candles st,
         run_immediate_aggregation_backtest pivot_detection_mode trade_config
           multi_pivot_config one_minute_candles = Ok (Some st) ->
         Forall (fun trade => untrailed trade
                              /\ levels_fixed_at_entry trade_config trade)
           (Sim.all_trades st))
  /\ (forall trade current_candle config trade' should_close take_profit stop_loss,
         untrailed trade ->
         Trade.original_take_profit_price trade = Some take_profit ->
         Trade.original_stop_loss_price trade = Some stop_loss ->
         update_trade trade current_candle config = Ok (trade', should_close) ->
         untrailed trade'
         /\ Trade.original_take_profit_price trade' = Some take_profit
         /\ Trade.original_stop_loss_price trade' = Some stop_loss
         /\ (should_close = true
             <-> exit_triggered (Trade.type trade) take_profit stop_loss
                   (Candle.close current_candle))).
Proof.
  split; [|split].
  - intros env candles capital st F.
    apply (loop_invariant env candles (Sim.init capital) st) in F;
      [apply F | apply init_invariant].
  - intros m tc mc cs st H. now apply run_invariant_holds in H.
  - intros trade c config trade' b tp sl U Htp Hsl H.
    destruct (update_trade_decision _ _ _ _ _ H) as (Hb & Etp & Esl).
    destruct U as (U1 & U2 & U3 & U4 & U5 & U6).
    rewrite U5 in Htp. rewrite U6 in Hsl. inversion Htp; inversion Hsl; subst.
    assert (U' : untrailed trade').
    { revert H. unfold update_trade, update_best_price.
      destruct (is_long trade); destruct (Qltb _ _);
        (destruct (exit_condition _ _) as [[] ?];
         [destruct (truediv _ _); [|discriminate] |]);
        simpl; intros H; inversion H; subst; simpl;
        repeat split; assumption. }
    split; [exact U'|].
    destruct U' as (_ & _ & _ & _ & V5 & V6).
    rewrite V5, V6, Etp, Esl. repeat split; apply Hb.
Qed.

Lemma trailing_levels_never_set_witness :
  exists st,
    run_immediate_aggregation_backtest "close" sample_trade_config
      sample_multi_pivot_config sample_candles = Ok (Some st)
    /\ List.length (Sim.all_trades st) = 1%nat
    /\ Forall (fun trade => untrailed trade
                            /\ levels_fixed_at_entry sample_trade_config trade)
         (Sim.all_trades st).
Proof.
  destruct trailing_levels_never_set as (_ & Hrun & _).
  eexists. split; [vm_compute; reflexivity|].
  split; [reflexivity|].
  apply (Hrun "close" sample_trade_config sample_multi_pivot_config sample_candles).
  vm_compute. reflexivity.
Defined.

(** ** The closing block *)

(** C2.  In the sample run the trade opened at the third candle is
    still open when the loop ends; the last candle's close, 101, is
    neither at its take-profit (90.9) nor at its stop-loss (111.1), so
    the closing block leaves it as it is: the ledger ends with a trade
    whose status is [open], with no exit price, no exit time and a P&L
    of zero. *)
Theorem remaining_trade_left_open :
  exists st trade,
    run_immediate_aggregation_backtest "close" sample_trade_config
      sample_multi_pivot_config sample_candles = Ok (Some st)
    /\ Sim.all_trades st = [trade]
    /\ Sim.open_trades st = [0%nat]
    /\ Trade.status trade = open
    /\ Trade.exit_price trade = None
    /\ Trade.exit_time trade = None
    /\ Trade.pnl trade = 0%Q.
Proof.
  eexists. eexists. split; [vm_compute; reflexivity|].
  repeat split.
Qed.

(** ** Sorting *)

Section SortedFacts.
Context {A : Type} (key : A -> Z).

Lemma insert_by_perm (x : A) (l : list A) : Permutation (insert_by key x l) (x :: l).
Proof.
  induction l as [|y l IH]; simpl; [reflexivity|].
  destruct (key x <=? key y); [reflexivity|].
  rewrite IH. apply perm_swap.
Qed.

Lemma sorted_by_perm (l : list A) : Permutation (sorted_by key l) l.
Proof.
  induction l as [|x l IH]; simpl; [reflexivity|].
  rewrite insert_by_perm. now constructor.
Qed.

Lemma sorted_by_In (l : list A) (x : A) : In x (sorted_by key l) <-> In x l.
Proof.
  split; apply Permutation_in;
    [apply sorted_by_perm | apply Permutation_sym, sorted_by_perm].
Qed.

Lemma insert_by_sorted (x : A) (l : list A) :
  StronglySorted (fun a b => key a <= key b) l -> StronglySorted (fun a b => key a <= key b) (insert_by key x l).
Proof.
  induction 1 as [|y l Hl IH Hy]; simpl.
  - repeat constructor.
  - destruct (Z.leb_spec (key x) (key y)).
    + constructor; [now constructor|].
      constructor; [exact H|].
      rewrite Forall_forall in *. intros z Hz. simpl in *.
      specialize (Hy z Hz). lia.
    + constructor; [exact IH|].
      rewrite Forall_forall in *. intros z Hz.
      apply (Permutation_in _ (insert_by_perm x l)) in Hz.
      destruct Hz as [<-|Hz]; [simpl; lia | now apply Hy].
Qed.

Lemma sorted_by_sorted (l : list A) : StronglySorted (fun a b => key a <= key b) (sorted_by key l).
Proof.
  induction l as [|x l IH]; simpl; [constructor | now apply insert_by_sorted].
Qed.

(** A list already in order is left as it is. *)
Lemma sorted_by_fixed (l : list A) : StronglySorted (fun a b => key a <= key b) l -> sorted_by key l = l.
Proof.
  induction 1 as [|x l Hl IH Hx]; simpl; [reflexivity|].
  rewrite IH. destruct l as [|y l']; [reflexivity|]. simpl.
  inversion Hx; subst. simpl in *.
  destruct (Z.leb_spec (key x) (key y)); [reflexivity | lia].
Qed.
End SortedFacts.

Lemma strictly_sorted_le {A : Type} (key : A -> Z) (l : list A) :
  StronglySorted (fun a b => key a < key b) l ->
  StronglySorted (fun a b => key a <= key b) l.
Proof.
  induction 1 as [|x l Hl IH Hx]; constructor; [exact IH|].
  eapply Forall_impl; [|exact Hx]. simpl. intros. lia.
Qed.

Lemma sorted_nodup_strict (l : list Z) :
  NoDup l -> StronglySorted Z.le l -> StronglySorted Z.lt l.
Proof.
  induction 2 as [|x l Hl IH Hx]; constructor.
  - apply IH. now inversion H.
  - inversion H; subst. rewrite Forall_forall in *. intros y Hy.
    specialize (Hx y Hy). assert (x <> y) by (intros ->; contradiction). lia.
Qed.

(** Two strictly ascending lists with the same elements are equal. *)
Lemma strictly_sorted_unique (l1 l2 : list Z) :
  StronglySorted Z.lt l1 -> StronglySorted Z.lt l2 ->
  (forall x, In x l1 <-> In x l2) -> l1 = l2.
Proof.
  intros H1. revert l2. induction H1 as [|x l1 Hl1 IH Hx]; intros l2 H2 Heq.
  - destruct l2 as [|y l2]; [reflexivity|].
    exfalso. apply (Heq y). now left.
  - destruct H2 as [|y l2 Hl2 Hy].
    { exfalso. apply (Heq x). now left. }
    rewrite Forall_forall in Hx, Hy.
    assert (x = y).
    { destruct (proj1 (Heq x) (or_introl eq_refl)) as [->|Hin]; [reflexivity|].
      destruct (proj2 (Heq y) (or_introl eq_refl)) as [->|Hin']; [reflexivity|].
      specialize (Hx _ Hin'). specialize (Hy _ Hin). lia. }
    subst y. f_equal. apply IH; [exact Hl2|].
    intros z. split; intros Hz.
    + destruct (proj1 (Heq z) (or_intror Hz)) as [<-|Hin]; [|exact Hin].
      specialize (Hx _ Hz). lia.
    + destruct (proj2 (Heq z) (or_intror Hz)) as [<-|Hin]; [|exact Hin].
      specialize (Hy _ Hz). lia.
Qed.

Lemma sorted_keys_strict (keys : list Z) :
  NoDup keys -> StronglySorted Z.lt (sorted_by (fun k => k) keys).
Proof.
  intros Hn. apply sorted_nodup_strict.
  - eapply Permutation_NoDup; [apply Permutation_sym, sorted_by_perm | exact Hn].
  - apply (sorted_by_sorted (fun k : Z => k)).
Qed.

(** ** Grouping *)

Lemma group_get_append (k k' : Z) (c : Candle.t) (g : list (Z * list Candle.t)) :
  group_get k (group_append k' c g)
  = if k =? k' then group_get k g ++ [c] else group_get k g.
Proof.
  induction g as [|[k0 cs] g IH]; simpl.
  - destruct (k =? k'); reflexivity.
  - destruct (Z.eqb_spec k' k0) as [->|Hne]; simpl.
    + destruct (Z.eqb_spec k k0); reflexivity.
    + destruct (Z.eqb_spec k k0) as [->|Hne'].
      * destruct (Z.eqb_spec k0 k'); [congruence | reflexivity].
      * exact IH.
Qed.

Lemma group_keys_append (k : Z) (c : Candle.t) (g : list (Z * list Candle.t)) :
  (forall x, In x (map fst (group_append k c g)) <-> x = k \/ In x (map fst g))
  /\ (NoDup (map fst g) -> NoDup (map fst (group_append k c g))).
Proof.
  induction g as [|[k0 cs] g [IH1 IH2]]; simpl.
  - split; [intros x; intuition | intros _; repeat constructor; intros []].
  - destruct (Z.eqb_spec k k0) as [->|Hne]; simpl.
    + split; [intros x; intuition | auto].
    + split.
      * intros x. rewrite IH1. intuition.
      * intros Hn. inversion Hn; subst. constructor; [|auto].
        rewrite IH1. intros [?|?]; [congruence | contradiction].
Qed.

Lemma group_fold (interval_ms : Z) (s : list Candle.t) (g : list (Z * list Candle.t)) :
  let g' := fold_left
              (fun g c => group_append (window_start_of interval_ms c) c g) s g in
  (forall k, group_get k g' = group_get k g ++ bucket interval_ms k s)
  /\ (forall k, In k (map fst g')
                <-> In k (map fst g)
                    \/ exists c, In c s /\ window_start_of interval_ms c = k)
  /\ (NoDup (map fst g) -> NoDup (map fst g')).
Proof.
  revert g. induction s as [|c s IH]; intros g; simpl.
  - split; [intros k; now rewrite app_nil_r|].
    split; [|auto]. intros k. split; [auto | intros [H|(c & [] & _)]; exact H].
  - destruct (IH (group_append (window_start_of interval_ms c) c g)) as (I1 & I2 & I3).
    destruct (group_keys_append (window_start_of interval_ms c) c g) as [K1 K2].
    split; [|split].
    + intros k. rewrite I1, group_get_append. unfold bucket. simpl.
      destruct (Z.eqb_spec k (window_start_of interval_ms c)) as [->|Hne].
      * rewrite Z.eqb_refl, <- app_assoc. reflexivity.
      * destruct (Z.eqb_spec (window_start_of interval_ms c) k); [congruence|reflexivity].
    + intros k. rewrite I2, K1. split.
      * intros [[->|H]|(c' & Hc' & E)]; eauto.
      * intros [H|(c' & [<-|Hc'] & E)]; eauto.
    + intros Hn. apply I3, K2, Hn.
Qed.

Lemma group_candles_get (interval_ms k : Z) (s : list Candle.t) :
  group_get k (group_candles interval_ms s) = bucket interval_ms k s.
Proof. apply (group_fold interval_ms s []). Qed.

Lemma bucket_In (interval_ms k : Z) (s : list Candle.t) (c : Candle.t) :
  In c (bucket interval_ms k s) <-> In c s /\ window_start_of interval_ms c = k.
Proof. unfold bucket. rewrite filter_In, Z.eqb_eq. reflexivity. Qed.

Lemma bucket_nonempty (interval_ms k : Z) (s : list Candle.t) :
  bucket interval_ms k s <> [] <-> exists c, In c s /\ window_start_of interval_ms c = k.
Proof.
  split.
  - destruct (bucket interval_ms k s) as [|c b] eqn:E; [congruence|].
    intros _. exists c. apply bucket_In. rewrite E. now left.
  - intros (c & Hc) E. apply bucket_In in Hc. rewrite E in Hc. destruct Hc.
Qed.

Lemma window_starts_In (interval_ms k : Z) (s : list Candle.t) :
  In k (window_starts interval_ms s) <-> bucket interval_ms k s <> [].
Proof.
  unfold window_starts. rewrite sorted_by_In, bucket_nonempty.
  destruct (group_fold interval_ms s []) as (_ & I2 & _).
  unfold group_candles. rewrite I2. simpl. tauto.
Qed.

Lemma window_starts_strict (interval_ms : Z) (s : list Candle.t) :
  StronglySorted Z.lt (window_starts interval_ms s).
Proof.
  apply sorted_keys_strict.
  apply (group_fold interval_ms s []). constructor.
Qed.

(** ** The derived candles *)

Lemma aggregate_window_derive (interval_ms k : Z) (s : list Candle.t) :
  aggregate_window interval_ms k (bucket interval_ms k s) = Ok (derive interval_ms s k).
Proof.
  unfold aggregate_window, derive.
  destruct (sorted_by Candle.time (bucket interval_ms k s)); reflexivity.
Qed.

Lemma aggregate_windows_derive (interval_ms : Z) (s : list Candle.t) (ks : list Z) :
  aggregate_windows interval_ms (group_candles interval_ms s) ks
  = Ok (flat_map (derive interval_ms s) ks).
Proof.
  induction ks as [|k ks IH]; simpl; [reflexivity|].
  rewrite group_candles_get, aggregate_window_derive, IH. reflexivity.
Qed.

Lemma derive_time (interval_ms : Z) (s : list Candle.t) (k : Z) (d : Candle.t) :
  In d (derive interval_ms s k) -> Candle.time d = k + interval_ms.
Proof.
  unfold derive. destruct (sorted_by _ _); simpl; [intros [] | intros [<-|[]]].
  reflexivity.
Qed.

Lemma derive_nonempty (interval_ms : Z) (s : list Candle.t) (k : Z) :
  bucket interval_ms k s <> [] -> exists d, derive interval_ms s k = [d].
Proof.
  intros Hb. unfold derive.
  destruct (sorted_by Candle.time (bucket interval_ms k s)) as [|f r] eqn:E.
  - exfalso. apply Hb.
    pose proof (sorted_by_perm Candle.time (bucket interval_ms k s)) as P.
    rewrite E in P. now apply Permutation_nil in P.
  - eexists. reflexivity.
Qed.

Lemma flat_map_derive_sorted (interval_ms : Z) (s : list Candle.t) (ks : list Z) :
  StronglySorted Z.lt ks ->
  StronglySorted (fun a b => Candle.time a < Candle.time b)
    (flat_map (derive interval_ms s) ks).
Proof.
  induction 1 as [|k ks Hks IH Hk]; simpl; [constructor|].
  assert (Hrest : Forall (fun d => k + interval_ms < Candle.time d)
                    (flat_map (derive interval_ms s) ks)).
  { rewrite Forall_forall in *. intros d Hd. apply in_flat_map in Hd.
    destruct Hd as (k' & Hk' & Hd). apply derive_time in Hd.
    specialize (Hk _ Hk'). lia. }
  destruct (derive interval_ms s k) as [|d [|d' l]] eqn:E; simpl.
  - exact IH.
  - constructor; [exact IH|].
    assert (Candle.time d = k + interval_ms)
      by (apply (derive_time interval_ms s); rewrite E; now left).
    eapply Forall_impl; [|exact Hrest]. simpl. intros. lia.
  - exfalso. unfold derive in E. destruct (sorted_by _ _); discriminate.
Qed.

(** [aggregate_candles] in closed form: one derived candle per window
    start, in ascending order. *)
Lemma aggregate_candles_eq (s : list Candle.t) (tf : string) (minutes : Z) :
  parse_timeframe_to_minutes tf = Ok minutes -> 0 < minutes ->
  aggregate_candles s tf
  = Ok (flat_map (derive (minutes * 60 * 1000) s)
          (window_starts (minutes * 60 * 1000) s)).
Proof.
  intros Hp Hm. unfold aggregate_candles. rewrite Hp. simpl.
  destruct (Z.leb_spec minutes 0); [lia|].
  fold (window_starts (minutes * 60 * 1000) s).
  rewrite aggregate_windows_derive. simpl. f_equal.
  apply sorted_by_fixed, strictly_sorted_le, flat_map_derive_sorted,
    window_starts_strict.
Qed.

Lemma strictly_sorted_filter_time (l : list Candle.t) (d : Candle.t) :
  StronglySorted (fun a b => Candle.time a < Candle.time b) l ->
  In d l ->
  filter (fun x => Candle.time x =? Candle.time d) l = [d].
Proof.
  induction 1 as [|x l Hl IH Hx]; intros Hd; [destruct Hd|].
  simpl. destruct Hd as [->|Hd].
  - rewrite Z.eqb_refl. f_equal.
    rewrite Forall_forall in Hx.
    clear IH Hl. induction l as [|y l IHl]; simpl; [reflexivity|].
    pose proof (Hx y (or_introl eq_refl)).
    destruct (Z.eqb_spec (Candle.time y) (Candle.time d)); [lia|].
    apply IHl. intros z Hz. apply Hx. now right.
  - rewrite Forall_forall in Hx. specialize (Hx _ Hd).
    destruct (Z.eqb_spec (Candle.time x) (Candle.time d)); [lia|].
    now apply IH.
Qed.

(** *** Extremes and sums *)

Lemma fold_max_spec (l : list Q) (x : Q) :
  let m := fold_left (fun m y => if Qltb m y then y else m) l x in
  In m (x :: l) /\ forall y, In y (x :: l) -> (y <= m)%Q.
Proof.
  revert x. induction l as [|z l IH]; intros x; simpl.
  - split; [now left|]. intros y [<-|[]]. apply Qle_refl.
  - destruct (IH (if Qltb x z then z else x)) as [I1 I2]. simpl in I1, I2.
    split.
    + destruct I1 as [E|I1]; [|right; now right].
      rewrite <- E. destruct (Qltb x z); [right; now left | now left].
    + intros y Hy.
      assert (Hstep : (x <= (if Qltb x z then z else x))%Q
                      /\ (z <= (if Qltb x z then z else x))%Q).
      { destruct (Qltb x z) eqn:E.
        - apply Qltb_lt in E. split; [now apply Qlt_le_weak | apply Qle_refl].
        - apply Qltb_ge in E. split; [apply Qle_refl | exact E]. }
      destruct Hy as [<-|[<-|Hy]].
      * eapply Qle_trans; [apply Hstep|]. apply I2. now left.
      * eapply Qle_trans; [apply Hstep|]. apply I2. now left.
      * apply I2. now right.
Qed.

Lemma fold_min_spec (l : list Q) (x : Q) :
  let m := fold_left (fun m y => if Qltb y m then y else m) l x in
  In m (x :: l) /\ forall y, In y (x :: l) -> (m <= y)%Q.
Proof.
  revert x. induction l as [|z l IH]; intros x; simpl.
  - split; [now left|]. intros y [<-|[]]. apply Qle_refl.
  - destruct (IH (if Qltb z x then z else x)) as [I1 I2]. simpl in I1, I2.
    split.
    + destruct I1 as [E|I1]; [|right; now right].
      rewrite <- E. destruct (Qltb z x); [right; now left | now left].
    + intros y Hy.
      assert (Hstep : ((if Qltb z x then z else x) <= x)%Q
                      /\ ((if Qltb z x then z else x) <= z)%Q).
      { destruct (Qltb z x) eqn:E.
        - apply Qltb_lt in E. split; [now apply Qlt_le_weak | apply Qle_refl].
        - apply Qltb_ge in E. split; [apply Qle_refl | exact E]. }
      destruct Hy as [<-|[<-|Hy]].
      * eapply Qle_trans; [|apply Hstep]. apply I2. now left.
      * eapply Qle_trans; [|apply Hstep]. apply I2. now left.
      * apply I2. now right.
Qed.

Lemma fold_left_Qplus (l : list Q) (a : Q) :
  (fold_left Qplus l a == a + fold_right Qplus 0 l)%Q.
Proof.
  revert a. induction l as [|x l IH]; intros a; simpl.
  - ring.
  - rewrite IH. ring.
Qed.

Lemma fold_right_Qplus_perm (l1 l2 : list Q) :
  Permutation l1 l2 -> (fold_right Qplus 0 l1 == fold_right Qplus 0 l2)%Q.
Proof.
  induction 1; simpl.
  - reflexivity.
  - now rewrite IHPermutation.
  - ring.
  - now rewrite IHPermutation1.
Qed.

Lemma sorted_last_max {A : Type} (key : A -> Z) (l : list A) (d : A) :
  StronglySorted (fun a b => key a <= key b) l -> l <> [] ->
  In (last l d) l /\ forall x, In x l -> key x <= key (last l d).
Proof.
  induction 1 as [|x l Hl IH Hx]; intros Hne; [congruence|].
  destruct l as [|y l'].
  - simpl. split; [now left|]. intros z [<-|[]]. lia.
  - destruct (IH ltac:(discriminate)) as [I1 I2].
    change (last (x :: y :: l') d) with (last (y :: l') d).
    split; [now right|].
    intros z [<-|Hz]; [|now apply I2].
    rewrite Forall_forall in Hx. apply Hx. exact I1.
Qed.

Lemma derive_spec (interval_ms : Z) (s : list Candle.t) (k : Z) :
  bucket interval_ms k s <> [] ->
  exists d, derive interval_ms s k = [d] /\ derived_candle interval_ms s k d.
Proof.
  intros Hb. unfold derive, derived_candle.
  pose proof (sorted_by_perm Candle.time (bucket interval_ms k s)) as P.
  pose proof (sorted_by_sorted Candle.time (bucket interval_ms k s)) as S.
  destruct (sorted_by Candle.time (bucket interval_ms k s)) as [|f r] eqn:E.
  { exfalso. apply Hb. now apply Permutation_nil in P. }
  assert (Hin : forall c, In c (bucket interval_ms k s) <-> In c (f :: r)).
  { intros c. split; apply Permutation_in; [now apply Permutation_sym | exact P]. }
  eexists. split; [reflexivity|]. simpl.
  split; [reflexivity|].
  split.
  { exists f. split; [apply Hin; now left|]. split; [|reflexivity].
    intros c' Hc'. apply Hin in Hc'. destruct Hc' as [<-|Hc']; [lia|].
    inversion S; subst. rewrite Forall_forall in H2. now apply H2. }
  destruct (fold_max_spec (map Candle.high r) (Candle.high f)) as [M1 M2].
  destruct (fold_min_spec (map Candle.low r) (Candle.low f)) as [N1 N2].
  split.
  { change (Candle.high f :: map Candle.high r) with (map Candle.high (f :: r)) in M1.
    apply in_map_iff in M1. destruct M1 as (c & Ec & Hc).
    exists c. split; [now apply Hin | now symmetry]. }
  split.
  { intros c Hc. apply M2.
    change (Candle.high f :: map Candle.high r) with (map Candle.high (f :: r)).
    apply in_map, Hin, Hc. }
  split.
  { change (Candle.low f :: map Candle.low r) with (map Candle.low (f :: r)) in N1.
    apply in_map_iff in N1. destruct N1 as (c & Ec & Hc).
    exists c. split; [now apply Hin | now symmetry]. }
  split.
  { intros c Hc. apply N2.
    change (Candle.low f :: map Candle.low r) with (map Candle.low (f :: r)).
    apply in_map, Hin, Hc. }
  split.
  { destruct (sorted_last_max Candle.time (f :: r) f S ltac:(discriminate)) as [L1 L2].
    exists (last (f :: r) f). split; [now apply Hin|]. split; [|reflexivity].
    intros c' Hc'. apply L2, Hin, Hc'. }
  unfold sum_of.
  change (fold_left Qplus (Candle.volume f :: map Candle.volume r) 0%Q)
    with (fold_left Qplus (map Candle.volume (f :: r)) 0%Q).
  rewrite fold_left_Qplus, Qplus_0_l.
  apply fold_right_Qplus_perm, Permutation_map, P.
Qed.

(** C6.  For a valid timeframe of [interval_ms] milliseconds, every
    nonempty bucket, keyed by [floor(time / interval_ms) * interval_ms],
    gives exactly one derived candle: stamped with the end of the
    bucket's window, opening at an earliest candle's open, closing at a
    latest candle's close, with the greatest high, the least low and the
    sum of the volumes.  Every output candle comes from a nonempty
    bucket, and the output is in strictly ascending order of time. *)
Theorem aggregate_candles_buckets (s : list Candle.t) (tf : string) (minutes : Z) :
  parse_timeframe_to_minutes tf = Ok minutes -> 0 < minutes ->
  let interval_ms := minutes * 60 * 1000 in
  exists out,
    aggregate_candles s tf = Ok out
    /\ (forall k, bucket interval_ms k s <> [] ->
          exists d, derived_candle interval_ms s k d
                    /\ filter (fun x => Candle.time x =? k + interval_ms) out = [d])
    /\ (forall d, In d out ->
          exists k, bucket interval_ms k s <> []
                    /\ Candle.time d = k + interval_ms)
    /\ StronglySorted (fun a b => Candle.time a < Candle.time b) out.
Proof.
  intros Hp Hm interval_ms.
  exists (flat_map (derive interval_ms s) (window_starts interval_ms s)).
  pose proof (flat_map_derive_sorted interval_ms s _
                (window_starts_strict interval_ms s)) as Hs.
  split; [now apply aggregate_candles_eq|].
  split; [|split; [|exact Hs]].
  - intros k Hb.
    destruct (derive_spec interval_ms s k Hb) as (d & Ed & Hd).
    exists d. split; [exact Hd|].
    assert (Ht : Candle.time d = k + interval_ms) by apply Hd.
    rewrite <- Ht. apply strictly_sorted_filter_time; [exact Hs|].
    apply in_flat_map. exists k. split; [now apply window_starts_In|].
    rewrite Ed. now left.
  - intros d Hd. apply in_flat_map in Hd. destruct Hd as (k & Hk & Hd).
    exists k. split; [now apply window_starts_In | now apply derive_time in Hd].
Qed.

Lemma aggregate_candles_buckets_witness :
  exists first second,
    aggregate_candles four_candles "2m" = Ok [first; second]
    /\ Candle.time first = 120000
    /\ Candle.open first = 1%Q
    /\ Candle.high first = 3%Q
    /\ Candle.low first = 0.5%Q
    /\ Candle.close first = 2%Q
    /\ (Candle.volume first == 30)%Q
    /\ derived_candle 120000 four_candles 0 first.
Proof.
  destruct (aggregate_candles_buckets four_candles "2m" 2 eq_refl eq_refl)
    as (out & Ho & Hb & _ & _).
  destruct (Hb 0 ltac:(discriminate)) as (d & Hd & Hf).
  vm_compute in Ho. inversion Ho; subst out; clear Ho.
  vm_compute in Hf. inversion Hf; subst d; clear Hf.
  eexists. eexists. split; [vm_compute; reflexivity|].
  do 6 (split; [reflexivity|]). exact Hd.
Defined.

(** ** Aggregating an aggregated series *)

Lemma Qplus_0_l_eq (v : Q) : (0 + v)%Q = v.
Proof.
  destruct v as [n d]. unfold Qplus. simpl. now rewrite Z.mul_1_r.
Qed.

Lemma flat_map_singletons {A B C : Type} (key : A -> C) (f : C -> list B)
    (g : A -> B) (l : list A) :
  (forall x, In x l -> f (key x) = [g x]) ->
  flat_map f (map key l) = map g l.
Proof.
  induction l as [|x l IH]; intros H; simpl; [reflexivity|].
  rewrite (H x (or_introl eq_refl)), IH; [reflexivity|].
  intros y Hy. apply H. now right.
Qed.

Lemma filter_ext_In' {A : Type} (f g : A -> bool) (l : list A) :
  (forall x, In x l -> f x = g x) -> filter f l = filter g l.
Proof.
  induction l as [|x l IH]; intros H; simpl; [reflexivity|].
  rewrite (H x (or_introl eq_refl)), IH; [reflexivity|].
  intros y Hy. apply H. now right.
Qed.

Lemma strictly_sorted_map_time (l : list Candle.t) :
  StronglySorted (fun a b => Candle.time a < Candle.time b) l ->
  StronglySorted Z.lt (map Candle.time l).
Proof.
  induction 1 as [|x l Hl IH Hx]; simpl; constructor; [exact IH|].
  rewrite Forall_forall in *. intros t Ht. apply in_map_iff in Ht.
  destruct Ht as (y & <- & Hy). now apply Hx.
Qed.

(** A series in strictly ascending order whose timestamps are window
    starts is aggregated candle by candle: each candle is alone in its
    window and comes out stamped one interval later. *)
Lemma aggregate_candles_aligned (l : list Candle.t) (tf : string) (minutes : Z) :
  parse_timeframe_to_minutes tf = Ok minutes -> 0 < minutes ->
  StronglySorted (fun a b => Candle.time a < Candle.time b) l ->
  (forall d, In d l -> window_start_of (minutes * 60 * 1000) d = Candle.time d) ->
  aggregate_candles l tf = Ok (map (shift_time (minutes * 60 * 1000)) l).
Proof.
  intros Hp Hm Hs Ha. rewrite (aggregate_candles_eq l tf minutes Hp Hm).
  set (i := minutes * 60 * 1000) in *.
  f_equal.
  assert (Hk : window_starts i l = map Candle.time l).
  { apply strictly_sorted_unique.
    - apply window_starts_strict.
    - now apply strictly_sorted_map_time.
    - intros k. rewrite window_starts_In, bucket_nonempty, in_map_iff.
      split; intros (c & H1 & H2).
      + exists c. split; [|exact H1]. now rewrite <- (Ha c H1).
      + exists c. split; [exact H2|]. now rewrite (Ha c H2). }
  rewrite Hk. apply flat_map_singletons.
  intros d Hd. unfold derive, bucket.
  rewrite (filter_ext_In' _ (fun x => Candle.time x =? Candle.time d));
    [|intros x Hx; now rewrite (Ha x Hx)].
  rewrite (strictly_sorted_filter_time l d Hs Hd). simpl.
  unfold merge_sorted, shift_time, sum_of. simpl.
  now rewrite Qplus_0_l_eq.
Qed.

Lemma window_start_of_multiple (interval_ms k : Z) (d : Candle.t) :
  0 < interval_ms ->
  Candle.time d = (k / interval_ms) * interval_ms + interval_ms ->
  window_start_of interval_ms d = Candle.time d.
Proof.
  intros Hi Ht. unfold window_start_of. rewrite Ht.
  replace (k / interval_ms * interval_ms + interval_ms)
    with ((k / interval_ms + 1) * interval_ms) by ring.
  rewrite Z.div_mul by lia. reflexivity.
Qed.

(** C3, as the code has it.  Aggregating an aggregated series again at
    the same timeframe keeps the number of candles and every open, high,
    low, close and volume, and moves every timestamp one interval
    later. *)
Theorem aggregate_candles_again_shifts (s : list Candle.t) (tf : string) (minutes : Z) :
  parse_timeframe_to_minutes tf = Ok minutes -> 0 < minutes ->
  exists out,
    aggregate_candles s tf = Ok out
    /\ aggregate_candles out tf = Ok (map (shift_time (minutes * 60 * 1000)) out).
Proof.
  intros Hp Hm.
  set (i := minutes * 60 * 1000).
  exists (flat_map (derive i s) (window_starts i s)).
  split; [now apply aggregate_candles_eq|].
  apply aggregate_candles_aligned; try assumption.
  - apply flat_map_derive_sorted, window_starts_strict.
  - intros d Hd. apply in_flat_map in Hd. destruct Hd as (k & Hk & Hd).
    apply derive_time in Hd.
    apply window_starts_In, bucket_nonempty in Hk. destruct Hk as (c & _ & <-).
    apply (window_start_of_multiple _ (Candle.time c)); [unfold i; lia|].
    exact Hd.
Qed.

Lemma aggregate_candles_again_shifts_witness :
  exists out,
    aggregate_candles four_candles "2m" = Ok out
    /\ aggregate_candles out "2m" = Ok (map (shift_time 120000) out)
    /\ map Candle.time out = [120000; 240000].
Proof.
  destruct (aggregate_candles_again_shifts four_candles "2m" 2 eq_refl eq_refl)
    as (out & Ho & Hagain).
  exists out. split; [exact Ho|]. split; [exact Hagain|].
  vm_compute in Ho. inversion Ho. reflexivity.
Defined.

(** C3, as stated, fails: the four 1-minute candles aggregated at 2m
    give candles stamped 120000 and 240000, and aggregating these again
    at 2m gives candles stamped 240000 and 360000. *)
Lemma aggregate_candles_not_idempotent :
  (out <- aggregate_candles four_candles "2m" ;; aggregate_candles out "2m")
  <> aggregate_candles four_candles "2m".
Proof. vm_compute. discriminate. Qed.

(** ** Expiry of pending windows *)

(** Past the deadline the loop computes, a window is dropped and
    nothing else happens. *)
Lemma evaluate_window_expired (env : Env.t) (minute_candle : Candle.t)
    (win : Window.t) (st : Sim.t) :
  window_end env win < Candle.time minute_candle ->
  evaluate_window env minute_candle win st = Ok (false, st).
Proof.
  intros H. unfold evaluate_window. fold (window_end env win).
  destruct (Z.ltb_spec (window_end env win) (Candle.time minute_candle));
    [reflexivity | lia].
Qed.

(** The window length of the loop is the specification's for a nonzero
    configured value and when nothing is configured; a configured zero
    is read as nothing configured. *)
Lemma loop_effective_window_ms_spec (config : MultiPivotConfig.t) (interval : string) :
  let configured :=
    dict_get (MultiPivotConfig.cascadeSettings_confirmationWindow config) interval in
  loop_effective_window_ms config interval
  = match configured with
    | Some 0 => 5 * 60 * 1000
    | _ => effective_window_spec configured
    end.
Proof.
  unfold loop_effective_window_ms, effective_window_spec, truthy, Zmin_py.
  destruct (dict_get _ _) as [m|]; [|reflexivity].
  destruct (Z.eqb_spec m 0) as [->|Hm]; [reflexivity|].
  cbn [negb]. destruct (Z.eqb_spec (m * 60 * 1000) 0); [lia|]. cbn [negb].
  destruct m as [|q|q]; [congruence| |];
    match goal with |- context [?a <? ?b] => destruct (Z.ltb_spec a b) end; lia.
Qed.

(** C5.  With a confirmation window of zero minutes configured for the
    primary timeframe the deadline is the pivot's own time, 120000 in
    the sample run, yet the loop works with five minutes.  When two
    confirmations are required the window is still pending when the run
    ends, after the ticks at 180000, 240000 and 300000; when one is
    required it is confirmed and executed at the tick at 180000. *)
Theorem zero_minute_window_outlives_deadline :
  effective_window_spec (Some 0) = 0
  /\ loop_effective_window_ms zero_window_config "1m" = 300000
  /\ Zmin_py (5 * 60 * 1000) (0 * 60 * 1000) = 0
  /\ (exists st win,
         run_immediate_aggregation_backtest "close" sample_trade_config
           zero_window_unconfirmed_config sample_candles = Ok (Some st)
         /\ Sim.pending_windows st = [win]
         /\ deadline_spec (Some 0) win = 120000)
  /\ (exists st trade pivot,
         run_immediate_aggregation_backtest "close" sample_trade_config
           zero_window_config sample_candles = Ok (Some st)
         /\ Sim.executed_trades st = 1
         /\ Sim.all_trades st = [trade]
         /\ Trade.pivot trade = Some pivot
         /\ Pivot.time pivot = 120000).
Proof.
  split; [reflexivity|]. split; [reflexivity|]. split; [reflexivity|].
  split.
  - eexists. eexists. split; [vm_compute; reflexivity|]. split; reflexivity.
  - eexists. eexists. eexists. split; [vm_compute; reflexivity|].
    repeat split.
Qed.

(** ** Complements *)

(** With no signal confirmed the summary reports a rate of zero. *)
Lemma execution_rate_none_confirmed (st : Sim.t) :
  Sim.confirmed_signals st <= 0 -> execution_rate st = 0%Q.
Proof.
  intros H. unfold execution_rate.
  destruct (Z.ltb_spec 0 (Sim.confirmed_signals st)); [lia | reflexivity].
Qed.

(** The closing block leaves a trade as it is when the last close does
    not trigger its exit. *)
Lemma close_one_not_triggered (env : Env.t) (last_candle : Candle.t)
    (st : Sim.t) (r : nat) (trade : Trade.t) :
  deref (Sim.all_trades st) r = Ok trade ->
  ~ exit_triggered (Trade.type trade) (Trade.take_profit_price trade)
      (Trade.stop_loss_price trade) (Candle.close last_candle) ->
  exists st' trade',
    close_one env last_candle st r = Ok st'
    /\ deref (Sim.all_trades st') r = Ok trade'
    /\ Trade.status trade' = Trade.status trade
    /\ Trade.exit_price trade' = Trade.exit_price trade
    /\ Trade.pnl trade' = Trade.pnl trade.
Proof.
  intros D Hn. unfold close_one. rewrite D. simpl.
  unfold update_trade.
  pose proof (best_price_update_same_terms trade (Candle.close last_candle)) as Hs.
  pose proof (exit_condition_triggered
                (update_best_price trade (Candle.close last_candle))
                (Candle.close last_candle)) as Hx.
  set (t1 := update_best_price trade (Candle.close last_candle)) in *.
  destruct Hs as (Hty & _ & _ & _ & _ & Htp & Hsl).
  rewrite Hty, Htp, Hsl in Hx.
  destruct (exit_condition t1 (Candle.close last_candle)) as [[] reason];
    simpl in Hx; [exfalso; apply Hn; now apply Hx|].
  simpl. eexists. exists t1. split; [reflexivity|]. simpl.
  split.
  - clear -D. unfold deref in *.
    destruct (nth_error (Sim.all_trades st) r) eqn:N; [|discriminate].
    clear D. revert r N.
    induction (Sim.all_trades st) as [|x l IH]; intros [|r]; simpl; intros N;
      try discriminate; [reflexivity | now apply IH].
  - unfold t1, update_best_price.
    destruct (is_long trade); destruct (Qltb _ _); repeat split.
Qed.

(* ================================================================= *)
(** * Further properties of the code *)

(** ** Aggregation: errors, size, coverage *)

Lemma bind_Raise_inv {A B : Type} (m : result A) (k : A -> result B) (e : exn) :
  Py.bind m k = Raise e -> m = Raise e \/ exists a, m = Ok a /\ k a = Raise e.
Proof.
  destruct m as [a|e']; simpl; intros H; [right; eauto | left; now inversion H].
Qed.

Lemma int_raises_ValueError (s : string) (e : exn) : int s = Raise e -> e = ValueError.
Proof. unfold int. destruct (int_of_chars _); intros H; inversion H; reflexivity. Qed.

Lemma parse_timeframe_raises_ValueError (tf : string) (e : exn) :
  parse_timeframe_to_minutes tf = Raise e -> e = ValueError.
Proof.
  unfold parse_timeframe_to_minutes.
  destruct (endswith tf "m"); [apply int_raises_ValueError|].
  destruct (endswith tf "h");
    [destruct (int (drop_last tf)) eqn:E; simpl; [discriminate|];
     intros H; inversion H; subst; now apply int_raises_ValueError in E|].
  destruct (endswith tf "d");
    [destruct (int (drop_last tf)) eqn:E; simpl; [discriminate|];
     intros H; inversion H; subst; now apply int_raises_ValueError in E|].
  destruct (endswith tf "w");
    [destruct (int (drop_last tf)) eqn:E; simpl; [discriminate|];
     intros H; inversion H; subst; now apply int_raises_ValueError in E|].
  intros H; inversion H; reflexivity.
Qed.

(** X1.  [aggregate_candles] succeeds exactly when the timeframe parses
    to a positive number of minutes, whatever the candles are; every
    other call raises [ValueError] and nothing else. *)
Theorem aggregate_candles_succeeds_iff (cs : list Candle.t) (tf : string) :
  ((exists out, aggregate_candles cs tf = Ok out)
   <-> exists minutes, parse_timeframe_to_minutes tf = Ok minutes /\ 0 < minutes)
  /\ (forall e, aggregate_candles cs tf = Raise e -> e = ValueError).
Proof.
  split; [split|].
  - intros [out H]. unfold aggregate_candles in H.
    destruct (parse_timeframe_to_minutes tf) as [n|]; [|discriminate].
    simpl in H. destruct (Z.leb_spec n 0); [discriminate|]. eauto.
  - intros (n & Hp & Hn). rewrite (aggregate_candles_eq cs tf n Hp Hn). eauto.
  - intros e H.
    destruct (parse_timeframe_to_minutes tf) as [n|e'] eqn:Hp.
    + destruct (Z.leb_spec n 0).
      * rewrite (aggregate_candles_nonpositive_interval cs tf n Hp) in H by assumption.
        now inversion H.
      * rewrite (aggregate_candles_eq cs tf n Hp) in H by assumption. discriminate.
    + rewrite (aggregate_candles_invalid_timeframe cs tf e' Hp) in H.
      inversion H; subst. now apply parse_timeframe_raises_ValueError in Hp.
Qed.

Lemma group_append_length (k : Z) (c : Candle.t) (g : list (Z * list Candle.t)) :
  (List.length (group_append k c g) <= S (List.length g))%nat.
Proof.
  induction g as [|[k0 cs] g IH]; simpl; [lia|].
  destruct (k =? k0); simpl; lia.
Qed.

Lemma group_fold_length (interval_ms : Z) (s : list Candle.t)
    (g : list (Z * list Candle.t)) :
  (List.length (fold_left
                  (fun g c => group_append (window_start_of interval_ms c) c g) s g)
   <= List.length g + List.length s)%nat.
Proof.
  revert g. induction s as [|c s IH]; intros g; simpl; [lia|].
  specialize (IH (group_append (window_start_of interval_ms c) c g)).
  pose proof (group_append_length (window_start_of interval_ms c) c g). lia.
Qed.

Lemma window_starts_length (interval_ms : Z) (s : list Candle.t) :
  (List.length (window_starts interval_ms s) <= List.length s)%nat.
Proof.
  unfold window_starts.
  rewrite (Permutation_length (sorted_by_perm (fun k : Z => k) _)), length_map.
  apply (group_fold_length interval_ms s []).
Qed.

Lemma flat_map_derive_length (interval_ms : Z) (s : list Candle.t) (ks : list Z) :
  (List.length (flat_map (derive interval_ms s) ks) <= List.length ks)%nat.
Proof.
  induction ks as [|k ks IH]; simpl; [lia|].
  rewrite length_app. unfold derive at 1.
  destruct (sorted_by Candle.time (bucket interval_ms k s)); simpl; lia.
Qed.

Lemma window_start_of_bounds (interval_ms : Z) (c : Candle.t) :
  0 < interval_ms ->
  window_start_of interval_ms c <= Candle.time c
  < window_start_of interval_ms c + interval_ms.
Proof.
  intros Hi. unfold window_start_of.
  pose proof (Z.mul_div_le (Candle.time c) interval_ms Hi).
  pose proof (Z.mul_succ_div_gt (Candle.time c) interval_ms Hi).
  lia.
Qed.

(** X2.  For a valid timeframe the aggregated series is never longer
    than the series it is built from, and it is empty only when that
    series is empty. *)
Theorem aggregate_candles_length (s : list Candle.t) (tf : string) (minutes : Z) :
  parse_timeframe_to_minutes tf = Ok minutes -> 0 < minutes ->
  exists out,
    aggregate_candles s tf = Ok out
    /\ (List.length out <= List.length s)%nat
    /\ (out = [] <-> s = []).
Proof.
  intros Hp Hm.
  set (i := minutes * 60 * 1000).
  exists (flat_map (derive i s) (window_starts i s)).
  split; [now apply aggregate_candles_eq|].
  split.
  - etransitivity; [apply flat_map_derive_length | apply window_starts_length].
  - split.
    + intros Hout. destruct s as [|c s]; [reflexivity|]. exfalso.
      assert (Hb : bucket i (window_start_of i c) (c :: s) <> []).
      { apply bucket_nonempty. exists c. split; [now left | reflexivity]. }
      destruct (derive_nonempty i (c :: s) _ Hb) as [d Hd].
      assert (Hin : In d (flat_map (derive i (c :: s)) (window_starts i (c :: s)))).
      { apply in_flat_map. exists (window_start_of i c).
        split; [now apply window_starts_In | rewrite Hd; now left]. }
      rewrite Hout in Hin. destruct Hin.
    + intros ->. reflexivity.
Qed.

Lemma aggregate_candles_length_witness :
  exists out,
    aggregate_candles four_candles "2m" = Ok out
    /\ (List.length out <= 4)%nat
    /\ out <> [].
Proof.
  destruct (aggregate_candles_length four_candles "2m" 2 eq_refl eq_refl)
    as (out & Ho & Hl & He).
  exists out. split; [exact Ho|]. split; [exact Hl|].
  intros E. apply He in E. discriminate E.
Defined.

(** X3.  For a valid timeframe every input candle falls in the window
    of one output candle, the one stamped with the end of that window:
    its time is less than the stamp and at most one interval before it.
    Conversely every output candle covers some input candle this way. *)
Theorem aggregate_candles_covers (s : list Candle.t) (tf : string) (minutes : Z) :
  parse_timeframe_to_minutes tf = Ok minutes -> 0 < minutes ->
  let interval_ms := minutes * 60 * 1000 in
  exists out,
    aggregate_candles s tf = Ok out
    /\ (forall c, In c s ->
          exists d, In d out
                    /\ Candle.time d - interval_ms <= Candle.time c < Candle.time d)
    /\ (forall d, In d out ->
          exists c, In c s
                    /\ Candle.time d - interval_ms <= Candle.time c < Candle.time d).
Proof.
  intros Hp Hm i.
  exists (flat_map (derive i s) (window_starts i s)).
  split; [now apply aggregate_candles_eq|].
  assert (Hi : 0 < i) by (unfold i; lia).
  split.
  - intros c Hc.
    assert (Hb : bucket i (window_start_of i c) s <> []).
    { apply bucket_nonempty. exists c. split; [exact Hc | reflexivity]. }
    destruct (derive_nonempty i s _ Hb) as [d Hd].
    exists d. split.
    + apply in_flat_map. exists (window_start_of i c).
      split; [now apply window_starts_In | rewrite Hd; now left].
    + assert (Ht : Candle.time d = window_start_of i c + i)
        by (apply (derive_time i s); rewrite Hd; now left).
      pose proof (window_start_of_bounds i c Hi). lia.
  - intros d Hd. apply in_flat_map in Hd. destruct Hd as (k & Hk & Hd).
    apply derive_time in Hd.
    apply window_starts_In, bucket_nonempty in Hk. destruct Hk as (c & Hc & <-).
    exists c. split; [exact Hc|].
    pose proof (window_start_of_bounds i c Hi). lia.
Qed.

Lemma aggregate_candles_covers_witness :
  exists out,
    aggregate_candles four_candles "2m" = Ok out
    /\ exists d, In d out /\ Candle.time d - 120000 <= 60000 < Candle.time d.
Proof.
  destruct (aggregate_candles_covers four_candles "2m" 2 eq_refl eq_refl)
    as (out & Ho & Hc & _).
  exists out. split; [exact Ho|].
  exact (Hc (Candle.mk 60000 1.5 3 1 2 20) (or_intror (or_introl eq_refl))).
Defined.

(** ** Aggregation: volume and input order *)

Lemma total_volume_app (l1 l2 : list Candle.t) :
  (total_volume (l1 ++ l2) == total_volume l1 + total_volume l2)%Q.
Proof.
  unfold total_volume. induction l1 as [|x l1 IH]; simpl; [ring|].
  rewrite IH. ring.
Qed.

Lemma total_volume_perm (l1 l2 : list Candle.t) :
  Permutation l1 l2 -> (total_volume l1 == total_volume l2)%Q.
Proof.
  intros P. unfold total_volume. now apply fold_right_Qplus_perm, Permutation_map.
Qed.

Lemma derive_volume (interval_ms : Z) (s : list Candle.t) (k : Z) :
  (total_volume (derive interval_ms s k) == total_volume (bucket interval_ms k s))%Q.
Proof.
  destruct (bucket interval_ms k s) as [|c b] eqn:E.
  - unfold derive. rewrite E. reflexivity.
  - assert (Hb : bucket interval_ms k s <> []) by (rewrite E; discriminate).
    destruct (derive_spec interval_ms s k Hb) as (d & -> & Hd).
    destruct Hd as (_ & _ & _ & _ & _ & _ & _ & Hv).
    rewrite E in Hv. unfold total_volume at 1. simpl. rewrite Hv.
    unfold total_volume. simpl. ring.
Qed.

Lemma filter_split_perm {A : Type} (p : A -> bool) (l : list A) :
  Permutation (filter p l ++ filter (fun x => negb (p x)) l) l.
Proof.
  induction l as [|x l IH]; simpl; [constructor|].
  destruct (p x); simpl.
  - now constructor.
  - apply Permutation_sym. apply Permutation_cons_app. now apply Permutation_sym.
Qed.

Lemma filter_filter_other (interval_ms k k' : Z) (s : list Candle.t) :
  k' <> k ->
  bucket interval_ms k'
    (filter (fun c => negb (window_start_of interval_ms c =? k)) s)
  = bucket interval_ms k' s.
Proof.
  intros Hne. unfold bucket. induction s as [|c s IH]; simpl; [reflexivity|].
  destruct (Z.eqb_spec (window_start_of interval_ms c) k) as [E|E]; simpl.
  - destruct (Z.eqb_spec (window_start_of interval_ms c) k'); [congruence | exact IH].
  - destruct (window_start_of interval_ms c =? k'); [f_equal|]; exact IH.
Qed.

(** The buckets of the window starts partition the series. *)
Lemma buckets_partition (interval_ms : Z) (ks : list Z) (s : list Candle.t) :
  NoDup ks ->
  (forall c, In c s -> In (window_start_of interval_ms c) ks) ->
  Permutation (flat_map (fun k => bucket interval_ms k s) ks) s.
Proof.
  intros Hn. revert s. induction Hn as [|k ks Hk Hn IH]; intros s Hs; simpl.
  - destruct s as [|c s]; [constructor|]. destruct (Hs c (or_introl eq_refl)).
  - set (rest := filter (fun c => negb (window_start_of interval_ms c =? k)) s).
    assert (Hrest : forall c, In c rest -> In (window_start_of interval_ms c) ks).
    { intros c Hc. apply filter_In in Hc. destruct Hc as [Hc Hne].
      destruct (Hs c Hc) as [E|Hin]; [|exact Hin].
      rewrite E, Z.eqb_refl in Hne. discriminate. }
    assert (Heq : flat_map (fun k' => bucket interval_ms k' s) ks
                  = flat_map (fun k' => bucket interval_ms k' rest) ks).
    { clear -Hk. induction ks as [|k' ks IHks]; simpl; [reflexivity|].
      rewrite IHks by (intros Hin; apply Hk; now right).
      f_equal. symmetry. apply filter_filter_other.
      intros ->. apply Hk. now left. }
    rewrite Heq.
    etransitivity; [|apply (filter_split_perm
                             (fun c => window_start_of interval_ms c =? k) s)].
    apply Permutation_app_head. apply IH, Hrest.
Qed.

(** X4.  Aggregation conserves volume: for a valid timeframe the
    volumes of the aggregated candles add up to the volumes of the input
    candles. *)
Theorem aggregate_candles_volume (s : list Candle.t) (tf : string) (minutes : Z) :
  parse_timeframe_to_minutes tf = Ok minutes -> 0 < minutes ->
  exists out,
    aggregate_candles s tf = Ok out
    /\ (total_volume out == total_volume s)%Q.
Proof.
  intros Hp Hm. set (i := minutes * 60 * 1000).
  exists (flat_map (derive i s) (window_starts i s)).
  split; [now apply aggregate_candles_eq|].
  transitivity (total_volume (flat_map (fun k => bucket i k s) (window_starts i s))).
  - induction (window_starts i s) as [|k ks IH]; simpl; [reflexivity|].
    rewrite !total_volume_app, IH, derive_volume. reflexivity.
  - apply total_volume_perm, buckets_partition.
    + pose proof (window_starts_strict i s) as Hs.
      clear -Hs. induction Hs as [|k ks Hs IH Hk]; constructor; [|exact IH].
      intros Hin. rewrite Forall_forall in Hk. specialize (Hk _ Hin). lia.
    + intros c Hc. apply window_starts_In, bucket_nonempty. eauto.
Qed.

Lemma aggregate_candles_volume_witness :
  exists out,
    aggregate_candles four_candles "2m" = Ok out
    /\ (total_volume out == 42)%Q.
Proof.
  destruct (aggregate_candles_volume four_candles "2m" 2 eq_refl eq_refl)
    as (out & Ho & Hv).
  exists out. split; [exact Ho|]. rewrite Hv. reflexivity.
Defined.

Lemma strictly_sorted_unique_by {A : Type} (key : A -> Z) (l1 l2 : list A) :
  StronglySorted (fun a b => key a < key b) l1 ->
  StronglySorted (fun a b => key a < key b) l2 ->
  (forall x, In x l1 <-> In x l2) -> l1 = l2.
Proof.
  intros H1. revert l2. induction H1 as [|x l1 Hl1 IH Hx]; intros l2 H2 Heq.
  - destruct l2 as [|y l2]; [reflexivity|].
    exfalso. apply (Heq y). now left.
  - destruct H2 as [|y l2 Hl2 Hy].
    { exfalso. apply (Heq x). now left. }
    rewrite Forall_forall in Hx, Hy.
    assert (x = y).
    { destruct (proj1 (Heq x) (or_introl eq_refl)) as [->|Hin]; [reflexivity|].
      destruct (proj2 (Heq y) (or_introl eq_refl)) as [->|Hin']; [reflexivity|].
      specialize (Hx _ Hin'). specialize (Hy _ Hin). lia. }
    subst y. f_equal. apply IH; [exact Hl2|].
    intros z. split; intros Hz.
    + destruct (proj1 (Heq z) (or_intror Hz)) as [<-|Hin]; [|exact Hin].
      specialize (Hx _ Hz). lia.
    + destruct (proj2 (Heq z) (or_intror Hz)) as [<-|Hin]; [|exact Hin].
      specialize (Hy _ Hz). lia.
Qed.

Lemma sorted_nodup_strict_by {A : Type} (key : A -> Z) (l : list A) :
  NoDup (map key l) ->
  StronglySorted (fun a b => key a <= key b) l ->
  StronglySorted (fun a b => key a < key b) l.
Proof.
  induction 2 as [|x l Hl IH Hx]; constructor.
  - apply IH. simpl in H. now inversion H.
  - simpl in H. inversion H; subst. rewrite Forall_forall in *. intros y Hy.
    specialize (Hx y Hy).
    assert (key x <> key y).
    { intros E. apply H2. rewrite E. now apply in_map. }
    lia.
Qed.

(** With distinct keys the sorted list depends on the elements only. *)
Lemma sorted_by_perm_unique {A : Type} (key : A -> Z) (l1 l2 : list A) :
  Permutation l1 l2 -> NoDup (map key l1) ->
  sorted_by key l1 = sorted_by key l2.
Proof.
  intros P Hn.
  assert (Hn2 : NoDup (map key l2))
    by (eapply Permutation_NoDup; [apply Permutation_map, P | exact Hn]).
  apply (strictly_sorted_unique_by key).
  - apply sorted_nodup_strict_by; [|apply sorted_by_sorted].
    eapply Permutation_NoDup; [|exact Hn].
    apply Permutation_map, Permutation_sym, sorted_by_perm.
  - apply sorted_nodup_strict_by; [|apply sorted_by_sorted].
    eapply Permutation_NoDup; [|exact Hn2].
    apply Permutation_map, Permutation_sym, sorted_by_perm.
  - intros x. rewrite !sorted_by_In. split; apply Permutation_in;
      [exact P | now apply Permutation_sym].
Qed.

Lemma filter_perm {A : Type} (p : A -> bool) (l1 l2 : list A) :
  Permutation l1 l2 -> Permutation (filter p l1) (filter p l2).
Proof.
  induction 1 as [|x l1 l2 P IH|x y l|l1 l2 l3 P1 IH1 P2 IH2]; simpl.
  - constructor.
  - destruct (p x); [now constructor | exact IH].
  - destruct (p x), (p y); try reflexivity. apply perm_swap.
  - now transitivity (filter p l2).
Qed.

Lemma bucket_times_distinct (interval_ms k : Z) (s : list Candle.t) :
  NoDup (map Candle.time s) -> NoDup (map Candle.time (bucket interval_ms k s)).
Proof.
  unfold bucket. intros Hn.
  induction s as [|c s IH]; simpl in *; [exact Hn|].
  apply NoDup_cons_iff in Hn. destruct Hn as [Hc Hs].
  destruct (window_start_of interval_ms c =? k); simpl; [|now apply IH].
  apply NoDup_cons; [|now apply IH].
  rewrite in_map_iff. intros (c' & E & Hc').
  apply Hc. rewrite <- E. apply in_map. now apply filter_In in Hc'.
Qed.

(** X5.  When no two candles carry the same timestamp the order in
    which the candles are given does not matter: two arrangements of the
    same candles aggregate to the same result, errors included. *)
Theorem aggregate_candles_order_independent (s1 s2 : list Candle.t) (tf : string) :
  Permutation s1 s2 -> NoDup (map Candle.time s1) ->
  aggregate_candles s1 tf = aggregate_candles s2 tf.
Proof.
  intros P Hn.
  destruct (parse_timeframe_to_minutes tf) as [n|e] eqn:Hp.
  2:{ now rewrite !(aggregate_candles_invalid_timeframe _ tf e Hp). }
  destruct (Z.leb_spec n 0) as [Hle|Hlt].
  { now rewrite !(aggregate_candles_nonpositive_interval _ tf n Hp Hle). }
  rewrite !(aggregate_candles_eq _ tf n Hp Hlt).
  set (i := n * 60 * 1000). f_equal.
  assert (Hk : window_starts i s1 = window_starts i s2).
  { apply strictly_sorted_unique; try apply window_starts_strict.
    intros k. rewrite !window_starts_In, !bucket_nonempty.
    split; intros (c & Hc & E); exists c; (split; [|exact E]).
    - now apply (Permutation_in _ P).
    - now apply (Permutation_in _ (Permutation_sym P)). }
  rewrite Hk. apply flat_map_ext. intros k. unfold derive.
  rewrite (sorted_by_perm_unique Candle.time (bucket i k s1) (bucket i k s2));
    [reflexivity | now apply filter_perm | now apply bucket_times_distinct].
Qed.

Lemma aggregate_candles_order_independent_witness :
  aggregate_candles four_candles "2m" = aggregate_candles (rev four_candles) "2m".
Proof.
  apply aggregate_candles_order_independent.
  - apply Permutation_rev.
  - repeat (constructor; [simpl; intuition discriminate|]). constructor.
Defined.

(** ** Pivot detection in general *)

Lemma detect_pivot_stages (candles : list Candle.t) (index : Z) (config : PivotConfig.t) :
  detect_pivot candles index config
  = if (PivotConfig.pivotLookback config =? 0) && (index =? 0) then Ok None
    else if (index <? PivotConfig.pivotLookback config)
            || (Z.of_nat (List.length candles) <=? index) then Ok None
    else
      cur <- getitem candles index ;;
      flags <- pivot_flags config candles index cur ;;
      if negb (fst flags) && negb (snd flags) then Ok None
      else finish_pivot config candles index cur
             (if fst flags then high_pivot else low_pivot).
Proof.
  unfold detect_pivot, pivot_flags, finish_pivot.
  destruct (_ && _); [reflexivity|].
  destruct (_ || _); [reflexivity|].
  destruct (getitem candles index) as [cur|]; [|reflexivity]. simpl.
  destruct (if 0 <? PivotConfig.pivotLookback config then _ else _) as [h|];
    [|reflexivity]. simpl.
  destruct (if 0 <? PivotConfig.pivotLookback config then _ else _) as [l|];
    [|reflexivity]. simpl.
  destruct (PivotConfig.pivotLookback config =? 0).
  - destruct (getitem candles (index - 1)) as [prev|]; [|reflexivity]. simpl.
    destruct (Qltb (high_value config prev) (high_value config cur)),
      (Qltb (low_value config cur) (low_value config prev)); simpl;
      try destruct (Qle_bool _ _); reflexivity.
  - simpl. destruct h, l; reflexivity.
Qed.

Lemma getitem_in_range {A : Type} (l : list A) (i : Z) :
  0 <= i < Z.of_nat (List.length l) -> exists x, getitem l i = Ok x.
Proof.
  intros Hi. unfold getitem.
  destruct (Z.ltb_spec i 0); [lia|].
  destruct (Z.ltb_spec i 0); [lia|].
  destruct (Z.leb_spec (Z.of_nat (List.length l)) i); [lia|]. simpl.
  destruct (nth_error l (Z.to_nat i)) as [x|] eqn:E; [eauto|].
  apply nth_error_None in E. lia.
Qed.

Lemma lookback_high_total (config : PivotConfig.t) (candles : list Candle.t)
    (index : Z) (current_high : Q) (n : nat) (j : Z) :
  index < Z.of_nat (List.length candles) -> 1 <= j ->
  exists b, lookback_high config candles index current_high j n = Ok b.
Proof.
  intros Hi. revert j. induction n as [|n IH]; intros j Hj; simpl; [eauto|].
  destruct (Z.ltb_spec (index - j) 0); [eauto|].
  destruct (getitem_in_range candles (index - j)) as [c ->]; [lia|]. simpl.
  destruct (Qle_bool _ _); [eauto|]. apply IH. lia.
Qed.

Lemma lookback_low_total (config : PivotConfig.t) (candles : list Candle.t)
    (index : Z) (current_low : Q) (n : nat) (j : Z) :
  index < Z.of_nat (List.length candles) -> 1 <= j ->
  exists b, lookback_low config candles index current_low j n = Ok b.
Proof.
  intros Hi. revert j. induction n as [|n IH]; intros j Hj; simpl; [eauto|].
  destruct (Z.ltb_spec (index - j) 0); [eauto|].
  destruct (getitem_in_range candles (index - j)) as [c ->]; [lia|]. simpl.
  destruct (Qle_bool _ _); [eauto|]. apply IH. lia.
Qed.

Lemma truediv_Raise (a b : Q) (e : exn) :
  truediv a b = Raise e -> e = ZeroDivisionError /\ (b == 0)%Q.
Proof.
  unfold truediv. destruct (Qeq_bool b 0) eqn:E; [|discriminate].
  intros H. inversion H. split; [reflexivity | now apply Qeq_bool_iff].
Qed.

Lemma swing_loop_raises (config : PivotConfig.t) (candles : list Candle.t)
    (index : Z) (ty : PivotType) (price : Q) (n : nat) (m : Q) (j : Z) (e : exn) :
  index < Z.of_nat (List.length candles) -> 1 <= j ->
  swing_loop config candles index ty price m j n = Raise e ->
  e = ZeroDivisionError.
Proof.
  intros Hi. revert m j. induction n as [|n IH]; intros m j Hj; simpl; [discriminate|].
  destruct (Z.ltb_spec (index - j) 0); [discriminate|].
  destruct (getitem_in_range candles (index - j)) as [c ->]; [lia|]. simpl.
  destruct (truediv _ _) as [r|e'] eqn:E; simpl.
  - apply IH. lia.
  - intros Hr. inversion Hr; subst. now apply truediv_Raise in E.
Qed.

Lemma pivot_flags_total (config : PivotConfig.t) (candles : list Candle.t)
    (index : Z) (cur : Candle.t) :
  0 <= PivotConfig.pivotLookback config ->
  PivotConfig.pivotLookback config <= index ->
  index < Z.of_nat (List.length candles) ->
  (PivotConfig.pivotLookback config = 0 -> index <> 0) ->
  exists f, pivot_flags config candles index cur = Ok f.
Proof.
  intros HL Hge Hlt Hz. unfold pivot_flags.
  destruct (lookback_high_total config candles index (high_value config cur)
              (Z.to_nat (PivotConfig.pivotLookback config)) 1) as [h Hh];
    [assumption | lia |].
  destruct (lookback_low_total config candles index (low_value config cur)
              (Z.to_nat (PivotConfig.pivotLookback config)) 1) as [l Hl];
    [assumption | lia |].
  rewrite Hh, Hl.
  destruct (Z.eqb_spec (PivotConfig.pivotLookback config) 0) as [E0|E0].
  - specialize (Hz E0).
    destruct (getitem_in_range candles (index - 1)) as [prev Hprev]; [lia|].
    rewrite Hprev.
    destruct (0 <? PivotConfig.pivotLookback config); simpl;
      (destruct (_ && _); [destruct (Qle_bool _ _)|]; eauto).
  - destruct (0 <? PivotConfig.pivotLookback config); simpl; eauto.
Qed.

Lemma finish_pivot_raises (config : PivotConfig.t) (candles : list Candle.t)
    (index : Z) (cur : Candle.t) (ty : PivotType) (e : exn) :
  0 <= index < Z.of_nat (List.length candles) ->
  finish_pivot config candles index cur ty = Raise e ->
  e = ZeroDivisionError /\ (0 < PivotConfig.minSwingPct config)%Q.
Proof.
  intros Hi. unfold finish_pivot.
  destruct (Qltb 0 (PivotConfig.minSwingPct config)) eqn:Em.
  - destruct (swing_loop _ _ _ _ _ _ _ _) as [m|e'] eqn:Es; simpl.
    + destruct (Qltb m _); discriminate.
    + intros Hr. inversion Hr; subst. apply swing_loop_raises in Es; [|lia|lia].
      split; [exact Es | now apply Qltb_lt].
  - simpl. discriminate.
Qed.

(** X6.  With a lookback that is not negative, [detect_pivot] never
    indexes outside the series: the only exception it can raise is
    [ZeroDivisionError], from the swing computation, and only when a
    positive minimum swing is configured.  Outside the series, and at
    an index with fewer than [pivotLookback] predecessors, it returns
    [None]. *)
Theorem detect_pivot_in_bounds (candles : list Candle.t) (index : Z)
    (config : PivotConfig.t) :
  0 <= PivotConfig.pivotLookback config ->
  (forall e, detect_pivot candles index config = Raise e ->
             e = ZeroDivisionError /\ (0 < PivotConfig.minSwingPct config)%Q)
  /\ (index < PivotConfig.pivotLookback config
      \/ index < 0
      \/ Z.of_nat (List.length candles) <= index ->
      detect_pivot candles index config = Ok None).
Proof.
  intros HL. rewrite detect_pivot_stages.
  destruct (Z.eqb_spec (PivotConfig.pivotLookback config) 0) as [EL|EL];
    destruct (Z.eqb_spec index 0) as [Ei|Ei]; cbn [andb];
    try (split; [discriminate | reflexivity]).
  all: destruct (Z.ltb_spec index (PivotConfig.pivotLookback config));
    [split; [discriminate | reflexivity]|].
  all: destruct (Z.leb_spec (Z.of_nat (List.length candles)) index);
    [split; [discriminate | reflexivity]|].
  all: cbn [orb]; split; [|lia].
  all: intros e.
  all: destruct (getitem_in_range candles index) as [cur Hcur]; [lia|].
  all: rewrite Hcur; cbn [bind].
  all: destruct (pivot_flags_total config candles index cur) as [f Hf];
    try assumption; try lia.
  all: rewrite Hf; cbn [bind].
  all: destruct (_ && _); [discriminate|].
  all: apply finish_pivot_raises; lia.
Qed.

Lemma detect_pivot_in_bounds_witness :
  let candles := [flat_candle 0 10; flat_candle 60000 12; flat_candle 120000 8] in
  let config := PivotConfig.mk 1 0 0 None in
  detect_pivot candles 0 config = Ok None
  /\ detect_pivot candles 3 config = Ok None
  /\ detect_pivot candles (-1) config = Ok None.
Proof.
  intros candles config.
  destruct (detect_pivot_in_bounds candles 0 config ltac:(discriminate)) as [_ H0].
  destruct (detect_pivot_in_bounds candles 3 config ltac:(discriminate)) as [_ H3].
  destruct (detect_pivot_in_bounds candles (-1) config ltac:(discriminate)) as [_ Hm].
  split; [apply H0; left; reflexivity|].
  split; [apply H3; right; right; discriminate|].
  apply Hm. left. reflexivity.
Defined.

Lemma swing_loop_ge (config : PivotConfig.t) (candles : list Candle.t)
    (index : Z) (ty : PivotType) (price : Q) (n : nat) (m : Q) (j : Z) (r : Q) :
  swing_loop config candles index ty price m j n = Ok r -> (m <= r)%Q.
Proof.
  revert m j. induction n as [|n IH]; intros m j; cbn [swing_loop].
  - intros H. inversion H. apply Qle_refl.
  - destruct (index - j <? 0); [intros H; inversion H; apply Qle_refl|].
    destruct (getitem candles (index - j)) as [c|]; [|discriminate]. cbn [bind].
    destruct (truediv _ _) as [q|]; [|discriminate]. cbn [bind].
    intros H. apply IH in H. eapply Qle_trans; [|exact H].
    destruct (Qltb m (Qabs (q * 100))) eqn:E; [|apply Qle_refl].
    apply Qltb_lt in E. now apply Qlt_le_weak.
Qed.

Lemma finish_pivot_Some (config : PivotConfig.t) (candles : list Candle.t)
    (index : Z) (cur : Candle.t) (ty : PivotType) (p : Pivot.t) :
  finish_pivot config candles index cur ty = Ok (Some p) ->
  Pivot.type p = ty
  /\ Pivot.price p = pivot_value config ty cur
  /\ Pivot.time p = Candle.time cur
  /\ Pivot.index p = index
  /\ Pivot.signal p = signal_of ty
  /\ Pivot.timeframe p = ""
  /\ (0 <= Pivot.swing_pct p)%Q
  /\ ((0 < PivotConfig.minSwingPct config)%Q ->
      (PivotConfig.minSwingPct config <= Pivot.swing_pct p)%Q)
  /\ (~ (0 < PivotConfig.minSwingPct config)%Q -> Pivot.swing_pct p = 0%Q).
Proof.
  unfold finish_pivot, pivot_value.
  destruct (Qltb 0 (PivotConfig.minSwingPct config)) eqn:Em.
  - destruct (swing_loop _ _ _ _ _ _ _ _) as [m|] eqn:Es; [|discriminate]. simpl.
    destruct (Qltb m (PivotConfig.minSwingPct config)) eqn:Et; [discriminate|].
    intros H. inversion H; subst; simpl.
    apply swing_loop_ge in Es. apply Qltb_ge in Et. apply Qltb_lt in Em.
    repeat split; try assumption; try reflexivity;
      [intros _; exact Et | intros Hn; exfalso; exact (Hn Em)].
  - simpl. intros H. inversion H; subst; simpl.
    apply Qltb_ge in Em.
    repeat split; try reflexivity; try apply Qle_refl.
    intros Hp. exfalso. now apply (Qlt_not_le _ _ Hp).
Qed.

(** X7.  Whatever the configuration, a pivot returned by [detect_pivot]
    describes the candle at [index]: it carries that candle's time, the
    index, the candle's value for its type as price, the signal short
    for a high and long for a low, and no timeframe yet.  Its swing is
    not negative, is at least the minimum swing when a positive one is
    configured, and is zero when none is. *)
Theorem detect_pivot_returns (candles : list Candle.t) (index : Z)
    (config : PivotConfig.t) (p : Pivot.t) :
  detect_pivot candles index config = Ok (Some p) ->
  exists cur,
    getitem candles index = Ok cur
    /\ Pivot.time p = Candle.time cur
    /\ Pivot.index p = index
    /\ Pivot.price p = pivot_value config (Pivot.type p) cur
    /\ Pivot.signal p = signal_of (Pivot.type p)
    /\ Pivot.timeframe p = ""
    /\ (0 <= Pivot.swing_pct p)%Q
    /\ ((0 < PivotConfig.minSwingPct config)%Q ->
        (PivotConfig.minSwingPct config <= Pivot.swing_pct p)%Q)
    /\ (~ (0 < PivotConfig.minSwingPct config)%Q -> Pivot.swing_pct p = 0%Q).
Proof.
  rewrite detect_pivot_stages.
  destruct (_ && _); [discriminate|].
  destruct (_ || _); [discriminate|].
  destruct (getitem candles index) as [cur|]; [|discriminate]. cbn [bind].
  destruct (pivot_flags config candles index cur) as [f|]; [|discriminate].
  cbn [bind]. destruct (_ && _); [discriminate|].
  intros H. apply finish_pivot_Some in H.
  destruct H as (Hty & Hpr & Ht & Hi & Hs & Htf & H0 & Hmin & Hz).
  exists cur. rewrite Hty. repeat split; assumption.
Qed.

Lemma detect_pivot_returns_witness :
  let candles := [flat_candle 0 10; flat_candle 60000 12; flat_candle 120000 8] in
  let config := PivotConfig.mk 1 0 0 None in
  exists p,
    detect_pivot candles 2 config = Ok (Some p)
    /\ Pivot.time p = 120000
    /\ Pivot.index p = 2
    /\ Pivot.signal p = signal_of (Pivot.type p).
Proof.
  intros candles config.
  eexists. split; [vm_compute; reflexivity|].
  match goal with
  | |- Pivot.time ?q = _ /\ _ =>
      destruct (detect_pivot_returns candles 2 config q eq_refl)
        as (cur & Hc & Ht & Hi & _ & Hs & _)
  end.
  vm_compute in Hc. inversion Hc; subst cur.
  split; [exact Ht|]. split; [exact Hi | exact Hs].
Defined.

Lemma lookback_high_true (config : PivotConfig.t) (candles : list Candle.t)
    (index : Z) (current_high : Q) (n : nat) (j0 : Z) :
  lookback_high config candles index current_high j0 n = Ok true ->
  forall j, j0 <= j < j0 + Z.of_nat n ->
    exists c, getitem candles (index - j) = Ok c
              /\ (high_value config c < current_high)%Q.
Proof.
  revert j0. induction n as [|n IH]; intros j0; simpl; [intros _ j; lia|].
  destruct (index - j0 <? 0); [discriminate|].
  destruct (getitem candles (index - j0)) as [c|] eqn:G; [|discriminate]. simpl.
  destruct (Qle_bool current_high (high_value config c)) eqn:E; [discriminate|].
  intros H j Hj.
  destruct (Z.eq_dec j j0) as [->|Hne].
  - exists c. split; [exact G|]. apply Qltb_lt. unfold Qltb. now rewrite E.
  - apply (IH (j0 + 1) H). lia.
Qed.

Lemma lookback_low_true (config : PivotConfig.t) (candles : list Candle.t)
    (index : Z) (current_low : Q) (n : nat) (j0 : Z) :
  lookback_low config candles index current_low j0 n = Ok true ->
  forall j, j0 <= j < j0 + Z.of_nat n ->
    exists c, getitem candles (index - j) = Ok c
              /\ (current_low < low_value config c)%Q.
Proof.
  revert j0. induction n as [|n IH]; intros j0; simpl; [intros _ j; lia|].
  destruct (index - j0 <? 0); [discriminate|].
  destruct (getitem candles (index - j0)) as [c|] eqn:G; [|discriminate]. simpl.
  destruct (Qle_bool (low_value config c) current_low) eqn:E; [discriminate|].
  intros H j Hj.
  destruct (Z.eq_dec j j0) as [->|Hne].
  - exists c. split; [exact G|]. apply Qltb_lt. unfold Qltb. now rewrite E.
  - apply (IH (j0 + 1) H). lia.
Qed.

Lemma lookback_high_false (config : PivotConfig.t) (candles : list Candle.t)
    (index : Z) (current_high : Q) (n : nat) (j0 : Z) :
  0 <= index - j0 - Z.of_nat n + 1 ->
  lookback_high config candles index current_high j0 n = Ok false ->
  exists j c, j0 <= j < j0 + Z.of_nat n
              /\ getitem candles (index - j) = Ok c
              /\ (current_high <= high_value config c)%Q.
Proof.
  revert j0. induction n as [|n IH]; intros j0 Hb; simpl; [discriminate|].
  destruct (Z.ltb_spec (index - j0) 0); [lia|].
  destruct (getitem candles (index - j0)) as [c|] eqn:G; [|discriminate]. simpl.
  destruct (Qle_bool current_high (high_value config c)) eqn:E.
  - intros _. exists j0, c. split; [lia|]. split; [exact G|].
    now apply Qle_bool_iff.
  - intros Hf.
    assert (Hb' : 0 <= index - (j0 + 1) - Z.of_nat n + 1) by lia.
    destruct (IH (j0 + 1) Hb' Hf) as (j & c' & Hj & Hg & Hle).
    exists j, c'. split; [lia|]. split; assumption.
Qed.

(** X8.  With a lookback [L] of at least one, a high pivot returned by
    [detect_pivot] is strictly above the value of each of the [L]
    candles before it; a low pivot is strictly below each of them and,
    since high is tested first, is not above all of them. *)
Theorem detect_pivot_lookback (candles : list Candle.t) (index : Z)
    (config : PivotConfig.t) (p : Pivot.t) (cur : Candle.t) :
  1 <= PivotConfig.pivotLookback config ->
  getitem candles index = Ok cur ->
  detect_pivot candles index config = Ok (Some p) ->
  match Pivot.type p with
  | high_pivot =>
      forall j, 1 <= j <= PivotConfig.pivotLookback config ->
        exists c, getitem candles (index - j) = Ok c
                  /\ (high_value config c < high_value config cur)%Q
  | low_pivot =>
      (forall j, 1 <= j <= PivotConfig.pivotLookback config ->
         exists c, getitem candles (index - j) = Ok c
                   /\ (low_value config cur < low_value config c)%Q)
      /\ exists j c, 1 <= j <= PivotConfig.pivotLookback config
                     /\ getitem candles (index - j) = Ok c
                     /\ (high_value config cur <= high_value config c)%Q
  end.
Proof.
  intros HL Hcur. rewrite detect_pivot_stages.
  destruct (Z.eqb_spec (PivotConfig.pivotLookback config) 0); [lia|]. cbn [andb].
  destruct (Z.ltb_spec index (PivotConfig.pivotLookback config)); [discriminate|].
  destruct (_ <=? _); [discriminate|]. cbn [orb].
  rewrite Hcur. cbn [bind].
  unfold pivot_flags.
  destruct (Z.ltb_spec 0 (PivotConfig.pivotLookback config)); [|lia].
  destruct (lookback_high _ _ _ _ _ _) as [h|] eqn:Hh; [|discriminate]. cbn [bind].
  destruct (lookback_low _ _ _ _ _ _) as [l|] eqn:Hl; [|discriminate]. cbn [bind].
  destruct (Z.eqb_spec (PivotConfig.pivotLookback config) 0); [lia|].
  cbn [bind fst snd].
  destruct h; cbn [negb andb].
  - intros Hf. apply finish_pivot_Some in Hf. destruct Hf as [-> _].
    intros j Hj. apply (lookback_high_true _ _ _ _ _ _ Hh). lia.
  - destruct l; cbn [negb]; [|discriminate].
    intros Hf. apply finish_pivot_Some in Hf. destruct Hf as [-> _].
    split.
    + intros j Hj. apply (lookback_low_true _ _ _ _ _ _ Hl). lia.
    + apply lookback_high_false in Hh; [|lia].
      destruct Hh as (j & c & Hj & Hg & Hle). exists j, c.
      split; [lia|]. split; assumption.
Qed.

Lemma detect_pivot_lookback_witness :
  let candles := [flat_candle 0 10; flat_candle 60000 9; flat_candle 120000 12] in
  let config := PivotConfig.mk 2 0 0 None in
  (exists c, getitem candles 1 = Ok c /\ (Candle.close c < 12)%Q)
  /\ (exists c, getitem candles 0 = Ok c /\ (Candle.close c < 12)%Q).
Proof.
  intros candles config.
  pose proof (detect_pivot_lookback candles 2 config
                (Pivot.mk high_pivot 12 120000 2 short 0 "") (flat_candle 120000 12)
                ltac:(discriminate) eq_refl eq_refl) as H.
  split; [apply (H 1) | apply (H 2)]; split; discriminate.
Defined.

(** ** Trades *)

Lemma exit_condition_cases (trade : Trade.t) (price : Q) :
  (exit_condition trade price = (true, "TP") /\ take_profit_hit trade price)
  \/ (exit_condition trade price = (true, "SL")
      /\ ~ take_profit_hit trade price /\ stop_loss_hit trade price)
  \/ (exit_condition trade price = (false, "")
      /\ ~ take_profit_hit trade price /\ ~ stop_loss_hit trade price).
Proof.
  unfold exit_condition, take_profit_hit, stop_loss_hit, is_long.
  destruct (Trade.type trade); simpl.
  - destruct (Qle_bool (Trade.take_profit_price trade) price) eqn:E1.
    { left. split; [reflexivity | now apply Qle_bool_iff]. }
    right.
    assert (N1 : ~ (Trade.take_profit_price trade <= price)%Q)
      by (intros H; apply Qle_bool_iff in H; congruence).
    destruct (Qle_bool price (Trade.stop_loss_price trade)) eqn:E2.
    + left. repeat split; [exact N1 | now apply Qle_bool_iff].
    + right. repeat split; [exact N1|].
      intros H; apply Qle_bool_iff in H; congruence.
  - destruct (Qle_bool price (Trade.take_profit_price trade)) eqn:E1.
    { left. split; [reflexivity | now apply Qle_bool_iff]. }
    right.
    assert (N1 : ~ (price <= Trade.take_profit_price trade)%Q)
      by (intros H; apply Qle_bool_iff in H; congruence).
    destruct (Qle_bool (Trade.stop_loss_price trade) price) eqn:E2.
    + left. repeat split; [exact N1 | now apply Qle_bool_iff].
    + right. repeat split; [exact N1|].
      intros H; apply Qle_bool_iff in H; congruence.
Qed.

Lemma update_best_price_levels (trade : Trade.t) (price : Q) (close : Q) :
  (take_profit_hit (update_best_price trade price) close <-> take_profit_hit trade close)
  /\ (stop_loss_hit (update_best_price trade price) close <-> stop_loss_hit trade close).
Proof.
  unfold take_profit_hit, stop_loss_hit, update_best_price.
  destruct (is_long trade); destruct (Qltb _ _); simpl; tauto.
Qed.

(** X9.  [update_trade] raises exactly when the close triggers the exit
    of a trade whose entry price is zero, and what it raises is
    [ZeroDivisionError]; otherwise it returns, closing the trade exactly
    when the close triggers its take-profit or its stop-loss. *)
Theorem update_trade_raises_iff (trade : Trade.t) (current_candle : Candle.t)
    (config : TradeConfig.t) :
  let close := Candle.close current_candle in
  let triggered := take_profit_hit trade close \/ stop_loss_hit trade close in
  (forall e, update_trade trade current_candle config = Raise e
             <-> e = ZeroDivisionError /\ triggered
                 /\ (Trade.entry_price trade == 0)%Q)
  /\ (forall trade' should_close,
         update_trade trade current_candle config = Ok (trade', should_close) ->
         (should_close = true <-> triggered)
         /\ (should_close = true -> ~ (Trade.entry_price trade == 0)%Q)).
Proof.
  intros close triggered. unfold triggered, close. clear triggered close.
  unfold update_trade.
  pose proof (best_price_update_same_terms trade (Candle.close current_candle)) as Hs.
  pose proof (update_best_price_levels trade (Candle.close current_candle)
                (Candle.close current_candle)) as [Ltp Lsl].
  pose proof (exit_condition_cases
                (update_best_price trade (Candle.close current_candle))
                (Candle.close current_candle)) as Hc.
  set (t1 := update_best_price trade (Candle.close current_candle)) in *.
  destruct Hs as (_ & Hep & _).
  rewrite Ltp, Lsl in Hc. rewrite Hep.
  destruct Hc as [[-> Htp]|[[-> [Hn Hsl]]|[-> [Hn1 Hn2]]]].
  - destruct (truediv _ _) as [r|e'] eqn:E.
    + apply truediv_Ok in E. destruct E as [Hnz _]. cbn [bind]. split.
      * intros e. split; [discriminate | intros (_ & _ & Hz); contradiction].
      * intros t' b H. inversion H; subst. split; [tauto | auto].
    + apply truediv_Raise in E. destruct E as [-> Hz]. cbn [bind]. split.
      * intros e. split; [intros H; inversion H; auto | intros (-> & _); reflexivity].
      * discriminate.
  - destruct (truediv _ _) as [r|e'] eqn:E.
    + apply truediv_Ok in E. destruct E as [Hnz _]. cbn [bind]. split.
      * intros e. split; [discriminate | intros (_ & _ & Hz); contradiction].
      * intros t' b H. inversion H; subst. split; [tauto | auto].
    + apply truediv_Raise in E. destruct E as [-> Hz]. cbn [bind]. split.
      * intros e. split; [intros H; inversion H; auto | intros (-> & _); reflexivity].
      * discriminate.
  - split.
    + intros e. split; [discriminate | intros (_ & [H|H] & _); contradiction].
    + intros t' b H. inversion H; subst. split; [|discriminate].
      split; [discriminate | intros [H'|H']; contradiction].
Qed.

Lemma update_trade_raises_iff_witness :
  let trade := Trade.new long "1m" 0 0 1000 10 (-10) 1 None in
  update_trade trade (flat_candle 60000 11) sample_trade_config
  = Raise ZeroDivisionError.
Proof.
  intros trade.
  destruct (update_trade_raises_iff trade (flat_candle 60000 11) sample_trade_config)
    as [Hr _].
  apply Hr. split; [reflexivity|]. split; [|reflexivity].
  left. unfold take_profit_hit. simpl. discriminate.
Defined.

(** X10.  When [update_trade] closes a trade it records the tick's
    close and time as exit, and the reason is TP when the take-profit
    is hit, even if the stop-loss is hit too, and SL otherwise.  When
    it does not close, the trade is as before except for its best
    price. *)
Theorem update_trade_exit (trade : Trade.t) (current_candle : Candle.t)
    (config : TradeConfig.t) (trade' : Trade.t) (should_close : bool) :
  update_trade trade current_candle config = Ok (trade', should_close) ->
  let close := Candle.close current_candle in
  (should_close = true ->
     Trade.status trade' = closed
     /\ Trade.exit_price trade' = Some close
     /\ Trade.exit_time trade' = Some (Candle.time current_candle)
     /\ (take_profit_hit trade close -> Trade.exit_reason trade' = "TP")
     /\ (~ take_profit_hit trade close -> Trade.exit_reason trade' = "SL"))
  /\ (should_close = false ->
      trade' = Trade.set_best_price (Trade.best_price trade') trade).
Proof.
  unfold update_trade.
  pose proof (update_best_price_levels trade (Candle.close current_candle)
                (Candle.close current_candle)) as [Ltp Lsl].
  pose proof (exit_condition_cases
                (update_best_price trade (Candle.close current_candle))
                (Candle.close current_candle)) as Hc.
  assert (Hb : update_best_price trade (Candle.close current_candle)
               = Trade.set_best_price
                   (Trade.best_price
                      (update_best_price trade (Candle.close current_candle)))
                   trade).
  { unfold update_best_price.
    destruct (is_long trade); destruct (Qltb _ _); destruct trade; reflexivity. }
  set (t1 := update_best_price trade (Candle.close current_candle)) in *.
  rewrite Ltp, Lsl in Hc.
  destruct Hc as [[-> Htp]|[[-> [Hn Hsl]]|[-> [Hn1 Hn2]]]].
  - destruct (truediv _ _) as [r|]; [|discriminate]. cbn [bind].
    intros H. inversion H; subst. simpl. split; [|discriminate].
    intros _. repeat split; try reflexivity. intros; contradiction.
  - destruct (truediv _ _) as [r|]; [|discriminate]. cbn [bind].
    intros H. inversion H; subst. simpl. split; [|discriminate].
    intros _. repeat split; try reflexivity. intros; contradiction.
  - intros H. inversion H; subst. simpl. split; [discriminate|].
    intros _. exact Hb.
Qed.

Lemma update_trade_exit_witness :
  let pivot := Pivot.mk low_pivot 100 0 0 long 0 "1m" in
  let trade := create_trade long pivot 1000 0 "1m" sample_trade_config in
  exists trade',
    update_trade trade (flat_candle 60000 90) sample_trade_config = Ok (trade', true)
    /\ Trade.exit_reason trade' = "SL"
    /\ Trade.exit_time trade' = Some 60000.
Proof.
  intros pivot trade.
  eexists. split; [vm_compute; reflexivity|].
  match goal with
  | |- Trade.exit_reason ?t = _ /\ _ =>
      destruct (update_trade_exit trade (flat_candle 60000 90) sample_trade_config
                  t true eq_refl) as [Hc _]
  end.
  destruct (Hc eq_refl) as (_ & _ & Ht & _ & Hsl).
  split; [|exact Ht].
  apply Hsl. unfold take_profit_hit. simpl. intros H. apply H. reflexivity.
Defined.

Lemma update_trade_not_triggered (trade : Trade.t) (c : Candle.t)
    (config : TradeConfig.t) :
  ~ take_profit_hit trade (Candle.close c) ->
  ~ stop_loss_hit trade (Candle.close c) ->
  update_trade trade c config = Ok (update_best_price trade (Candle.close c), false).
Proof.
  intros N1 N2. unfold update_trade.
  pose proof (update_best_price_levels trade (Candle.close c) (Candle.close c))
    as [Ltp Lsl].
  destruct (exit_condition_cases (update_best_price trade (Candle.close c))
              (Candle.close c)) as [[_ H]|[[_ [_ H]]|[-> _]]].
  - apply Ltp in H. contradiction.
  - apply Lsl in H. contradiction.
  - reflexivity.
Qed.

(** X11.  The best price of a trade only moves in its favour: after
    [update_trade] it is the greater of the previous best price and the
    tick's close for a long, the lesser of the two for a short. *)
Theorem update_trade_best_price (trade : Trade.t) (current_candle : Candle.t)
    (config : TradeConfig.t) (trade' : Trade.t) (should_close : bool) :
  update_trade trade current_candle config = Ok (trade', should_close) ->
  let close := Candle.close current_candle in
  (Trade.best_price trade' = Trade.best_price trade
   \/ Trade.best_price trade' = close)
  /\ match Trade.type trade with
     | long => (Trade.best_price trade <= Trade.best_price trade')%Q
               /\ (close <= Trade.best_price trade')%Q
     | short => (Trade.best_price trade' <= Trade.best_price trade)%Q
                /\ (Trade.best_price trade' <= close)%Q
     end.
Proof.
  intros H close.
  assert (Hb : Trade.best_price trade'
               = Trade.best_price (update_best_price trade close)).
  { revert H. unfold update_trade. fold close.
    destruct (exit_condition _ _) as [[] reason].
    - destruct (truediv _ _); [|discriminate]. cbn [bind].
      intros H. now inversion H.
    - intros H. now inversion H. }
  rewrite Hb. unfold update_best_price, is_long.
  destruct (Trade.type trade); simpl.
  - destruct (Qltb (Trade.best_price trade) close) eqn:E; simpl.
    + apply Qltb_lt in E. split; [now right|].
      split; [now apply Qlt_le_weak | apply Qle_refl].
    + apply Qltb_ge in E. split; [now left|]. split; [apply Qle_refl | exact E].
  - destruct (Qltb close (Trade.best_price trade)) eqn:E; simpl.
    + apply Qltb_lt in E. split; [now right|].
      split; [now apply Qlt_le_weak | apply Qle_refl].
    + apply Qltb_ge in E. split; [now left|]. split; [apply Qle_refl | exact E].
Qed.

Lemma update_trade_best_price_witness :
  let pivot := Pivot.mk low_pivot 100 0 0 long 0 "1m" in
  let trade := create_trade long pivot 1000 0 "1m" sample_trade_config in
  exists trade',
    update_trade trade (flat_candle 60000 105) sample_trade_config = Ok (trade', false)
    /\ (105 <= Trade.best_price trade')%Q.
Proof.
  intros pivot trade.
  eexists. split; [vm_compute; reflexivity|].
  match goal with
  | |- (_ <= Trade.best_price ?t)%Q =>
      destruct (update_trade_best_price trade (flat_candle 60000 105)
                  sample_trade_config t false eq_refl) as [_ [_ Hc]]
  end.
  exact Hc.
Defined.

(** X12.  For a positive pivot price and positive take-profit and
    stop-loss percentages, [create_trade] puts the entry price strictly
    between the two levels, the take-profit above it for a long and
    below it for a short.  The new trade is open, and a tick closing at
    the entry price leaves it open. *)
Theorem create_trade_levels (trade_type : Side) (pivot : Pivot.t) (trade_size : Q)
    (entry_time : Z) (timeframe : string) (config : TradeConfig.t)
    (current_candle : Candle.t) :
  (0 < Pivot.price pivot)%Q ->
  (0 < TradeConfig.take_profit config)%Q ->
  (0 < TradeConfig.stop_loss config)%Q ->
  Candle.close current_candle = Pivot.price pivot ->
  let trade := create_trade trade_type pivot trade_size entry_time timeframe config in
  Trade.entry_price trade = Pivot.price pivot
  /\ Trade.status trade = open
  /\ Trade.best_price trade = Pivot.price pivot
  /\ match trade_type with
     | long => (Trade.stop_loss_price trade < Trade.entry_price trade)%Q
               /\ (Trade.entry_price trade < Trade.take_profit_price trade)%Q
     | short => (Trade.take_profit_price trade < Trade.entry_price trade)%Q
                /\ (Trade.entry_price trade < Trade.stop_loss_price trade)%Q
     end
  /\ update_trade trade current_candle config = Ok (trade, false).
Proof.
  intros Hp Htp Hsl Hclose trade.
  assert (Dtp : (0 < Pivot.price pivot * (TradeConfig.take_profit config / 100))%Q).
  { apply Qmult_lt_0_compat; [exact Hp|].
    apply Qlt_shift_div_l; [reflexivity | now rewrite Qmult_0_l]. }
  assert (Dsl : (0 < Pivot.price pivot * (TradeConfig.stop_loss config / 100))%Q).
  { apply Qmult_lt_0_compat; [exact Hp|].
    apply Qlt_shift_div_l; [reflexivity | now rewrite Qmult_0_l]. }
  assert (Hbest : Trade.best_price trade = Pivot.price pivot).
  { unfold trade, create_trade, Trade.new. destruct trade_type; simpl;
      destruct (Qeq_bool 0 0) eqn:E; try reflexivity; discriminate. }
  assert (Hlv : match trade_type with
                | long => (Trade.stop_loss_price trade < Trade.entry_price trade)%Q
                          /\ (Trade.entry_price trade < Trade.take_profit_price trade)%Q
                | short => (Trade.take_profit_price trade < Trade.entry_price trade)%Q
                           /\ (Trade.entry_price trade < Trade.stop_loss_price trade)%Q
                end).
  { unfold trade, create_trade. destruct trade_type; simpl; split; lra. }
  split; [unfold trade, create_trade; destruct trade_type; reflexivity|].
  split; [unfold trade, create_trade; destruct trade_type; reflexivity|].
  split; [exact Hbest|]. split; [exact Hlv|].
  assert (Hty : Trade.type trade = trade_type)
    by (unfold trade, create_trade; destruct trade_type; reflexivity).
  assert (Hep : Trade.entry_price trade = Pivot.price pivot)
    by (unfold trade, create_trade; destruct trade_type; reflexivity).
  rewrite update_trade_not_triggered.
  - f_equal. f_equal. unfold update_best_price. rewrite Hclose, Hbest.
    assert (Hirr : Qltb (Pivot.price pivot) (Pivot.price pivot) = false)
      by (apply Qltb_ge, Qle_refl).
    rewrite Hirr. now destruct (is_long trade).
  - unfold take_profit_hit. rewrite Hclose, Hty, <- Hep.
    destruct trade_type; destruct Hlv; now apply Qlt_not_le.
  - unfold stop_loss_hit. rewrite Hclose, Hty, <- Hep.
    destruct trade_type; destruct Hlv; now apply Qlt_not_le.
Qed.

Lemma create_trade_levels_witness :
  let pivot := Pivot.mk high_pivot 100 0 0 short 0 "1m" in
  let trade := create_trade short pivot 1000 0 "1m" sample_trade_config in
  (Trade.take_profit_price trade < 100)%Q
  /\ (100 < Trade.stop_loss_price trade)%Q
  /\ update_trade trade (flat_candle 60000 100) sample_trade_config = Ok (trade, false).
Proof.
  intros pivot trade.
  destruct (create_trade_levels short pivot 1000 0 "1m" sample_trade_config
              (flat_candle 60000 100) eq_refl eq_refl eq_refl eq_refl)
    as (_ & _ & _ & [H1 H2] & Hu).
  split; [exact H1|]. split; [exact H2 | exact Hu].
Defined.

(** ** Cascade confirmation *)

Lemma Zmin_py_le (a b : Z) : Zmin_py a b <= a /\ Zmin_py a b <= b.
Proof. unfold Zmin_py. destruct (Z.ltb_spec b a); lia. Qed.

Lemma check_timeframe_shape (primary_pivot : Pivot.t)
    (pivots : list (string * list Pivot.t)) (as_of_time window : Z)
    (tf : TimeframeConfig.t) :
  check_timeframe primary_pivot pivots as_of_time window tf = []
  \/ exists p,
       check_timeframe primary_pivot pivots as_of_time window tf
       = [Confirmation.mk (TimeframeConfig.interval tf)
            (get_default (TimeframeConfig.role tf) "secondary")
            (get_default (TimeframeConfig.weight tf) 1%Q)
            p
            (get_default (TimeframeConfig.opposite tf) false)]
       /\ In p (get_default (dict_get pivots (TimeframeConfig.interval tf)) [])
       /\ Pivot.signal p
          = target_signal (Pivot.signal primary_pivot)
              (get_default (TimeframeConfig.opposite tf) false)
       /\ Z.abs (Pivot.time p - Pivot.time primary_pivot) <= window
       /\ Pivot.time p <= as_of_time.
Proof.
  unfold check_timeframe.
  destruct (filter _ _) as [|p ps] eqn:F; [now left|].
  right. exists p. split; [reflexivity|].
  assert (Hin : In p (p :: ps)) by now left.
  rewrite <- F in Hin. apply filter_In in Hin. destruct Hin as [Hin Hc].
  apply andb_prop in Hc. destruct Hc as [Hc H3].
  apply andb_prop in Hc. destruct Hc as [H1 H2].
  split; [exact Hin|]. split; [|split; lia].
  destruct (Pivot.signal p), (target_signal _ _); simpl in H1;
    try reflexivity; discriminate.
Qed.

(** X13.  [check_cascade_confirmation] returns at most one confirmation
    per configured timeframe.  The pivot of each one is a pivot of that
    timeframe whose time is not after [as_of_time] and, whatever window
    is configured, not more than five minutes away from the primary
    pivot's time; its signal is the one searched for. *)
Theorem check_cascade_confirmation_bounds (primary_pivot : Pivot.t)
    (all_timeframe_pivots : list (string * list Pivot.t)) (as_of_time : Z)
    (primary_interval : string) (config : MultiPivotConfig.t) :
  let confirmations :=
    check_cascade_confirmation primary_pivot all_timeframe_pivots as_of_time
      primary_interval config in
  (List.length confirmations <= List.length (MultiPivotConfig.timeframes config))%nat
  /\ forall c, In c confirmations ->
       Pivot.time (Confirmation.pivot c) <= as_of_time
       /\ Z.abs (Pivot.time (Confirmation.pivot c) - Pivot.time primary_pivot)
          <= 5 * 60 * 1000
       /\ Pivot.signal (Confirmation.pivot c)
          = target_signal (Pivot.signal primary_pivot) (Confirmation.inverted c)
       /\ exists tf, In tf (MultiPivotConfig.timeframes config)
                     /\ Confirmation.timeframe c = TimeframeConfig.interval tf
                     /\ In (Confirmation.pivot c)
                          (get_default
                             (dict_get all_timeframe_pivots (TimeframeConfig.interval tf))
                             []).
Proof.
  unfold check_cascade_confirmation.
  set (w := match dict_get _ primary_interval with
            | Some m => Zmin_py (5 * 60 * 1000) (m * 60 * 1000)
            | None => 5 * 60 * 1000
            end).
  assert (Hw : w <= 5 * 60 * 1000).
  { unfold w. destruct (dict_get _ _); [apply Zmin_py_le | lia]. }
  split.
  - induction (MultiPivotConfig.timeframes config) as [|tf tfs IH]; simpl; [lia|].
    rewrite length_app.
    destruct (check_timeframe_shape primary_pivot all_timeframe_pivots as_of_time w tf)
      as [->|(p & -> & _)]; simpl; lia.
  - intros c Hc. apply in_flat_map in Hc. destruct Hc as (tf & Htf & Hc).
    destruct (check_timeframe_shape primary_pivot all_timeframe_pivots as_of_time w tf)
      as [E|(p & E & Hin & Hs & Hd & Ht)]; rewrite E in Hc; [destruct Hc|].
    destruct Hc as [<-|[]]. simpl.
    split; [exact Ht|]. split; [lia|]. split; [exact Hs|].
    exists tf. repeat split; assumption.
Qed.

Lemma check_timeframe_monotone (primary_pivot : Pivot.t)
    (pivots : list (string * list Pivot.t)) (t1 t2 window : Z)
    (tf : TimeframeConfig.t) :
  t1 <= t2 ->
  check_timeframe primary_pivot pivots t1 window tf <> [] ->
  check_timeframe primary_pivot pivots t2 window tf <> [].
Proof.
  intros Ht. unfold check_timeframe.
  destruct (filter _ _) as [|p ps] eqn:F1; [congruence|]. intros _.
  assert (Hin : In p (p :: ps)) by now left.
  rewrite <- F1 in Hin. apply filter_In in Hin. destruct Hin as [Hin Hc].
  apply andb_prop in Hc. destruct Hc as [Hc H3].
  match goal with
  | |- match ?f with [] => _ | _ :: _ => _ end <> _ =>
      destruct f as [|q qs] eqn:F2; [|discriminate]
  end.
  exfalso.
  assert (Hin2 : In p []).
  { rewrite <- F2. apply filter_In. split; [exact Hin|].
    rewrite Hc. simpl. apply Z.leb_le. apply Z.leb_le in H3. lia. }
  destruct Hin2.
Qed.

Lemma check_timeframe_role (primary_pivot : Pivot.t)
    (pivots : list (string * list Pivot.t)) (t window : Z)
    (tf : TimeframeConfig.t) :
  existsb (fun c => String.eqb (Confirmation.role c) "primary")
    (check_timeframe primary_pivot pivots t window tf)
  = match check_timeframe primary_pivot pivots t window tf with
    | [] => false
    | _ :: _ => String.eqb (get_default (TimeframeConfig.role tf) "secondary") "primary"
    end.
Proof.
  destruct (check_timeframe_shape primary_pivot pivots t window tf)
    as [->|(p & -> & _)]; simpl; [reflexivity | apply orb_false_r].
Qed.

(** X14.  Confirmations only accumulate as time passes: a timeframe
    that confirms a primary pivot at one tick confirms it at every later
    tick, so the number of confirmations does not decrease and a pivot
    that meets the execution requirements keeps meeting them. *)
Theorem check_cascade_confirmation_monotone (primary_pivot : Pivot.t)
    (all_timeframe_pivots : list (string * list Pivot.t)) (t1 t2 : Z)
    (primary_interval : string) (config : MultiPivotConfig.t) :
  t1 <= t2 ->
  let at_t1 :=
    check_cascade_confirmation primary_pivot all_timeframe_pivots t1
      primary_interval config in
  let at_t2 :=
    check_cascade_confirmation primary_pivot all_timeframe_pivots t2
      primary_interval config in
  (List.length at_t1 <= List.length at_t2)%nat
  /\ (meets_execution_requirements at_t1 config = true ->
      meets_execution_requirements at_t2 config = true).
Proof.
  intros Ht. unfold check_cascade_confirmation.
  set (w := match dict_get _ primary_interval with
            | Some m => Zmin_py (5 * 60 * 1000) (m * 60 * 1000)
            | None => 5 * 60 * 1000
            end).
  set (f1 := check_timeframe primary_pivot all_timeframe_pivots t1 w).
  set (f2 := check_timeframe primary_pivot all_timeframe_pivots t2 w).
  assert (Hstep : forall tfs,
             (List.length (flat_map f1 tfs) <= List.length (flat_map f2 tfs))%nat
             /\ (existsb (fun c => String.eqb (Confirmation.role c) "primary")
                   (flat_map f1 tfs) = true ->
                 existsb (fun c => String.eqb (Confirmation.role c) "primary")
                   (flat_map f2 tfs) = true)).
  { induction tfs as [|tf tfs [IH1 IH2]]; simpl; [split; [lia | auto]|].
    rewrite !length_app, !existsb_app.
    pose proof (check_timeframe_monotone primary_pivot all_timeframe_pivots
                  t1 t2 w tf Ht) as Hm.
    pose proof (check_timeframe_role primary_pivot all_timeframe_pivots t1 w tf) as R1.
    pose proof (check_timeframe_role primary_pivot all_timeframe_pivots t2 w tf) as R2.
    fold f1 in Hm, R1. fold f2 in Hm, R2. rewrite R1, R2.
    destruct (check_timeframe_shape primary_pivot all_timeframe_pivots t1 w tf)
      as [E1|(p1 & E1 & _)];
      destruct (check_timeframe_shape primary_pivot all_timeframe_pivots t2 w tf)
        as [E2|(p2 & E2 & _)];
      fold f1 in E1; fold f2 in E2; rewrite E1, E2 in *; simpl.
    - split; [lia | exact IH2].
    - split; [lia|]. intros H. rewrite (IH2 H). apply orb_true_r.
    - exfalso. apply Hm; [discriminate | reflexivity].
    - split; [lia|]. intros H. apply orb_prop in H.
      destruct H as [->|H]; [reflexivity|]. rewrite (IH2 H). apply orb_true_r. }
  destruct (Hstep (MultiPivotConfig.timeframes config)) as [H1 H2].
  split; [exact H1|].
  unfold meets_execution_requirements.
  destruct (Z.ltb_spec (Z.of_nat (List.length
                                    (flat_map f1 (MultiPivotConfig.timeframes config))))
              (get_default
                 (MultiPivotConfig.cascade_settings_min_timeframes_required config) 2));
    [discriminate|].
  destruct (Z.ltb_spec (Z.of_nat (List.length
                                    (flat_map f2 (MultiPivotConfig.timeframes config))))
              (get_default
                 (MultiPivotConfig.cascade_settings_min_timeframes_required config) 2));
    [lia|].
  destruct (get_default _ false); [exact H2 | reflexivity].
Qed.

Lemma check_cascade_confirmation_monotone_witness :
  let pivot := Pivot.mk high_pivot 101 120000 1 short 0 "1m" in
  meets_execution_requirements
    (check_cascade_confirmation pivot [("1m", [pivot])] 240000 "1m"
       sample_multi_pivot_config)
    sample_multi_pivot_config = true.
Proof.
  intros pivot.
  destruct (check_cascade_confirmation_monotone pivot [("1m", [pivot])]
              120000 240000 "1m" sample_multi_pivot_config ltac:(discriminate))
    as [_ H].
  apply H. reflexivity.
Defined.

Lemma check_cascade_confirmation_bounds_witness :
  let pivot := Pivot.mk high_pivot 101 120000 1 short 0 "1m" in
  Forall (fun c => Pivot.time (Confirmation.pivot c) <= 240000)
    (check_cascade_confirmation pivot [("1m", [pivot])] 240000 "1m"
       sample_multi_pivot_config).
Proof.
  intros pivot.
  destruct (check_cascade_confirmation_bounds pivot [("1m", [pivot])] 240000 "1m"
              sample_multi_pivot_config) as [_ H].
  apply Forall_forall. intros c Hc. exact (proj1 (H c Hc)).
Defined.

(** ** The entry price *)

Lemma nearest_fold (t : Z) (cs : list Candle.t) (start : option Candle.t) :
  let result := fold_left (nearer t) cs start in
  (forall n, start = Some n -> Z.abs (Candle.time n - t) <= 30000) ->
  match result with
  | Some r =>
      Z.abs (Candle.time r - t) <= 30000
      /\ (In r cs \/ start = Some r)
      /\ (forall c, In c cs -> Z.abs (Candle.time c - t) <= 30000 ->
                    Z.abs (Candle.time r - t) <= Z.abs (Candle.time c - t))
      /\ (forall n, start = Some n ->
                    Z.abs (Candle.time r - t) <= Z.abs (Candle.time n - t))
  | None =>
      start = None
      /\ forall c, In c cs -> 30000 < Z.abs (Candle.time c - t)
  end.
Proof.
  revert start. induction cs as [|c cs IH]; intros start; simpl; intros Hs.
  - destruct start as [n|].
    + split; [now apply Hs|]. split; [now right|].
      split; [intros c []|]. intros n' E. inversion E. lia.
    + split; [reflexivity | intros c []].
  - assert (Hs' : forall n, nearer t start c = Some n ->
                            Z.abs (Candle.time n - t) <= 30000).
    { unfold nearer. intros n.
      destruct (Z.leb_spec (Z.abs (Candle.time c - t)) (30 * 1000)).
      - destruct start as [m|].
        + destruct (_ <? _); intros E; inversion E; subst; [lia | now apply Hs].
        + intros E; inversion E; subst; lia.
      - apply Hs. }
    specialize (IH (nearer t start c) Hs').
    destruct (fold_left (nearer t) cs (nearer t start c)) as [r|].
    + destruct IH as (I1 & I2 & I3 & I4).
      split; [exact I1|].
      assert (Hc : Z.abs (Candle.time c - t) <= 30000 ->
                   Z.abs (Candle.time r - t) <= Z.abs (Candle.time c - t)).
      { intros Hle. unfold nearer in I4.
        destruct (Z.leb_spec (Z.abs (Candle.time c - t)) (30 * 1000)); [|lia].
        destruct start as [m|].
        - destruct (Z.ltb_spec (Z.abs (Candle.time c - t)) (Z.abs (Candle.time m - t))).
          + specialize (I4 c eq_refl). lia.
          + specialize (I4 m eq_refl). lia.
        - specialize (I4 c eq_refl). lia. }
      assert (Hn : forall n, start = Some n ->
                     Z.abs (Candle.time r - t) <= Z.abs (Candle.time n - t)).
      { intros n ->. unfold nearer in I4.
        destruct (Z.leb_spec (Z.abs (Candle.time c - t)) (30 * 1000)).
        - destruct (Z.ltb_spec (Z.abs (Candle.time c - t)) (Z.abs (Candle.time n - t))).
          + specialize (I4 c eq_refl). lia.
          + specialize (I4 n eq_refl). lia.
        - specialize (I4 n eq_refl). lia. }
      split; [|split; [|exact Hn]].
      * destruct I2 as [I2|I2]; [left; now right|].
        unfold nearer in I2.
        destruct (Z.abs (Candle.time c - t) <=? 30 * 1000).
        -- destruct start as [m|].
           ++ destruct (_ <? _); inversion I2; subst; [left; now left | now right].
           ++ inversion I2; subst. left; now left.
        -- now right.
      * intros c' [<-|Hc'] Hle; [now apply Hc | now apply I3].
    + destruct IH as [I1 I2].
      unfold nearer in I1.
      destruct (Z.leb_spec (Z.abs (Candle.time c - t)) (30 * 1000)).
      * destruct start as [m|]; [destruct (_ <? _)|]; discriminate.
      * split; [exact I1|]. intros c' [<-|Hc']; [lia | now apply I2].
Qed.

Lemma find_last_exact (t : Z) (cs : list Candle.t) :
  match find (fun c => Candle.time c =? t) (rev cs) with
  | Some c => In c cs /\ Candle.time c = t
  | None => forall c, In c cs -> Candle.time c <> t
  end.
Proof.
  destruct (find _ (rev cs)) as [c|] eqn:F.
  - apply find_some in F. destruct F as [Hin E].
    apply in_rev in Hin. apply Z.eqb_eq in E. auto.
  - intros c Hc E. apply in_rev in Hc.
    pose proof (find_none _ _ F c Hc) as N. simpl in N.
    apply Z.eqb_neq in N. contradiction.
Qed.

(** X15.  The entry price, when one is found, is the close of a
    1-minute candle that lies within thirty seconds of the entry time
    and is at least as near to it as every other candle; none is found
    exactly when no candle lies within thirty seconds. *)
Theorem entry_price_override_nearest (one_minute_candles : list Candle.t)
    (actual_entry_time : Z) :
  match entry_price_override one_minute_candles actual_entry_time with
  | Some price =>
      exists c,
        In c one_minute_candles
        /\ Candle.close c = price
        /\ Z.abs (Candle.time c - actual_entry_time) <= 30000
        /\ forall c', In c' one_minute_candles ->
             Z.abs (Candle.time c - actual_entry_time)
             <= Z.abs (Candle.time c' - actual_entry_time)
  | None =>
      forall c, In c one_minute_candles ->
        30000 < Z.abs (Candle.time c - actual_entry_time)
  end.
Proof.
  unfold entry_price_override.
  pose proof (find_last_exact actual_entry_time one_minute_candles) as Hf.
  destruct (find _ (rev one_minute_candles)) as [c|].
  - destruct Hf as [Hin E]. exists c. split; [exact Hin|]. split; [reflexivity|].
    split; [lia|]. intros c' _. lia.
  - pose proof (nearest_fold actual_entry_time one_minute_candles None) as Hn.
    simpl in Hn. specialize (Hn ltac:(discriminate)).
    change (fun (nearest : option Candle.t) (c : Candle.t) =>
              if Z.abs (Candle.time c - actual_entry_time) <=? 30 * 1000
              then match nearest with
                   | Some n =>
                       if Z.abs (Candle.time c - actual_entry_time)
                          <? Z.abs (Candle.time n - actual_entry_time)
                       then Some c else nearest
                   | None => Some c
                   end
              else nearest) with (nearer actual_entry_time).
    destruct (fold_left (nearer actual_entry_time) one_minute_candles None) as [r|];
      simpl.
    + destruct Hn as (H1 & [H2|H2] & H3 & _); [|discriminate].
      exists r. repeat split; try assumption.
      intros c' Hc'.
      destruct (Z.le_gt_cases (Z.abs (Candle.time c' - actual_entry_time)) 30000);
        [now apply H3 | lia].
    + apply Hn.
Qed.

(** ** Funding *)

Lemma funding_total (rate : Q) (trades : list Trade.t) (start : Q) :
  (fold_left (fun total trade => total + Trade.trade_size trade * rate) trades start
   == start + total_size trades * rate)%Q.
Proof.
  revert start. induction trades as [|tr trades IH]; intros start; simpl.
  - unfold total_size. simpl. ring.
  - rewrite IH. unfold total_size. simpl. ring.
Qed.

Lemma existsb_Zeqb_In (k : Z) (l : list Z) : existsb (Z.eqb k) l = true <-> In k l.
Proof.
  rewrite existsb_exists. split.
  - intros (x & Hx & E). apply Z.eqb_eq in E. now subst.
  - intros H. exists k. split; [exact H | apply Z.eqb_refl].
Qed.

Lemma apply_funding_rates_recorded (time : Z) (trades : list Trade.t)
    (capital : Q) (applied : list Z) (config : TradeConfig.t) :
  get_default (TradeConfig.funding_interval_hours config) 8 * 60 * 60 * 1000 <> 0 ->
  In (funding_key config time) applied ->
  apply_funding_rates time trades capital applied config = Ok (capital, applied).
Proof.
  intros Hms Hin. unfold apply_funding_rates, funding_key, floordiv in *.
  destruct (_ || _); [reflexivity|].
  destruct (Z.eqb_spec
              (get_default (TradeConfig.funding_interval_hours config) 8
               * 60 * 60 * 1000) 0); [contradiction|].
  cbn [bind]. apply existsb_Zeqb_In in Hin. now rewrite Hin.
Qed.

Lemma apply_funding_rates_charged (time : Z) (trades : list Trade.t)
    (capital : Q) (applied : list Z) (config : TradeConfig.t)
    (capital' : Q) (applied' : list Z) :
  trades <> [] ->
  ~ (funding_rate_of config == 0)%Q ->
  apply_funding_rates time trades capital applied config = Ok (capital', applied') ->
  get_default (TradeConfig.funding_interval_hours config) 8 * 60 * 60 * 1000 <> 0
  /\ ((In (funding_key config time) applied
       /\ capital' = capital /\ applied' = applied)
      \/ (~ In (funding_key config time) applied
          /\ (capital' == capital - total_size trades * funding_rate_of config)%Q
          /\ applied' = funding_key config time :: applied)).
Proof.
  intros Hne Hrate. unfold apply_funding_rates, funding_key, funding_rate_of, floordiv in *.
  destruct trades as [|tr trs]; [congruence|].
  destruct (Qeq_bool _ 0) eqn:Er.
  { exfalso. apply Hrate. now apply Qeq_bool_iff. }
  cbn [orb].
  destruct (Z.eqb_spec
              (get_default (TradeConfig.funding_interval_hours config) 8
               * 60 * 60 * 1000) 0); [discriminate|].
  cbn [bind].
  destruct (existsb _ applied) eqn:Ex; intros H; inversion H; subst;
    (split; [assumption|]).
  - left. apply existsb_Zeqb_In in Ex. auto.
  - right. split.
    + intros Hin. apply existsb_Zeqb_In in Hin. congruence.
    + split; [|reflexivity]. rewrite funding_total.
      change (total_size (tr :: trs)) with (Trade.trade_size tr + total_size trs)%Q.
      ring.
Qed.

(** X16.  Funding is charged once per funding interval.  A call of
    [apply_funding_rates] with open trades and a nonzero rate either
    finds the key of its interval already recorded and changes nothing,
    or records it and takes the rate times the sum of the trade sizes
    from the capital; after it, every call at a time of the same
    interval changes nothing. *)
Theorem apply_funding_rates_once (current_time : Z) (open_trades : list Trade.t)
    (capital : Q) (applied : list Z) (config : TradeConfig.t)
    (capital' : Q) (applied' : list Z) :
  open_trades <> [] ->
  ~ (funding_rate_of config == 0)%Q ->
  apply_funding_rates current_time open_trades capital applied config
  = Ok (capital', applied') ->
  let key := funding_key config current_time in
  (In key applied -> capital' = capital /\ applied' = applied)
  /\ (~ In key applied ->
      (capital' == capital - total_size open_trades * funding_rate_of config)%Q
      /\ applied' = key :: applied)
  /\ forall later trades capital2,
       funding_key config later = key ->
       apply_funding_rates later trades capital2 applied' config
       = Ok (capital2, applied').
Proof.
  intros Hne Hrate H key.
  destruct (apply_funding_rates_charged _ _ _ _ _ _ _ Hne Hrate H)
    as [Hms [(Hin & -> & ->)|(Hnin & Hc & ->)]].
  - split; [auto|]. split; [intros N; contradiction|].
    intros later trades capital2 Hk.
    apply apply_funding_rates_recorded; [exact Hms | now rewrite Hk].
  - split; [intros Hin; contradiction|]. split; [auto|].
    intros later trades capital2 Hk.
    apply apply_funding_rates_recorded; [exact Hms | rewrite Hk; now left].
Qed.

Lemma apply_funding_rates_once_witness :
  let pivot := Pivot.mk high_pivot 100 0 0 short 0 "1m" in
  let trade := create_trade short pivot 1000 0 "1m" sample_trade_config in
  exists capital' applied',
    apply_funding_rates 60000 [trade] 10000 [] sample_trade_config
    = Ok (capital', applied')
    /\ (capital' == 9999.9)%Q
    /\ apply_funding_rates 3600000 [trade] capital' applied' sample_trade_config
       = Ok (capital', applied').
Proof.
  intros pivot trade.
  eexists. eexists. split; [vm_compute; reflexivity|].
  match goal with
  | |- (?c == _)%Q /\ apply_funding_rates _ _ _ ?a _ = _ =>
      destruct (apply_funding_rates_once 60000 [trade] 10000 [] sample_trade_config
                  c a ltac:(discriminate) ltac:(discriminate) eq_refl)
        as (_ & Hfresh & Hlater)
  end.
  split.
  - destruct (Hfresh (fun H => H)) as [Hc _]. rewrite Hc. reflexivity.
  - apply Hlater. reflexivity.
Defined.

(** ** The ledger of a run *)

Lemma store_set_length (store : list Trade.t) (r : nat) (tr : Trade.t) :
  List.length (store_set store r tr) = List.length store.
Proof.
  revert r. induction store as [|x store IH]; intros [|r]; simpl; auto.
Qed.

Lemma store_set_same (store : list Trade.t) (r : nat) (tr : Trade.t) :
  (r < List.length store)%nat -> nth_error (store_set store r tr) r = Some tr.
Proof.
  revert r. induction store as [|x store IH]; intros [|r]; simpl; intros H;
    try lia; [reflexivity | apply IH; lia].
Qed.

Lemma store_set_other (store : list Trade.t) (r r' : nat) (tr : Trade.t) :
  r <> r' -> nth_error (store_set store r tr) r' = nth_error store r'.
Proof.
  revert r r'. induction store as [|x store IH]; intros [|r] [|r']; simpl; intros H;
    try reflexivity; try congruence. apply IH. congruence.
Qed.

Lemma deref_nth (store : list Trade.t) (r : nat) (tr : Trade.t) :
  deref store r = Ok tr <-> nth_error store r = Some tr.
Proof.
  unfold deref. destruct (nth_error store r); split; intros H;
    inversion H; reflexivity.
Qed.

Lemma monitor_trades_spec (config : TradeConfig.t) (c : Candle.t)
    (refs : list nat) (capital : Q) (store : list Trade.t)
    (kept : list nat) (capital' : Q) (store' : list Trade.t) :
  monitor_trades c config refs capital store = Ok (kept, capital', store') ->
  NoDup refs ->
  List.length store' = List.length store
  /\ (forall r, In r kept -> In r refs)
  /\ NoDup kept
  /\ (forall r, ~ In r refs -> nth_error store' r = nth_error store r)
  /\ (forall r before, In r refs -> nth_error store r = Some before ->
        exists after, nth_error store' r = Some after
                      /\ monitored config c kept r before after).
Proof.
  revert kept capital' store'.
  induction refs as [|r refs IH]; simpl; intros kept capital' store' H Hn.
  - inversion H; subst.
    split; [reflexivity|]. split; [auto|]. split; [constructor|].
    split; [reflexivity|]. intros r b Hin. destruct Hin.
  - destruct (monitor_trades c config refs capital store) as [[[k1 c1] s1]|] eqn:E;
      [|discriminate].
    cbn [bind] in H. inversion Hn as [|? ? Hr Hn']; subst.
    destruct (IH _ _ _ eq_refl Hn') as (L1 & I1 & N1 & O1 & U1). clear IH.
    destruct (deref s1 r) as [tr|] eqn:D; [|discriminate]. cbn [bind] in H.
    apply deref_nth in D.
    assert (Dr : nth_error store r = Some tr) by (rewrite <- O1; assumption).
    assert (Hlt : (r < List.length s1)%nat)
      by (apply nth_error_Some; rewrite D; discriminate).
    assert (Hk1 : ~ In r k1) by (intros Hin; apply Hr, I1, Hin).
    assert (Hmono : forall kept', (forall x, In x k1 -> In x kept') ->
              forall r' b a, monitored config c k1 r' b a ->
                             r' <> r -> (forall x, In x kept' -> x = r \/ In x k1) ->
                             monitored config c kept' r' b a).
    { intros kept' Hsub r' b a M Hne Hinv. destruct M as [M1 M2 M3|sc M1 M2 M3].
      - apply monitored_not_started; auto.
      - apply (monitored_updated _ _ _ _ _ _ sc); auto.
        rewrite M3. split; [auto|]. intros Hin.
        destruct (Hinv _ Hin) as [->|Hin']; [congruence | exact Hin']. }
    destruct (Z.leb_spec (Trade.entry_time tr) (Candle.time c)) as [Hstart|Hstart].
    + destruct (update_trade tr c config) as [[tr' b]|] eqn:U; [|discriminate].
      cbn [bind] in H.
      assert (Hres : kept = (if b then k1 else r :: k1)
                     /\ store' = store_set s1 r tr')
        by (destruct b; inversion H; subst; auto).
      destruct Hres as [-> ->]. clear H.
      split; [now rewrite store_set_length|].
      split; [intros x Hx; destruct b; [right; now apply I1|];
              destruct Hx as [<-|Hx]; [now left | right; now apply I1]|].
      split; [destruct b; [exact N1 | now constructor]|].
      split.
      * intros x Hx. rewrite store_set_other by (intros ->; apply Hx; now left).
        apply O1. intros Hin. apply Hx. now right.
      * intros x before [<-|Hx] Hb.
        -- rewrite Dr in Hb. inversion Hb; subst before.
           exists tr'. split; [now apply store_set_same|].
           apply (monitored_updated _ _ _ _ _ _ b); [exact Hstart | exact U|].
           destruct b; split; try discriminate; try reflexivity;
             [intros Hin; contradiction | intros _; now left].
        -- assert (Hne : x <> r) by (intros ->; contradiction).
           destruct (U1 x before Hx Hb) as (after & Ha & M).
           exists after. split; [rewrite store_set_other; auto|].
           assert (Hsub : forall y, In y k1 -> In y (if b then k1 else r :: k1))
             by (intros y Hy; destruct b; [exact Hy | right; exact Hy]).
           apply (Hmono _ Hsub x before after M Hne).
           intros y Hy. destruct b; [now right|].
           destruct Hy as [<-|Hy]; [now left | now right].
    + inversion H; subst. clear H.
      split; [exact L1|].
      split; [intros x [<-|Hx]; [now left | right; now apply I1]|].
      split; [now constructor|].
      split.
      * intros x Hx. apply O1. intros Hin. apply Hx. now right.
      * intros x before [<-|Hx] Hb.
        -- rewrite Dr in Hb. inversion Hb; subst before.
           exists tr. split; [exact D|].
           apply monitored_not_started; [exact Hstart | reflexivity | now left].
        -- assert (Hne : x <> r) by (intros ->; contradiction).
           destruct (U1 x before Hx Hb) as (after & Ha & M).
           exists after. split; [exact Ha|].
           apply (Hmono (r :: k1) (fun y Hy => in_cons r y k1 Hy) x before after M Hne).
           intros y [<-|Hy]; [now left | now right].
Qed.

Lemma update_trade_keeps (trade : Trade.t) (c : Candle.t) (config : TradeConfig.t)
    (trade' : Trade.t) (b : bool) :
  update_trade trade c config = Ok (trade', b) ->
  Trade.type trade' = Trade.type trade
  /\ Trade.timeframe trade' = Trade.timeframe trade
  /\ Trade.entry_price trade' = Trade.entry_price trade
  /\ Trade.entry_time trade' = Trade.entry_time trade
  /\ Trade.trade_size trade' = Trade.trade_size trade
  /\ Trade.leverage trade' = Trade.leverage trade
  /\ Trade.pivot trade' = Trade.pivot trade
  /\ (if b then Trade.status trade' = closed
      else Trade.status trade' = Trade.status trade).
Proof.
  unfold update_trade, update_best_price.
  destruct (is_long trade); destruct (Qltb _ _);
    (destruct (exit_condition _ _) as [[] reason];
     [destruct (truediv _ _); [|discriminate]; cbn [bind]|]);
    intros H; inversion H; subst; repeat split.
Qed.

Lemma update_trade_ledger_ok (env : Env.t) (trade : Trade.t) (c : Candle.t)
    (trade' : Trade.t) (b : bool) :
  update_trade trade c (Env.trade_config env) = Ok (trade', b) ->
  ledger_trade_ok env trade -> ledger_trade_ok env trade'.
Proof.
  intros U (H1 & H2 & H3 & pv & H4 & H5 & H6 & H7).
  destruct (update_trade_keeps _ _ _ _ _ U) as (K1 & K2 & K3 & K4 & _ & K6 & K7 & _).
  unfold ledger_trade_ok. rewrite K1, K2, K3, K4, K6, K7.
  repeat split; try assumption. exists pv. repeat split; assumption || apply H7.
Qed.


Lemma Forall_nth_error {A : Type} (P : A -> Prop) (l : list A) :
  Forall P l <-> forall r x, nth_error l r = Some x -> P x.
Proof.
  rewrite Forall_forall. split.
  - intros H r x E. apply H. eapply nth_error_In; eauto.
  - intros H x Hin. apply In_nth_error in Hin. destruct Hin as [r E]. eauto.
Qed.

(** The state after the monitoring loop of a tick. *)
Lemma monitor_trades_ledger (env : Env.t) (c : Candle.t) (st : Sim.t)
    (kept : list nat) (capital' : Q) (store' : list Trade.t) :
  ledger_invariant env st ->
  monitor_trades c (Env.trade_config env) (Sim.open_trades st) (Sim.capital st)
    (Sim.all_trades st) = Ok (kept, capital', store') ->
  ledger_invariant env
    (Sim.mk capital' kept store'
       (Sim.confirmed_signals st) (Sim.executed_trades st) (Sim.total_signals st)
       (Sim.pending_windows st) (Sim.applied_funding_rates st)).
Proof.
  intros (Iv & In' & Is & Ic & Isg & Icap & It & Iw) M.
  destruct (monitor_trades_spec _ _ _ _ _ _ _ _ M In') as (L & Sub & Nd & Oth & Upd).
  unfold ledger_invariant. simpl.
  assert (Hafter : forall r after, nth_error store' r = Some after ->
            (~ In r (Sim.open_trades st)
             /\ nth_error (Sim.all_trades st) r = Some after)
            \/ (In r (Sim.open_trades st)
                /\ exists before, nth_error (Sim.all_trades st) r = Some before
                                  /\ monitored (Env.trade_config env) c kept r
                                       before after)).
  { intros r after Ha.
    destruct (in_dec Nat.eq_dec r (Sim.open_trades st)) as [Hin|Hnin].
    - right. split; [exact Hin|].
      assert (Hlt : (r < List.length (Sim.all_trades st))%nat)
        by (rewrite Forall_forall in Iv; now apply Iv).
      destruct (nth_error (Sim.all_trades st) r) as [before|] eqn:Eb;
        [|apply nth_error_None in Eb; lia].
      exists before. split; [reflexivity|].
      destruct (Upd r before Hin Eb) as (after' & Ha' & Mo).
      rewrite Ha in Ha'. inversion Ha'; subst. exact Mo.
    - left. split; [exact Hnin|]. now rewrite <- (Oth r Hnin). }
  split; [|split; [exact Nd|split; [|split; [|split; [exact Isg|split; [|split]]]]]].
  - rewrite Forall_forall in *. intros r Hr. rewrite L. apply Iv, Sub, Hr.
  - intros r after Ha.
    destruct (Hafter r after Ha) as [[Hnin Hb]|[Hin (before & Hb & Mo)]].
    + rewrite <- (Is r after Hb). split; [intros Hk; exfalso; apply Hnin, Sub, Hk|].
      intros Hin. contradiction.
    + assert (Ho : Trade.status before = open) by (apply (Is r before Hb), Hin).
      destruct Mo as [_ -> Hk|b _ U Hk].
      * tauto.
      * destruct (update_trade_keeps _ _ _ _ _ U) as (_ & _ & _ & _ & _ & _ & _ & Hs).
        destruct b.
        -- rewrite Hs. split; [|discriminate].
           intros Hin'. apply Hk in Hin'. discriminate.
        -- rewrite Hs, Ho. split; [reflexivity | intros _; now apply Hk].
  - now rewrite L.
  - assert (Hlen : (List.length kept <= List.length (Sim.open_trades st))%nat)
      by (apply NoDup_incl_length; [exact Nd | exact Sub]).
    lia.
  - apply Forall_nth_error. intros r after Ha.
    rewrite Forall_nth_error in It.
    destruct (Hafter r after Ha) as [[_ Hb]|[_ (before & Hb & Mo)]]; [eauto|].
    destruct Mo as [_ -> _|b _ U _]; [eauto|].
    eapply update_trade_ledger_ok; eauto.
  - exact Iw.
Qed.

Lemma max_of_Z_In (l : list Z) (m : Z) : max_of_Z l = Ok m -> In m l.
Proof.
  destruct l as [|x l]; simpl; [discriminate|]. intros H. inversion H; subst. clear H.
  revert x. induction l as [|y l IH]; intros x; simpl; [now left|].
  destruct (IH (if x <? y then y else x)) as [E|Hin].
  - rewrite <- E. destruct (x <? y); [right; now left | now left].
  - right. now right.
Qed.

Lemma confirmation_times_near (primary_pivot : Pivot.t)
    (pivots : list (string * list Pivot.t)) (as_of_time : Z) (interval : string)
    (config : MultiPivotConfig.t) (t : Z) :
  In t (map (fun c => Pivot.time (Confirmation.pivot c))
          (check_cascade_confirmation primary_pivot pivots as_of_time interval config)) ->
  t <= Pivot.time primary_pivot + 5 * 60 * 1000.
Proof.
  intros Hin. apply in_map_iff in Hin. destruct Hin as (c & <- & Hc).
  unfold check_cascade_confirmation in Hc.
  apply in_flat_map in Hc. destruct Hc as (tf & _ & Hc).
  match type of Hc with
  | In c (check_timeframe _ _ _ ?w _) =>
      assert (Hw : w <= 5 * 60 * 1000)
        by (destruct (dict_get _ _); [apply Zmin_py_le | lia]);
      destruct (check_timeframe_shape primary_pivot pivots as_of_time w tf)
        as [E|(p & E & _ & _ & Hd & _)]
  end; rewrite E in Hc; [destruct Hc|].
  destruct Hc as [<-|[]]. simpl. lia.
Qed.

(** What one evaluation of a window does to the ledger. *)
Lemma evaluate_window_ledger (env : Env.t) (minute_candle : Candle.t)
    (win : Window.t) (st : Sim.t) (stays : bool) (st' : Sim.t) :
  window_ok env win ->
  evaluate_window env minute_candle win st = Ok (stays, st') ->
  st' = st
  \/ (stays = false
      /\ Z.of_nat (List.length (Sim.open_trades st)) < max_trades (Env.trade_config env)
      /\ exists trade,
           st' = with_opened_trade st trade
           /\ Trade.status trade = open
           /\ ledger_trade_ok env trade).
Proof.
  intros [Wp Wt]. unfold evaluate_window.
  destruct (_ <? Candle.time minute_candle); [intros H; inversion H; now left|].
  destruct (meets_execution_requirements _ _); [|intros H; inversion H; now left].
  destruct (max_of_Z _) as [last|] eqn:Hl; [|discriminate]. cbn [bind].
  destruct (entry_price_override _ _) as [price|]; [|intros H; inversion H; now left].
  destruct (Qeq_bool price 0) eqn:Hz; [intros H; inversion H; now left|].
  destruct (apply_direction_filter _ _) as [side|] eqn:Hd;
    [|intros H; inversion H; now left].
  fold (max_trades (Env.trade_config env)).
  destruct (Z.ltb_spec (Z.of_nat (List.length (Sim.open_trades st)))
              (max_trades (Env.trade_config env))) as [Hcap|Hcap];
    [|intros H; inversion H; now left].
  intros H. inversion H; subst. clear H. right.
  split; [reflexivity|]. split; [exact Hcap|].
  eexists. split; [reflexivity|].
  apply max_of_Z_In, confirmation_times_near in Hl.
  split; [unfold create_trade; destruct side; reflexivity|].
  split.
  { unfold create_trade. destruct side; simpl;
      intros Hq; apply Qeq_bool_iff in Hq; congruence. }
  split; [unfold create_trade; destruct side; reflexivity|].
  split; [unfold create_trade; destruct side; reflexivity|].
  exists (Window.primary_pivot win).
  split; [unfold create_trade; destruct side; reflexivity|].
  split; [exact Wp|].
  split; [unfold create_trade; destruct side; exact Hd|].
  assert (Het : Trade.entry_time
                  (Trade.set_entry_price price
                     (create_trade side (Window.primary_pivot win)
                        (calculate_trade_size (Sim.capital st) (Env.trade_config env))
                        (Zmax_py (Pivot.time (Window.primary_pivot win)) last
                         + get_default
                             (TradeConfig.entry_delay_minutes (Env.trade_config env)) 0
                           * 60 * 1000)
                        (Env.primary_tf_name env) (Env.trade_config env)))
                = Zmax_py (Pivot.time (Window.primary_pivot win)) last
                  + get_default
                      (TradeConfig.entry_delay_minutes (Env.trade_config env)) 0
                    * 60 * 1000)
    by (unfold create_trade; destruct side; reflexivity).
  cbv zeta. rewrite Het. unfold Zmax_py.
  destruct (Z.ltb_spec (Pivot.time (Window.primary_pivot win)) last); lia.
Qed.

Lemma ledger_invariant_split (env : Env.t) (st : Sim.t) :
  ledger_invariant env st
  <-> ledger_core env st
      /\ Sim.confirmed_signals st + Z.of_nat (List.length (Sim.pending_windows st))
         <= Sim.total_signals st
      /\ Forall (window_ok env) (Sim.pending_windows st).
Proof. unfold ledger_invariant, ledger_core. tauto. Qed.

Lemma with_opened_trade_core (env : Env.t) (st : Sim.t) (trade : Trade.t) :
  ledger_core env st ->
  Z.of_nat (List.length (Sim.open_trades st)) < max_trades (Env.trade_config env) ->
  Trade.status trade = open ->
  ledger_trade_ok env trade ->
  ledger_core env (with_opened_trade st trade).
Proof.
  intros (Iv & Nd & Is & Ic & Icap & It) Hcap Ho Hok.
  unfold ledger_core, with_opened_trade. simpl.
  rewrite !length_app. simpl.
  rewrite Forall_forall in Iv.
  split; [|split; [|split; [|split; [|split]]]].
  - apply Forall_forall. intros r Hr. apply in_app_or in Hr.
    destruct Hr as [Hr|[<-|[]]]; [specialize (Iv r Hr)|]; lia.
  - apply NoDup_app; [exact Nd | repeat constructor; intros [] |].
    intros r Hr [<-|[]]. specialize (Iv _ Hr). lia.
  - intros r t Ht.
    destruct (Nat.lt_ge_cases r (List.length (Sim.all_trades st))) as [Hlt|Hge].
    + rewrite nth_error_app1 in Ht by assumption.
      rewrite <- (Is r t Ht). rewrite in_app_iff. simpl.
      split; [intros [H|[H|[]]]; [exact H | lia] | auto].
    + rewrite nth_error_app2 in Ht by assumption.
      destruct (r - List.length (Sim.all_trades st))%nat as [|k] eqn:Ek.
      * simpl in Ht. inversion Ht; subst t.
        assert (r = List.length (Sim.all_trades st)) by lia. subst r.
        split; [intros _; exact Ho|]. intros _. apply in_or_app. right. now left.
      * simpl in Ht. destruct k; discriminate.
  - lia.
  - lia.
  - apply Forall_app. split; [exact It | now constructor].
Qed.

Lemma evaluate_windows_ledger (env : Env.t) (minute_candle : Candle.t)
    (wins : list Window.t) (st : Sim.t) (kept : list Window.t) (st' : Sim.t) :
  Forall (window_ok env) wins ->
  ledger_core env st ->
  evaluate_windows env minute_candle wins st = Ok (kept, st') ->
  ledger_core env st'
  /\ Forall (window_ok env) kept
  /\ Sim.confirmed_signals st' + Z.of_nat (List.length kept)
     <= Sim.confirmed_signals st + Z.of_nat (List.length wins)
  /\ Sim.total_signals st' = Sim.total_signals st
  /\ Sim.applied_funding_rates st' = Sim.applied_funding_rates st.
Proof.
  intros Hw Hc. revert kept st'.
  induction Hw as [|w wins Hw0 Hw IH]; simpl; intros kept st' H.
  - inversion H; subst. split; [exact Hc|]. split; [constructor|].
    split; [simpl; lia|]. split; reflexivity.
  - destruct (evaluate_windows env minute_candle wins st) as [[k1 s1]|] eqn:E;
      [|discriminate].
    cbn [bind] in H.
    destruct (IH _ _ eq_refl) as (C1 & W1 & N1 & T1 & F1).
    destruct (evaluate_window env minute_candle w s1) as [[b s2]|] eqn:W;
      [|discriminate].
    cbn [bind] in H. inversion H; subst. clear H.
    destruct (evaluate_window_ledger _ _ _ _ _ _ Hw0 W)
      as [->|(-> & Hcap & trade & -> & Ho & Hok)].
    + split; [exact C1|].
      split; [destruct b; [now constructor | exact W1]|].
      split; [destruct b; simpl List.length; lia|]. split; assumption.
    + split; [now apply with_opened_trade_core|].
      split; [exact W1|]. simpl. split; [lia|]. split; assumption.
Qed.

Lemma process_minute_ledger (env : Env.t) (st : Sim.t) (c : Candle.t) (st' : Sim.t) :
  ledger_invariant env st -> process_minute env st c = Ok st' ->
  ledger_invariant env st'
  /\ Sim.applied_funding_rates st' = Sim.applied_funding_rates st
  /\ Sim.total_signals st' = Sim.total_signals st.
Proof.
  intros Hi. unfold process_minute.
  destruct (monitor_trades _ _ _ _ _) as [[[o1 c1] s1]|] eqn:M; [|discriminate].
  cbn [bind]. apply (monitor_trades_ledger env c st _ _ _ Hi) in M.
  set (st1 := Sim.mk c1 o1 s1 _ _ _ _ _) in *.
  apply ledger_invariant_split in M. destruct M as (Mc & Ms & Mw).
  match goal with |- (if ?b then _ else _) = _ -> _ => destruct b end.
  - destruct (evaluate_windows _ _ _ _) as [[k s2]|] eqn:E; [|discriminate].
    cbn [bind]. intros H. inversion H; subst. clear H.
    destruct (evaluate_windows_ledger _ _ _ _ _ _ Mw Mc E) as (C & W & N & T & F).
    split; [|split; [exact F | exact T]].
    apply ledger_invariant_split. simpl.
    split; [exact C|]. split; [|exact W].
    unfold st1 in *. simpl in *. lia.
  - intros H. inversion H; subst. split; [|split; reflexivity].
    apply ledger_invariant_split. auto.
Qed.

Lemma process_primary_candle_ledger (env : Env.t) (st : Sim.t) (c : Candle.t)
    (st' : Sim.t) :
  ledger_invariant env st -> process_primary_candle env st c = Ok st' ->
  ledger_invariant env st'.
Proof.
  intros Hi. unfold process_primary_candle.
  destruct (parse_timeframe_to_minutes _) as [m|]; [|discriminate]. cbn [bind].
  destruct (deref_all _ _) as [trs|]; [|discriminate]. cbn [bind].
  destruct (apply_funding_rates _ _ _ _ _) as [[cap app]|]; [|discriminate].
  cbn [bind].
  set (st1 := Sim.mk cap _ _ _ _ _ _ app).
  assert (H1 : ledger_invariant env st1) by exact Hi.
  destruct (foldM _ _ _) as [s1|] eqn:F; [|discriminate]. cbn [bind].
  apply (foldM_invariant (ledger_invariant env)) in F;
    [| intros s x s' Hs Hx; exact (proj1 (process_minute_ledger env s x s' Hs Hx))
     | exact H1].
  destruct (find _ _) as [pv|] eqn:Ef; intros H; inversion H; subst; [|exact F].
  apply ledger_invariant_split in F. destruct F as (Fc & Fs & Fw).
  apply ledger_invariant_split. simpl.
  split; [exact Fc|].
  apply find_some in Ef. destruct Ef as [Hin Et]. apply Z.eqb_eq in Et.
  split.
  - rewrite length_app. simpl. lia.
  - apply Forall_app. split; [exact Fw|].
    constructor; [|constructor]. split; [exact Hin | now symmetry].
Qed.

Lemma process_primary_candle_total (env : Env.t) (st : Sim.t) (c : Candle.t)
    (st' : Sim.t) :
  ledger_invariant env st -> process_primary_candle env st c = Ok st' ->
  Sim.total_signals st <= Sim.total_signals st' <= Sim.total_signals st + 1.
Proof.
  intros Hi. unfold process_primary_candle.
  destruct (parse_timeframe_to_minutes _) as [m|]; [|discriminate]. cbn [bind].
  destruct (deref_all _ _) as [trs|]; [|discriminate]. cbn [bind].
  destruct (apply_funding_rates _ _ _ _ _) as [[cap app]|]; [|discriminate].
  cbn [bind].
  set (st1 := Sim.mk cap _ _ _ _ _ _ app).
  assert (H1 : ledger_invariant env st1) by exact Hi.
  destruct (foldM _ _ _) as [s1|] eqn:F; [|discriminate]. cbn [bind].
  apply (foldM_invariant
           (fun s => ledger_invariant env s
                     /\ Sim.total_signals s = Sim.total_signals st)) in F.
  - destruct F as [_ Ft].
    destruct (find _ _); intros H; inversion H; subst; simpl; lia.
  - intros s x s' [Hs Ht] Hx.
    destruct (process_minute_ledger env s x s' Hs Hx) as (L & _ & T).
    split; [exact L | congruence].
  - split; [exact H1 | reflexivity].
Qed.

Lemma loop_total_signals (env : Env.t) (candles : list Candle.t) (st st' : Sim.t) :
  ledger_invariant env st ->
  foldM (process_primary_candle env) candles st = Ok st' ->
  Sim.total_signals st <= Sim.total_signals st'
  <= Sim.total_signals st + Z.of_nat (List.length candles).
Proof.
  revert st. induction candles as [|c candles IH]; simpl; intros st Hi H.
  - inversion H; subst. lia.
  - destruct (process_primary_candle env st c) as [s1|] eqn:E; [|discriminate].
    cbn [bind] in H.
    pose proof (process_primary_candle_total env st c s1 Hi E).
    pose proof (IH s1 (process_primary_candle_ledger env st c s1 Hi E) H).
    lia.
Qed.

Lemma ledger_loop (env : Env.t) (candles : list Candle.t) (st st' : Sim.t) :
  ledger_invariant env st ->
  foldM (process_primary_candle env) candles st = Ok st' ->
  ledger_invariant env st'.
Proof.
  intros Hi F. eapply (foldM_invariant (ledger_invariant env)); eauto.
  intros. eapply process_primary_candle_ledger; eauto.
Qed.

Lemma ledger_init (env : Env.t) (capital : Q) : ledger_invariant env (Sim.init capital).
Proof.
  unfold ledger_invariant, Sim.init. simpl.
  split; [constructor|]. split; [constructor|].
  split; [intros r trade H; destruct r; discriminate|].
  split; [reflexivity|]. split; [lia|]. split; [lia|].
  split; constructor.
Qed.

(** ** The closing block and the ledger *)

Lemma ledger_final (env : Env.t) (st : Sim.t) :
  ledger_invariant env st -> final_ledger env st.
Proof.
  intros (Iv & Nd & Is & Ic & Isg & Icap & It & _).
  unfold final_ledger. repeat (split; [assumption|]).
  split; [|repeat (split; [assumption|]); assumption].
  intros r trade Hn Ho. now apply (Is r trade Hn).
Qed.

Lemma close_one_final (env : Env.t) (c : Candle.t) (st : Sim.t) (r : nat)
    (st' : Sim.t) :
  final_ledger env st -> In r (Sim.open_trades st) ->
  close_one env c st r = Ok st' ->
  final_ledger env st'
  /\ Sim.open_trades st' = Sim.open_trades st
  /\ Sim.total_signals st' = Sim.total_signals st.
Proof.
  intros (Iv & Nd & Is & Ic & Isg & Icap & It) Hin. unfold close_one.
  destruct (deref (Sim.all_trades st) r) as [tr|] eqn:D; [|discriminate].
  cbn [bind].
  destruct (update_trade tr c (Env.trade_config env)) as [[tr' b]|] eqn:U;
    [|discriminate].
  cbn [bind fst]. intros H. inversion H; subst. clear H.
  split; [|split; reflexivity].
  unfold final_ledger. simpl. rewrite store_set_length.
  repeat (split; [assumption|]).
  split; [|repeat (split; [assumption|])].
  - intros r' trade Hn Ho.
    destruct (Nat.eq_dec r r') as [<-|Hne]; [exact Hin|].
    rewrite store_set_other in Hn by exact Hne. now apply (Is r' trade).
  - apply store_set_Forall; [exact It|].
    eapply update_trade_ledger_ok; [exact U|].
    exact (deref_Forall _ _ _ _ It D).
Qed.

Lemma close_fold_final (env : Env.t) (c : Candle.t) (refs : list nat)
    (st st' : Sim.t) :
  final_ledger env st -> incl refs (Sim.open_trades st) ->
  foldM (close_one env c) refs st = Ok st' ->
  final_ledger env st'
  /\ Sim.open_trades st' = Sim.open_trades st
  /\ Sim.total_signals st' = Sim.total_signals st.
Proof.
  revert st. induction refs as [|r refs IH]; simpl; intros st Hf Hi H.
  - inversion H; subst. auto.
  - destruct (close_one env c st r) as [s1|] eqn:E; [|discriminate].
    cbn [bind] in H.
    destruct (close_one_final env c st r s1 Hf (Hi r (or_introl eq_refl)) E)
      as (F1 & O1 & T1).
    destruct (IH s1 F1) as (F2 & O2 & T2); [|exact H|].
    + rewrite O1. intros x Hx. apply Hi. now right.
    + split; [exact F2|]. split; congruence.
Qed.

Lemma close_remaining_final (env : Env.t) (primary_candles : list Candle.t)
    (st st' : Sim.t) :
  final_ledger env st -> close_remaining env primary_candles st = Ok st' ->
  final_ledger env st'
  /\ Sim.open_trades st' = Sim.open_trades st
  /\ Sim.total_signals st' = Sim.total_signals st.
Proof.
  intros Hf. unfold close_remaining.
  destruct (Sim.open_trades st) as [|r refs] eqn:Eo.
  { intros H. inversion H; subst. auto. }
  destruct (getitem primary_candles (-1)) as [last_candle|]; [|discriminate].
  unfold bind at 1. rewrite <- Eo. intros F.
  apply (close_fold_final env last_candle _ st st' Hf (incl_refl _) F).
Qed.

Lemma simulate_final (env : Env.t) (primary_candles : list Candle.t)
    (capital : Q) (st : Sim.t) :
  simulate env primary_candles (Sim.init capital) = Ok st ->
  final_ledger env st
  /\ Sim.total_signals st <= Z.of_nat (List.length primary_candles).
Proof.
  unfold simulate.
  destruct (foldM _ _ _) as [s1|] eqn:F; [|discriminate]. cbn [bind].
  intros H.
  pose proof (ledger_loop env _ _ _ (ledger_init env capital) F) as L.
  pose proof (loop_total_signals env _ _ _ (ledger_init env capital) F) as T.
  destruct (close_remaining_final env _ _ _ (ledger_final env s1 L) H)
    as (F1 & _ & T1).
  split; [exact F1|]. simpl in T. lia.
Qed.

(** ** Counting the open trades *)

Lemma open_positions_length (from : nat) (trades : list Trade.t) :
  List.length (open_positions from trades) = open_count trades.
Proof.
  unfold open_count. revert from.
  induction trades as [|trade rest IH]; simpl; intros from; [reflexivity|].
  destruct (is_open trade); simpl; now rewrite IH.
Qed.

Lemma open_positions_In (from : nat) (trades : list Trade.t) (r : nat) :
  In r (open_positions from trades)
  <-> (from <= r)%nat
      /\ exists trade, nth_error trades (r - from) = Some trade
                       /\ Trade.status trade = open.
Proof.
  revert from. induction trades as [|trade rest IH]; simpl; intros from.
  - split; [intros [] | intros (_ & t & Ht & _)].
    destruct (r - from)%nat; discriminate.
  - assert (Hrest : In r (open_positions (S from) rest)
                    <-> (from < r)%nat
                        /\ exists t, nth_error (trade :: rest) (r - from) = Some t
                                     /\ Trade.status t = open).
    { rewrite IH. split; intros (Hl & t & Ht & Ho).
      - split; [lia|]. exists t. split; [|exact Ho].
        replace (r - from)%nat with (S (r - S from)) by lia. exact Ht.
      - split; [lia|]. exists t. split; [|exact Ho].
        replace (r - from)%nat with (S (r - S from)) in Ht by lia. exact Ht. }
    unfold is_open. destruct (Trade.status trade) eqn:Es; simpl; rewrite Hrest.
    + split.
      * intros [<-|(Hl & Hx)]; [|split; [lia | exact Hx]].
        split; [lia|]. exists trade. rewrite Nat.sub_diag. now split.
      * intros (Hl & Hx).
        destruct (Nat.eq_dec from r) as [Heq|Hne]; [now left|].
        right. split; [lia | exact Hx].
    + split; [intros (Hl & Hx); split; [lia | exact Hx]|].
      intros (Hl & t & Ht & Ho).
      destruct (Nat.eq_dec from r) as [<-|Hne].
      * rewrite Nat.sub_diag in Ht. simpl in Ht. inversion Ht; subst. congruence.
      * split; [lia|]. exists t. now split.
Qed.

Lemma open_positions_NoDup (from : nat) (trades : list Trade.t) :
  NoDup (open_positions from trades).
Proof.
  revert from. induction trades as [|trade rest IH]; simpl; intros from;
    [constructor|].
  destruct (is_open trade); [|apply IH].
  constructor; [|apply IH].
  intros Hin. apply open_positions_In in Hin. lia.
Qed.

Lemma open_count_le (trades : list Trade.t) (refs : list nat) :
  (forall r trade, nth_error trades r = Some trade ->
     Trade.status trade = open -> In r refs) ->
  (open_count trades <= List.length refs)%nat.
Proof.
  intros H. rewrite <- (open_positions_length 0).
  apply NoDup_incl_length; [apply open_positions_NoDup|].
  intros r Hr. apply open_positions_In in Hr.
  destruct Hr as (_ & t & Ht & Ho). rewrite Nat.sub_0_r in Ht. eauto.
Qed.

Lemma open_count_eq (trades : list Trade.t) (refs : list nat) :
  NoDup refs ->
  Forall (fun r => (r < List.length trades)%nat) refs ->
  (forall r trade, nth_error trades r = Some trade ->
     (In r refs <-> Trade.status trade = open)) ->
  open_count trades = List.length refs.
Proof.
  intros Nd Hv H. apply Nat.le_antisymm.
  - apply open_count_le. intros r t Ht Ho. now apply (H r t Ht).
  - rewrite <- (open_positions_length 0).
    apply NoDup_incl_length; [exact Nd|].
    intros r Hr. apply open_positions_In. split; [lia|].
    rewrite Forall_forall in Hv. specialize (Hv r Hr).
    destruct (nth_error trades r) as [t|] eqn:Et.
    + exists t. rewrite Nat.sub_0_r. split; [exact Et|]. now apply (H r t Et).
    + apply nth_error_None in Et. lia.
Qed.

(** ** The ledger at the end of a run *)

Lemma run_simulate (pivot_detection_mode : string)
    (trade_config : TradeConfig.t) (multi_pivot_config : MultiPivotConfig.t)
    (one_minute_candles : list Candle.t) (st : Sim.t) :
  run_immediate_aggregation_backtest pivot_detection_mode trade_config
    multi_pivot_config one_minute_candles = Ok (Some st) ->
  exists env primary_candles,
    Env.trade_config env = trade_config
    /\ Env.multi_pivot_config env = multi_pivot_config
    /\ simulate env primary_candles
         (Sim.init (TradeConfig.initial_capital trade_config)) = Ok st.
Proof.
  unfold run_immediate_aggregation_backtest.
  destruct one_minute_candles as [|c0 cs]; [discriminate|].
  destruct (build_timeframe_data _ _) as [td|]; [|discriminate]. cbn [bind].
  destruct (build_timeframe_pivots _ _ _) as [tp|]; [|discriminate]. cbn [bind].
  destruct (find_primary _) as [[ptf|]|]; try discriminate. cbn [bind].
  destruct (dict_get td _) as [pcs|]; [|discriminate]. cbn [bind].
  destruct (dict_get tp _) as [pps|]; [|discriminate]. cbn [bind].
  destruct (get_default (dict_get td "1m") []) as [|m ms]; [discriminate|].
  destruct (simulate _ _ _) as [s1|] eqn:S; [|discriminate]. cbn [bind].
  intros H. inversion H; subst. eexists. exists pcs.
  split; [|split; [|exact S]]; reflexivity.
Qed.

(** X17.  The counters of a run add up.  When the simulation returns,
    [confirmed_signals] is not negative, [confirmed_signals] plus the
    number of windows still pending is at most [total_signals],
    [total_signals] is at most the number of primary candles, and
    [executed_trades] is the number of trades in [all_trades]; so the
    confirmation rate of the summary never exceeds 100 per cent. *)
Theorem signal_accounting :
  (forall env primary_candles capital st,
      simulate env primary_candles (Sim.init capital) = Ok st ->
      0 <= Sim.confirmed_signals st
      /\ Sim.confirmed_signals st + Z.of_nat (List.length (Sim.pending_windows st))
         <= Sim.total_signals st
      /\ Sim.total_signals st <= Z.of_nat (List.length primary_candles)
      /\ Sim.executed_trades st = Z.of_nat (List.length (Sim.all_trades st)))
  /\ (forall pivot_detection_mode trade_config multi_pivot_config one_minute_candles st,
         run_immediate_aggregation_backtest pivot_detection_mode trade_config
           multi_pivot_config one_minute_candles = Ok (Some st) ->
         0 <= Sim.confirmed_signals st <= Sim.total_signals st
         /\ Sim.executed_trades st = Z.of_nat (List.length (Sim.all_trades st))).
Proof.
  assert (Hsim : forall env primary_candles capital st,
             simulate env primary_candles (Sim.init capital) = Ok st ->
             0 <= Sim.confirmed_signals st
             /\ Sim.confirmed_signals st
                + Z.of_nat (List.length (Sim.pending_windows st))
                <= Sim.total_signals st
             /\ Sim.total_signals st <= Z.of_nat (List.length primary_candles)
             /\ Sim.executed_trades st = Z.of_nat (List.length (Sim.all_trades st))).
  { intros env cs capital st S.
    destruct (simulate_final env cs capital st S)
      as ((_ & _ & _ & Ic & Isg & _ & _) & T).
    destruct (simulate_invariant env cs _ st (init_invariant env capital) S)
      as [Hagree _].
    unfold counters_agree in Hagree.
    split; [lia|]. split; [exact Isg|]. split; [exact T | exact Ic]. }
  split; [exact Hsim|].
  intros m tc mc cs st R.
  destruct (run_simulate _ _ _ _ _ R) as (env & pcs & _ & _ & S).
  destruct (Hsim env pcs _ st S) as (H0 & H1 & _ & H3).
  split; [lia | exact H3].
Qed.

Lemma signal_accounting_witness :
  exists st,
    run_immediate_aggregation_backtest "close" sample_trade_config
      sample_multi_pivot_config sample_candles = Ok (Some st)
    /\ 0 <= Sim.confirmed_signals st <= Sim.total_signals st
    /\ Sim.executed_trades st = Z.of_nat (List.length (Sim.all_trades st)).
Proof.
  eexists. split; [vm_compute; reflexivity|].
  apply (proj2 signal_accounting "close" sample_trade_config
           sample_multi_pivot_config sample_candles).
  vm_compute. reflexivity.
Defined.

(** X18.  The concurrency cap holds.  After any number of primary
    candles the trades of the ledger whose status is [open] are as many
    as the entries of [open_trades], and at most [max_trades] (1 in
    single-trade mode, else [max_concurrent_trades]) or none when that is
    negative; the same bound holds when the simulation and a run
    return. *)
Theorem open_trades_within_cap :
  (forall env candles capital st,
      foldM (process_primary_candle env) candles (Sim.init capital) = Ok st ->
      open_count (Sim.all_trades st) = List.length (Sim.open_trades st)
      /\ Z.of_nat (open_count (Sim.all_trades st))
         <= Z.max 0 (max_trades (Env.trade_config env)))
  /\ (forall env primary_candles capital st,
         simulate env primary_candles (Sim.init capital) = Ok st ->
         Z.of_nat (open_count (Sim.all_trades st))
         <= Z.max 0 (max_trades (Env.trade_config env)))
  /\ (forall pivot_detection_mode trade_config multi_pivot_config one_minute_candles st,
         run_immediate_aggregation_backtest pivot_detection_mode trade_config
           multi_pivot_config one_minute_candles = Ok (Some st) ->
         Z.of_nat (open_count (Sim.all_trades st)) <= Z.max 0 (max_trades trade_config)).
Proof.
  assert (Hsim : forall env primary_candles capital st,
             simulate env primary_candles (Sim.init capital) = Ok st ->
             Z.of_nat (open_count (Sim.all_trades st))
             <= Z.max 0 (max_trades (Env.trade_config env))).
  { intros env cs capital st S.
    destruct (simulate_final env cs capital st S)
      as ((_ & _ & Is & _ & _ & Icap & _) & _).
    pose proof (open_count_le _ _ Is). lia. }
  split; [|split; [exact Hsim|]].
  - intros env cs capital st F.
    destruct (ledger_loop env cs _ st (ledger_init env capital) F)
      as (Iv & Nd & Is & _ & _ & Icap & _).
    rewrite (open_count_eq _ _ Nd Iv Is). split; [reflexivity | exact Icap].
  - intros m tc mc cs st R.
    destruct (run_simulate _ _ _ _ _ R) as (env & pcs & <- & _ & S).
    exact (Hsim env pcs _ st S).
Qed.

Lemma open_trades_within_cap_witness :
  exists st,
    run_immediate_aggregation_backtest "close" sample_trade_config
      sample_multi_pivot_config sample_candles = Ok (Some st)
    /\ open_count (Sim.all_trades st) = 1%nat
    /\ Z.of_nat (open_count (Sim.all_trades st))
       <= Z.max 0 (max_trades sample_trade_config).
Proof.
  eexists. split; [vm_compute; reflexivity|].
  split; [reflexivity|].
  apply (proj2 (proj2 open_trades_within_cap) "close" sample_trade_config
           sample_multi_pivot_config sample_candles).
  vm_compute. reflexivity.
Defined.

(** X19.  [open_trades] holds the open trades and nothing else.  After
    any number of primary candles no trade is listed twice in
    [open_trades], every entry is a trade of [all_trades] with status
    [open], and every trade of [all_trades] with status [open] is listed.
    The closing block pops nothing: when the simulation returns, each
    trade with status [open] is still listed, once. *)
Theorem open_trades_are_the_open_trades :
  (forall env candles capital st,
      foldM (process_primary_candle env) candles (Sim.init capital) = Ok st ->
      NoDup (Sim.open_trades st)
      /\ (forall r, In r (Sim.open_trades st) ->
            exists trade, nth_error (Sim.all_trades st) r = Some trade
                          /\ Trade.status trade = open)
      /\ (forall r trade, nth_error (Sim.all_trades st) r = Some trade ->
            Trade.status trade = open -> In r (Sim.open_trades st)))
  /\ (forall env primary_candles capital st,
         simulate env primary_candles (Sim.init capital) = Ok st ->
         NoDup (Sim.open_trades st)
         /\ (forall r, In r (Sim.open_trades st) ->
               exists trade, nth_error (Sim.all_trades st) r = Some trade)
         /\ (forall r trade, nth_error (Sim.all_trades st) r = Some trade ->
               Trade.status trade = open -> In r (Sim.open_trades st))).
Proof.
  split.
  - intros env cs capital st F.
    destruct (ledger_loop env cs _ st (ledger_init env capital) F)
      as (Iv & Nd & Is & _).
    rewrite Forall_forall in Iv.
    split; [exact Nd|]. split.
    + intros r Hr. specialize (Iv r Hr).
      destruct (nth_error (Sim.all_trades st) r) as [t|] eqn:Et.
      * exists t. split; [reflexivity|]. now apply (Is r t Et).
      * apply nth_error_None in Et. lia.
    + intros r t Ht Ho. now apply (Is r t Ht).
  - intros env cs capital st S.
    destruct (simulate_final env cs capital st S) as ((Iv & Nd & Is & _) & _).
    rewrite Forall_forall in Iv.
    split; [exact Nd|]. split; [|exact Is].
    intros r Hr. specialize (Iv r Hr).
    destruct (nth_error (Sim.all_trades st) r) as [t|] eqn:Et; [eauto|].
    apply nth_error_None in Et. lia.
Qed.

Lemma open_trades_are_the_open_trades_witness :
  exists st,
    simulate sample_env sample_candles (Sim.init 10000%Q) = Ok st
    /\ Sim.open_trades st = [0%nat]
    /\ NoDup (Sim.open_trades st)
    /\ (forall r, In r (Sim.open_trades st) ->
          exists trade, nth_error (Sim.all_trades st) r = Some trade)
    /\ (forall r trade, nth_error (Sim.all_trades st) r = Some trade ->
          Trade.status trade = open -> In r (Sim.open_trades st)).
Proof.
  eexists. split; [vm_compute; reflexivity|].
  split; [reflexivity|].
  apply (proj2 open_trades_are_the_open_trades sample_env sample_candles 10000%Q).
  vm_compute. reflexivity.
Defined.

(** X20.  Where the trades of a run come from.  When the simulation
    returns, every trade of [all_trades] has a nonzero entry price, the
    primary timeframe's name and the configured leverage; its pivot is a
    pivot of the primary timeframe that the direction filter maps to the
    trade's type; and its entry time lies between that pivot's time and
    five minutes later, both shifted by the configured entry delay. *)
Theorem trades_come_from_primary_pivots (env : Env.t)
    (primary_candles : list Candle.t) (capital : Q) (st : Sim.t) :
  simulate env primary_candles (Sim.init capital) = Ok st ->
  Forall (ledger_trade_ok env) (Sim.all_trades st).
Proof.
  intros S. destruct (simulate_final env _ capital st S) as (F & _).
  apply F.
Qed.

Lemma trades_come_from_primary_pivots_witness :
  exists st,
    simulate sample_env sample_candles (Sim.init 10000%Q) = Ok st
    /\ List.length (Sim.all_trades st) = 1%nat
    /\ Forall (ledger_trade_ok sample_env) (Sim.all_trades st).
Proof.
  eexists. split; [vm_compute; reflexivity|].
  split; [reflexivity|].
  apply (trades_come_from_primary_pivots sample_env sample_candles 10000%Q).
  vm_compute. reflexivity.
Defined.

(** ** When the simulation cannot raise *)















(** ** The life of a trade and the capital *)

Lemma update_trade_exit_fields (trade : Trade.t) (c : Candle.t)
    (config : TradeConfig.t) (trade' : Trade.t) (b : bool) :
  update_trade trade c config = Ok (trade', b) ->
  if b then Trade.exit_price trade' = Some (Candle.close c)
            /\ Trade.exit_time trade' = Some (Candle.time c)
  else Trade.pnl trade' = Trade.pnl trade
       /\ Trade.exit_price trade' = Trade.exit_price trade
       /\ Trade.exit_time trade' = Trade.exit_time trade.
Proof.
  unfold update_trade, update_best_price.
  destruct (is_long trade); destruct (Qltb _ _);
    (destruct (exit_condition _ _) as [[] reason];
     [destruct (truediv _ _); [|discriminate]; cbn [bind]|]);
    intros H; inversion H; subst; repeat split.
Qed.

Lemma update_trade_life (exit_candle : Z -> Candle.t -> Prop) (trade : Trade.t)
    (c : Candle.t) (config : TradeConfig.t) (trade' : Trade.t) (b : bool) :
  update_trade trade c config = Ok (trade', b) ->
  exit_candle (Trade.entry_time trade) c ->
  trade_life exit_candle trade -> trade_life exit_candle trade'.
Proof.
  intros U Hc Hl.
  destruct (update_trade_keeps _ _ _ _ _ U) as (Kt & _ & _ & Ke & _ & _ & _ & Ks).
  destruct (update_trade_decision _ _ _ _ _ U) as (Hb & Ktp & Ksl).
  pose proof (update_trade_exit_fields _ _ _ _ _ U) as Hx.
  unfold trade_life in *. destruct b.
  - rewrite Ks. exists c. rewrite Ke, Kt, Ktp, Ksl.
    split; [exact Hc|]. split; [apply Hx|]. split; [apply Hx|]. now apply Hb.
  - destruct Hx as (Xp & Xe & Xt). rewrite Ks, Xp, Xe, Xt, Ke, Kt, Ktp, Ksl.
    exact Hl.
Qed.

Lemma trade_life_weaken (ok ok' : Z -> Candle.t -> Prop) (trade : Trade.t) :
  (forall t c, ok t c -> ok' t c) -> trade_life ok trade -> trade_life ok' trade.
Proof.
  intros Hw. unfold trade_life. destruct (Trade.status trade); [auto|].
  intros (c & Hc & H). exists c. split; [now apply Hw | exact H].
Qed.

Lemma monitor_trades_Forall (P : Trade.t -> Prop) (config : TradeConfig.t)
    (c : Candle.t) (refs : list nat) (capital : Q) (store : list Trade.t)
    (kept : list nat) (capital' : Q) (store' : list Trade.t) :
  (forall tr tr' b, P tr -> Trade.entry_time tr <= Candle.time c ->
     update_trade tr c config = Ok (tr', b) -> P tr') ->
  monitor_trades c config refs capital store = Ok (kept, capital', store') ->
  Forall P store -> Forall P store'.
Proof.
  intros Hstep. revert kept capital' store'.
  induction refs as [|r refs IH]; simpl; intros kept capital' store' H Hs.
  - inversion H; subst. exact Hs.
  - destruct (monitor_trades c config refs capital store) as [[[k1 c1] s1]|] eqn:E;
      [|discriminate].
    cbn [bind] in H. specialize (IH _ _ _ eq_refl Hs).
    destruct (deref s1 r) as [tr|] eqn:D; [|discriminate]. cbn [bind] in H.
    destruct (Z.leb_spec (Trade.entry_time tr) (Candle.time c)) as [Hle|Hgt].
    + destruct (update_trade tr c config) as [[tr' b]|] eqn:U; [|discriminate].
      cbn [bind] in H.
      assert (Forall P (store_set s1 r tr')).
      { apply store_set_Forall; [exact IH|].
        apply (Hstep tr tr' b); [|exact Hle | exact U].
        apply deref_nth in D. rewrite Forall_forall in IH. apply IH.
        eapply nth_error_In; eauto. }
      destruct b; inversion H; subst; assumption.
    + inversion H; subst. exact IH.
Qed.

Lemma evaluate_window_fresh (env : Env.t) (minute_candle : Candle.t)
    (win : Window.t) (st : Sim.t) (stays : bool) (st' : Sim.t) :
  evaluate_window env minute_candle win st = Ok (stays, st') ->
  st' = st
  \/ exists trade,
       st' = with_opened_trade st trade
       /\ Trade.status trade = open
       /\ Trade.pnl trade = 0%Q
       /\ Trade.exit_price trade = None
       /\ Trade.exit_time trade = None.
Proof.
  unfold evaluate_window.
  destruct (_ <? Candle.time minute_candle); [intros H; inversion H; now left|].
  destruct (meets_execution_requirements _ _); [|intros H; inversion H; now left].
  destruct (max_of_Z _) as [last|]; [|discriminate]. cbn [bind].
  destruct (entry_price_override _ _) as [price|]; [|intros H; inversion H; now left].
  destruct (Qeq_bool price 0); [intros H; inversion H; now left|].
  destruct (apply_direction_filter _ _) as [side|];
    [|intros H; inversion H; now left].
  match goal with |- (if ?b then _ else _) = _ -> _ => destruct b end;
    [|intros H; inversion H; now left].
  intros H. inversion H; subst. right. eexists. split; [reflexivity|].
  unfold create_trade. destruct side; repeat split.
Qed.

Lemma realized_pnl_snoc (trades : list Trade.t) (trade : Trade.t) :
  (realized_pnl (trades ++ [trade]) == realized_pnl trades + Trade.pnl trade)%Q.
Proof.
  induction trades as [|t l IHl]; simpl; [ring|]. rewrite IHl. ring.
Qed.

Lemma evaluate_windows_fresh (env : Env.t) (minute_candle : Candle.t)
    (ok : Z -> Candle.t -> Prop) (wins : list Window.t) (st : Sim.t)
    (kept : list Window.t) (st' : Sim.t) :
  evaluate_windows env minute_candle wins st = Ok (kept, st') ->
  (Forall (trade_life ok) (Sim.all_trades st) ->
   Forall (trade_life ok) (Sim.all_trades st'))
  /\ Sim.capital st' = Sim.capital st
  /\ (realized_pnl (Sim.all_trades st') == realized_pnl (Sim.all_trades st))%Q.
Proof.
  revert kept st'. induction wins as [|w wins IH]; simpl; intros kept st' H.
  - inversion H; subst. split; [auto|]. split; reflexivity.
  - destruct (evaluate_windows env minute_candle wins st) as [[k1 s1]|] eqn:E;
      [|discriminate].
    cbn [bind] in H. destruct (IH _ _ eq_refl) as (L1 & C1 & R1).
    destruct (evaluate_window env minute_candle w s1) as [[b s2]|] eqn:W;
      [|discriminate].
    cbn [bind] in H. inversion H; subst. clear H.
    destruct (evaluate_window_fresh _ _ _ _ _ _ W)
      as [->|(trade & -> & Ho & Hp & Hx & Ht)]; [auto|].
    simpl. split; [|split; [exact C1|]].
    + intros Hl. apply Forall_app. split; [now apply L1|].
      constructor; [|constructor]. unfold trade_life. rewrite Ho. auto.
    + rewrite realized_pnl_snoc, Hp, R1. ring.
Qed.

Lemma realized_pnl_store_set (store : list Trade.t) (r : nat)
    (old new : Trade.t) :
  nth_error store r = Some old ->
  (realized_pnl (store_set store r new)
   == realized_pnl store - Trade.pnl old + Trade.pnl new)%Q.
Proof.
  revert r. induction store as [|x store IH]; intros [|r]; simpl; intros H;
    try discriminate.
  - inversion H; subst. ring.
  - rewrite (IH r H). ring.
Qed.

Lemma monitor_trades_books (config : TradeConfig.t) (c : Candle.t)
    (refs : list nat) (capital : Q) (store : list Trade.t)
    (kept : list nat) (capital' : Q) (store' : list Trade.t) :
  monitor_trades c config refs capital store = Ok (kept, capital', store') ->
  NoDup refs ->
  (forall r trade, In r refs -> nth_error store r = Some trade ->
     Trade.pnl trade = 0%Q) ->
  (capital' + realized_pnl store == capital + realized_pnl store')%Q.
Proof.
  revert kept capital' store'.
  induction refs as [|r refs IH]; simpl; intros kept capital' store' H Nd Hz.
  - inversion H; subst. reflexivity.
  - destruct (monitor_trades c config refs capital store) as [[[k1 c1] s1]|] eqn:E;
      [|discriminate].
    cbn [bind] in H. inversion Nd as [|? ? Hr Nd']; subst.
    assert (B1 : (c1 + realized_pnl store == capital + realized_pnl s1)%Q).
    { apply (IH _ _ _ eq_refl Nd'). intros r' t Hin. apply Hz. now right. }
    destruct (monitor_trades_spec _ _ _ _ _ _ _ _ E Nd') as (_ & _ & _ & O1 & _).
    destruct (deref s1 r) as [tr|] eqn:D; [|discriminate]. cbn [bind] in H.
    apply deref_nth in D.
    assert (Hp : Trade.pnl tr = 0%Q).
    { apply (Hz r tr); [now left|]. now rewrite <- (O1 r Hr). }
    destruct (Trade.entry_time tr <=? Candle.time c).
    + destruct (update_trade tr c config) as [[tr' b]|] eqn:U; [|discriminate].
      cbn [bind] in H.
      pose proof (realized_pnl_store_set s1 r tr tr' D) as Rs.
      pose proof (update_trade_exit_fields _ _ _ _ _ U) as Hx.
      destruct b; inversion H; subst; rewrite Rs, Hp.
      * rewrite <- Qplus_assoc, (Qplus_comm (Trade.pnl tr')), Qplus_assoc, B1. ring.
      * destruct Hx as (-> & _). rewrite Hp, B1. ring.
    + inversion H; subst. exact B1.
Qed.

Lemma foldM_invariant_In {A S : Type} (P : S -> Prop) (f : S -> A -> result S)
    (l : list A) :
  (forall s x s', In x l -> P s -> f s x = Ok s' -> P s') ->
  forall s s', P s -> foldM f l s = Ok s' -> P s'.
Proof.
  induction l as [|x l IH]; simpl; intros Hstep s s' Hs H.
  - inversion H. now subst.
  - destruct (f s x) as [s1|] eqn:E; [|discriminate]. cbn [bind] in H.
    apply (IH (fun s0 y s0' Hy => Hstep s0 y s0' (or_intror Hy)) s1 s');
      [|exact H].
    apply (Hstep s x s1); auto.
Qed.

Lemma process_minute_life (env : Env.t) (st : Sim.t) (c : Candle.t) (st' : Sim.t) :
  In c (Env.one_minute_candles env) ->
  Forall (trade_life (monitored_tick env)) (Sim.all_trades st) ->
  process_minute env st c = Ok st' ->
  Forall (trade_life (monitored_tick env)) (Sim.all_trades st').
Proof.
  intros Hin Hl. unfold process_minute.
  destruct (monitor_trades _ _ _ _ _) as [[[o1 c1] s1]|] eqn:M; [|discriminate].
  cbn [bind].
  apply (monitor_trades_Forall (trade_life (monitored_tick env))) in M;
    [| | exact Hl].
  2:{ intros tr tr' b Htr Hle U.
      apply (update_trade_life _ _ _ _ _ _ U); [|exact Htr]. now split. }
  match goal with |- (if ?b then _ else _) = _ -> _ => destruct b end.
  - destruct (evaluate_windows _ _ _ _) as [[k s2]|] eqn:E; [|discriminate].
    cbn [bind]. intros H. inversion H; subst. clear H. simpl.
    destruct (evaluate_windows_fresh _ _ (monitored_tick env) _ _ _ _ E) as (L & _).
    apply L. exact M.
  - intros H. inversion H; subst. exact M.
Qed.

Lemma process_minute_books (env : Env.t) (initial_capital : Q) (st : Sim.t)
    (c : Candle.t) (st' : Sim.t) :
  ledger_invariant env st ->
  Forall (trade_life (monitored_tick env)) (Sim.all_trades st) ->
  books_balance initial_capital st ->
  process_minute env st c = Ok st' ->
  books_balance initial_capital st'.
Proof.
  intros (Iv & Nd & Is & _) Hl Hb. unfold process_minute.
  destruct (monitor_trades _ _ _ _ _) as [[[o1 c1] s1]|] eqn:M; [|discriminate].
  cbn [bind].
  apply monitor_trades_books in M; [|exact Nd|].
  2:{ intros r trade Hr Hn.
      apply (Is r trade Hn) in Hr.
      rewrite Forall_forall in Hl. specialize (Hl trade (nth_error_In _ _ Hn)).
      unfold trade_life in Hl. rewrite Hr in Hl. apply Hl. }
  unfold books_balance in *.
  assert (B1 : (c1 == initial_capital + realized_pnl s1)%Q).
  { rewrite Hb in M.
    apply (Qplus_inj_r _ _ (realized_pnl (Sim.all_trades st))).
    rewrite M. ring. }
  match goal with |- (if ?b then _ else _) = _ -> _ => destruct b end.
  - destruct (evaluate_windows _ _ _ _) as [[k s2]|] eqn:E; [|discriminate].
    cbn [bind]. intros H. inversion H; subst. clear H. simpl.
    destruct (evaluate_windows_fresh _ _ (monitored_tick env) _ _ _ _ E)
      as (_ & C & R).
    rewrite C, R. exact B1.
  - intros H. inversion H; subst. exact B1.
Qed.

Lemma apply_funding_rates_off (current_time : Z) (open_trades : list Trade.t)
    (capital : Q) (applied : list Z) (config : TradeConfig.t) :
  no_funding config ->
  apply_funding_rates current_time open_trades capital applied config
  = Ok (capital, applied).
Proof.
  intros Hn. unfold apply_funding_rates.
  apply Qeq_bool_iff in Hn. rewrite Hn, orb_true_r. reflexivity.
Qed.

Lemma minute_candles_In (env : Env.t) (lo hi : Z) (c : Candle.t) :
  In c (filter (fun minute_candle =>
                  (lo <? Candle.time minute_candle)
                  && (Candle.time minute_candle <=? hi))
          (Env.one_minute_candles env)) ->
  In c (Env.one_minute_candles env).
Proof. intros H. apply filter_In in H. apply H. Qed.

Lemma process_primary_candle_life (env : Env.t) (st : Sim.t) (c : Candle.t)
    (st' : Sim.t) :
  Forall (trade_life (monitored_tick env)) (Sim.all_trades st) ->
  process_primary_candle env st c = Ok st' ->
  Forall (trade_life (monitored_tick env)) (Sim.all_trades st').
Proof.
  intros Hl. unfold process_primary_candle.
  destruct (parse_timeframe_to_minutes _) as [m|]; [|discriminate]. cbn [bind].
  destruct (deref_all _ _) as [trs|]; [|discriminate]. cbn [bind].
  destruct (apply_funding_rates _ _ _ _ _) as [[cap app]|]; [|discriminate].
  cbn [bind].
  destruct (foldM _ _ _) as [s1|] eqn:F; [|discriminate]. cbn [bind].
  apply (foldM_invariant_In
           (fun s => Forall (trade_life (monitored_tick env)) (Sim.all_trades s)))
    in F; [| | exact Hl].
  - destruct (find _ _); intros H; inversion H; subst; exact F.
  - intros s x s' Hx Hs Hp. apply minute_candles_In in Hx.
    eapply process_minute_life; eauto.
Qed.

Lemma process_primary_candle_books (env : Env.t) (initial_capital : Q)
    (st : Sim.t) (c : Candle.t) (st' : Sim.t) :
  no_funding (Env.trade_config env) ->
  ledger_invariant env st ->
  Forall (trade_life (monitored_tick env)) (Sim.all_trades st) ->
  books_balance initial_capital st ->
  process_primary_candle env st c = Ok st' ->
  books_balance initial_capital st'.
Proof.
  intros Hn Hi Hl Hb. unfold process_primary_candle.
  destruct (parse_timeframe_to_minutes _) as [m|]; [|discriminate]. cbn [bind].
  destruct (deref_all _ _) as [trs|]; [|discriminate]. cbn [bind].
  rewrite (apply_funding_rates_off _ _ _ _ _ Hn). cbn [bind].
  set (st1 := Sim.mk _ _ _ _ _ _ _ _).
  assert (H1 : ledger_invariant env st1
               /\ Forall (trade_life (monitored_tick env)) (Sim.all_trades st1)
               /\ books_balance initial_capital st1)
    by (split; [exact Hi | split; [exact Hl | exact Hb]]).
  destruct (foldM _ _ _) as [s1|] eqn:F; [|discriminate]. cbn [bind].
  apply (foldM_invariant_In
           (fun s => ledger_invariant env s
                     /\ Forall (trade_life (monitored_tick env)) (Sim.all_trades s)
                     /\ books_balance initial_capital s))
    in F; [| | exact H1].
  - destruct F as (_ & _ & Fb).
    destruct (find _ _); intros H; inversion H; subst; exact Fb.
  - intros s x s' Hx (Si & Sl & Sb) Hp. apply minute_candles_In in Hx.
    split; [exact (proj1 (process_minute_ledger env s x s' Si Hp))|].
    split; [eapply process_minute_life; eauto|].
    eapply process_minute_books; eauto.
Qed.

Lemma loop_books (env : Env.t) (initial_capital : Q) (candles : list Candle.t)
    (st st' : Sim.t) :
  no_funding (Env.trade_config env) ->
  ledger_invariant env st ->
  Forall (trade_life (monitored_tick env)) (Sim.all_trades st) ->
  books_balance initial_capital st ->
  foldM (process_primary_candle env) candles st = Ok st' ->
  books_balance initial_capital st'.
Proof.
  intros Hn Hi Hl Hb F.
  apply (foldM_invariant
           (fun s => ledger_invariant env s
                     /\ Forall (trade_life (monitored_tick env)) (Sim.all_trades s)
                     /\ books_balance initial_capital s)) in F.
  - apply F.
  - intros s x s' (Si & Sl & Sb) Hp.
    split; [eapply process_primary_candle_ledger; eauto|].
    split; [eapply process_primary_candle_life; eauto|].
    eapply process_primary_candle_books; eauto.
  - auto.
Qed.

Lemma loop_life (env : Env.t) (candles : list Candle.t) (st st' : Sim.t) :
  Forall (trade_life (monitored_tick env)) (Sim.all_trades st) ->
  foldM (process_primary_candle env) candles st = Ok st' ->
  Forall (trade_life (monitored_tick env)) (Sim.all_trades st').
Proof.
  intros Hl F.
  apply (foldM_invariant
           (fun s => Forall (trade_life (monitored_tick env)) (Sim.all_trades s)))
    in F; [exact F | | exact Hl].
  intros s x s' Hs Hp. eapply process_primary_candle_life; eauto.
Qed.

Lemma close_fold_books (env : Env.t) (c : Candle.t)
    (ok : Z -> Candle.t -> Prop) (refs : list nat) (st st' : Sim.t) :
  (forall t, ok t c) ->
  NoDup refs ->
  (forall r trade, In r refs -> nth_error (Sim.all_trades st) r = Some trade ->
     Trade.pnl trade = 0%Q) ->
  foldM (close_one env c) refs st = Ok st' ->
  (Sim.capital st' + realized_pnl (Sim.all_trades st)
   == Sim.capital st + realized_pnl (Sim.all_trades st'))%Q
  /\ (Forall (trade_life ok) (Sim.all_trades st) ->
      Forall (trade_life ok) (Sim.all_trades st')).
Proof.
  intros Hok. revert st.
  induction refs as [|r refs IH]; simpl; intros st Nd Hz H.
  - inversion H; subst. split; [reflexivity | auto].
  - destruct (close_one env c st r) as [s1|] eqn:E; [|discriminate].
    cbn [bind] in H. inversion Nd as [|? ? Hr Nd']; subst.
    unfold close_one in E.
    destruct (deref (Sim.all_trades st) r) as [tr|] eqn:D; [|discriminate].
    cbn [bind] in E.
    destruct (update_trade tr c (Env.trade_config env)) as [[tr' b]|] eqn:U;
      [|discriminate].
    cbn [bind fst] in E. inversion E; subst s1. clear E.
    apply deref_nth in D.
    assert (Hz' : forall r' t, In r' refs ->
                    nth_error (store_set (Sim.all_trades st) r tr') r' = Some t ->
                    Trade.pnl t = 0%Q).
    { intros r' t Hin Hn.
      rewrite store_set_other in Hn by (intros ->; contradiction).
      apply (Hz r' t); [now right | exact Hn]. }
    match type of H with
    | foldM _ _ ?s = _ => destruct (IH s Nd' Hz' H) as [B L]
    end.
    clear IH Hz'.
    simpl in B, L.
    pose proof (realized_pnl_store_set _ r tr tr' D) as Rs.
    rewrite (Hz r tr (or_introl eq_refl) D) in Rs.
    split.
    + apply (Qplus_inj_r _ _
               (realized_pnl (store_set (Sim.all_trades st) r tr'))).
      rewrite <- Qplus_assoc,
        (Qplus_comm (realized_pnl (Sim.all_trades st))), Qplus_assoc, B, Rs.
      ring.
    + intros Hl. apply L. apply store_set_Forall; [exact Hl|].
      apply (update_trade_life ok _ _ _ _ _ U); [apply Hok|].
      rewrite Forall_forall in Hl. apply Hl. eapply nth_error_In; eauto.
Qed.

Lemma life_init (ok : Z -> Candle.t -> Prop) (capital : Q) :
  Forall (trade_life ok) (Sim.all_trades (Sim.init capital)).
Proof. constructor. Qed.

Lemma open_refs_unrealized (env : Env.t) (st : Sim.t) :
  ledger_invariant env st ->
  Forall (trade_life (monitored_tick env)) (Sim.all_trades st) ->
  forall r trade, In r (Sim.open_trades st) ->
    nth_error (Sim.all_trades st) r = Some trade -> Trade.pnl trade = 0%Q.
Proof.
  intros (_ & _ & Is & _) Hl r trade Hr Hn.
  apply (Is r trade Hn) in Hr.
  rewrite Forall_forall in Hl. specialize (Hl trade (nth_error_In _ _ Hn)).
  unfold trade_life in Hl. rewrite Hr in Hl. apply Hl.
Qed.

Lemma close_remaining_books (env : Env.t) (primary_candles : list Candle.t)
    (st st' : Sim.t) :
  ledger_invariant env st ->
  Forall (trade_life (monitored_tick env)) (Sim.all_trades st) ->
  close_remaining env primary_candles st = Ok st' ->
  (Sim.capital st' + realized_pnl (Sim.all_trades st)
   == Sim.capital st + realized_pnl (Sim.all_trades st'))%Q
  /\ Forall (trade_life (closing_tick env primary_candles)) (Sim.all_trades st').
Proof.
  intros Hi Hl. unfold close_remaining.
  assert (Hw : Forall (trade_life (closing_tick env primary_candles))
                 (Sim.all_trades st)).
  { revert Hl. apply Forall_impl. intros t. apply trade_life_weaken.
    intros e c H. now left. }
  destruct (Sim.open_trades st) as [|r refs] eqn:Eo.
  { intros H. inversion H; subst. split; [reflexivity | exact Hw]. }
  destruct (getitem primary_candles (-1)) as [last_candle|] eqn:G; [|discriminate].
  unfold bind at 1. rewrite <- Eo. intros F.
  assert (Hok : forall t : Z, closing_tick env primary_candles t last_candle)
    by (intros t; now right).
  destruct (close_fold_books env last_candle (closing_tick env primary_candles)
              (Sim.open_trades st) st st' Hok (proj1 (proj2 Hi))
              (open_refs_unrealized env st Hi Hl) F) as [B L].
  split; [exact B | exact (L Hw)].
Qed.

Lemma simulate_books (env : Env.t) (primary_candles : list Candle.t)
    (capital : Q) (st : Sim.t) :
  simulate env primary_candles (Sim.init capital) = Ok st ->
  Forall (trade_life (closing_tick env primary_candles)) (Sim.all_trades st)
  /\ (no_funding (Env.trade_config env) -> books_balance capital st).
Proof.
  unfold simulate.
  destruct (foldM _ _ _) as [s1|] eqn:F; [|discriminate]. cbn [bind].
  intros H.
  pose proof (ledger_loop env _ _ _ (ledger_init env capital) F) as L.
  pose proof (loop_life env _ _ _ (life_init _ capital) F) as Hl.
  destruct (close_remaining_books env _ _ _ L Hl H) as [B Hf].
  split; [exact Hf|]. intros Hn.
  assert (B0 : books_balance capital (Sim.init capital)).
  { unfold books_balance. simpl. ring. }
  pose proof (loop_books env capital _ _ _ Hn (ledger_init env capital)
                (life_init _ capital) B0 F) as B1.
  unfold books_balance in *. rewrite B1 in B.
  apply (Qplus_inj_r _ _ (realized_pnl (Sim.all_trades s1))).
  rewrite B. ring.
Qed.

(** X22.  The books balance.  With funding charges switched off (a
    [funding_rate] of 0), the capital when the simulation returns is the
    initial capital plus the sum of the P&L of all trades of the ledger:
    every closed trade's P&L has been added exactly once, by the loop or
    by the closing block, and a trade left open contributes 0. *)
Theorem capital_is_initial_plus_pnl :
  (forall env primary_candles capital st,
      no_funding (Env.trade_config env) ->
      simulate env primary_candles (Sim.init capital) = Ok st ->
      (Sim.capital st == capital + realized_pnl (Sim.all_trades st))%Q)
  /\ (forall pivot_detection_mode trade_config multi_pivot_config one_minute_candles st,
         no_funding trade_config ->
         run_immediate_aggregation_backtest pivot_detection_mode trade_config
           multi_pivot_config one_minute_candles = Ok (Some st) ->
         (Sim.capital st
          == TradeConfig.initial_capital trade_config
             + realized_pnl (Sim.all_trades st))%Q).
Proof.
  split.
  - intros env cs capital st Hn S.
    exact (proj2 (simulate_books env cs capital st S) Hn).
  - intros m tc mc cs st Hn R.
    destruct (run_simulate _ _ _ _ _ R) as (env & pcs & <- & _ & S).
    exact (proj2 (simulate_books env pcs _ st S) Hn).
Qed.

Lemma capital_is_initial_plus_pnl_witness :
  exists st,
    run_immediate_aggregation_backtest "close" unfunded_trade_config
      sample_multi_pivot_config closing_candles = Ok (Some st)
    /\ map Trade.status (Sim.all_trades st) = [closed]
    /\ (Sim.capital st
        == TradeConfig.initial_capital unfunded_trade_config
           + realized_pnl (Sim.all_trades st))%Q.
Proof.
  eexists. split; [vm_compute; reflexivity|].
  split; [reflexivity|].
  apply (proj2 capital_is_initial_plus_pnl "close" unfunded_trade_config
           sample_multi_pivot_config closing_candles).
  - reflexivity.
  - vm_compute. reflexivity.
Defined.

(** X23.  The exit fields of a trade agree with its status.  After any
    number of primary candles a trade with status [open] has a P&L of 0,
    no exit price and no exit time, and a trade with status [closed] was
    closed on a 1m candle whose time is not before the trade's entry
    time, whose close is the exit price, whose time is the exit time and
    whose close triggered the trade's take-profit or stop-loss.  When the
    simulation returns the same holds, except that the candle a trade
    was closed on may instead be the last primary candle, whatever the
    trade's entry time. *)
Theorem trade_exit_matches_status :
  (forall env candles capital st,
      foldM (process_primary_candle env) candles (Sim.init capital) = Ok st ->
      Forall (trade_life (monitored_tick env)) (Sim.all_trades st))
  /\ (forall env primary_candles capital st,
         simulate env primary_candles (Sim.init capital) = Ok st ->
         Forall (trade_life (closing_tick env primary_candles))
           (Sim.all_trades st)).
Proof.
  split.
  - intros env cs capital st F.
    exact (loop_life env cs _ st (life_init _ capital) F).
  - intros env cs capital st S.
    exact (proj1 (simulate_books env cs capital st S)).
Qed.

Lemma trade_exit_matches_status_witness :
  exists st,
    simulate closing_env closing_candles (Sim.init 10000%Q) = Ok st
    /\ map Trade.exit_time (Sim.all_trades st) = [Some 360000]
    /\ Forall (trade_life (closing_tick closing_env closing_candles))
         (Sim.all_trades st).
Proof.
  eexists. split; [vm_compute; reflexivity|].
  split; [reflexivity|].
  apply (proj2 trade_exit_matches_status closing_env closing_candles 10000%Q).
  vm_compute. reflexivity.
Defined.

(** ** Runs that cannot trade *)

Lemma check_cascade_confirmation_length (primary_pivot : Pivot.t)
    (pivots : list (string * list Pivot.t)) (as_of_time : Z)
    (primary_interval : string) (config : MultiPivotConfig.t) :
  (List.length (check_cascade_confirmation primary_pivot pivots as_of_time
                  primary_interval config)
   <= List.length (MultiPivotConfig.timeframes config))%nat.
Proof.
  unfold check_cascade_confirmation.
  set (w := match dict_get _ _ with Some _ => _ | None => _ end).
  induction (MultiPivotConfig.timeframes config) as [|tf tfs IH]; simpl; [lia|].
  rewrite length_app.
  destruct (check_timeframe_shape primary_pivot pivots as_of_time w tf)
    as [->|(p & -> & _)]; simpl; lia.
Qed.

Lemma evaluate_window_idle (env : Env.t) (minute_candle : Candle.t)
    (win : Window.t) (st : Sim.t) (stays : bool) (st' : Sim.t) :
  Z.of_nat (List.length (MultiPivotConfig.timeframes (Env.multi_pivot_config env)))
  < get_default
      (MultiPivotConfig.cascade_settings_min_timeframes_required
         (Env.multi_pivot_config env)) 2
  \/ max_trades (Env.trade_config env) <= 0 ->
  evaluate_window env minute_candle win st = Ok (stays, st') ->
  st' = st.
Proof.
  intros Hidle H.
  destruct (evaluate_window_outcome _ _ _ _ _ _ H)
    as [ | | | |price side trade [_ Hm] _ _ Hcap _ _ _ _]; try reflexivity.
  exfalso. destruct Hidle as [Hfew|Hcap0]; [|lia].
  unfold meets_execution_requirements in Hm.
  pose proof (check_cascade_confirmation_length (Window.primary_pivot win)
                (Env.timeframe_pivots env) (Candle.time minute_candle)
                (Env.primary_tf_name env) (Env.multi_pivot_config env)) as Hlen.
  match type of Hm with
  | (if ?a <? ?b then _ else _) = _ => destruct (Z.ltb_spec a b); [discriminate|]
  end.
  lia.
Qed.

Lemma evaluate_windows_idle (env : Env.t) (minute_candle : Candle.t)
    (wins : list Window.t) (st : Sim.t) (kept : list Window.t) (st' : Sim.t) :
  Z.of_nat (List.length (MultiPivotConfig.timeframes (Env.multi_pivot_config env)))
  < get_default
      (MultiPivotConfig.cascade_settings_min_timeframes_required
         (Env.multi_pivot_config env)) 2
  \/ max_trades (Env.trade_config env) <= 0 ->
  evaluate_windows env minute_candle wins st = Ok (kept, st') ->
  st' = st.
Proof.
  intros Hidle. revert kept st'.
  induction wins as [|w wins IH]; simpl; intros kept st' H.
  - now inversion H.
  - destruct (evaluate_windows env minute_candle wins st) as [[k1 s1]|] eqn:E;
      [|discriminate].
    cbn [bind] in H. rewrite (IH _ _ eq_refl) in *.
    destruct (evaluate_window env minute_candle w st) as [[b s2]|] eqn:W;
      [|discriminate].
    cbn [bind] in H. inversion H; subst.
    exact (evaluate_window_idle _ _ _ _ _ _ Hidle W).
Qed.

Lemma process_primary_candle_idle (env : Env.t) (capital : Q) (st : Sim.t)
    (c : Candle.t) (st' : Sim.t) :
  Z.of_nat (List.length (MultiPivotConfig.timeframes (Env.multi_pivot_config env)))
  < get_default
      (MultiPivotConfig.cascade_settings_min_timeframes_required
         (Env.multi_pivot_config env)) 2
  \/ max_trades (Env.trade_config env) <= 0 ->
  no_trade_yet capital st ->
  process_primary_candle env st c = Ok st' ->
  no_trade_yet capital st'.
Proof.
  intros Hidle (Ea & Eo & Ec & En & Ex & Ef). unfold process_primary_candle.
  destruct (parse_timeframe_to_minutes _) as [m|]; [|discriminate]. cbn [bind].
  rewrite Eo. cbn [deref_all bind]. unfold apply_funding_rates at 1.
  cbn [orb bind].
  destruct (foldM _ _ _) as [s1|] eqn:F; [|discriminate]. cbn [bind].
  apply (foldM_invariant (no_trade_yet capital)) in F.
  - destruct F as (Fa & Fo & Fc & Fn & Fx & Ff).
    destruct (find _ _); intros H; inversion H; subst;
      unfold no_trade_yet; simpl; auto 7.
  - intros s x s' (Sa & So & Sc & Sn & Sx & Sf).
    unfold process_minute. rewrite So. cbn [monitor_trades bind].
    match goal with |- (if ?b then _ else _) = _ -> _ => destruct b end.
    + destruct (evaluate_windows _ _ _ _) as [[k s2]|] eqn:E; [|discriminate].
      cbn [bind]. apply (evaluate_windows_idle _ _ _ _ _ _ Hidle) in E. subst s2.
      intros H. inversion H; subst. unfold no_trade_yet. simpl. auto 7.
    + intros H. inversion H; subst. unfold no_trade_yet. simpl. auto 7.
  - unfold no_trade_yet. simpl. auto 7.
Qed.

(** X24.  Runs that cannot trade.  When fewer timeframes are configured
    than [min_timeframes_required] (2 when it is not set), or when the
    concurrency cap [max_trades] is 0 or less, the simulation opens no
    trade at all: it returns with an empty ledger, both counters at 0,
    no funding key recorded and the capital it started with. *)
Theorem no_trade_possible (env : Env.t) (primary_candles : list Candle.t)
    (capital : Q) (st : Sim.t) :
  Z.of_nat (List.length (MultiPivotConfig.timeframes (Env.multi_pivot_config env)))
  < get_default
      (MultiPivotConfig.cascade_settings_min_timeframes_required
         (Env.multi_pivot_config env)) 2
  \/ max_trades (Env.trade_config env) <= 0 ->
  simulate env primary_candles (Sim.init capital) = Ok st ->
  Sim.all_trades st = []
  /\ Sim.open_trades st = []
  /\ Sim.capital st = capital
  /\ Sim.confirmed_signals st = 0
  /\ Sim.executed_trades st = 0
  /\ Sim.applied_funding_rates st = [].
Proof.
  intros Hidle. unfold simulate.
  destruct (foldM _ _ _) as [s1|] eqn:F; [|discriminate]. cbn [bind].
  apply (foldM_invariant (no_trade_yet capital)) in F.
  - unfold close_remaining. destruct F as (Fa & Fo & F). rewrite Fo.
    intros H. inversion H; subst. split; [exact Fa|]. split; [exact Fo | exact F].
  - intros s x s'. apply process_primary_candle_idle. exact Hidle.
  - unfold no_trade_yet. simpl. auto 7.
Qed.

Lemma no_trade_possible_witness :
  exists st,
    simulate lone_timeframe_env sample_candles (Sim.init 10000%Q) = Ok st
    /\ Sim.total_signals st = 1
    /\ Sim.all_trades st = []
    /\ Sim.open_trades st = []
    /\ Sim.capital st = 10000%Q
    /\ Sim.confirmed_signals st = 0
    /\ Sim.executed_trades st = 0
    /\ Sim.applied_funding_rates st = [].
Proof.
  eexists. split; [vm_compute; reflexivity|].
  split; [reflexivity|].
  apply (no_trade_possible lone_timeframe_env sample_candles 10000%Q).
  - left. simpl. lia.
  - vm_compute. reflexivity.
Defined.

(** ** What a run needs of its configuration *)

Lemma aggregate_candles_Ok_interval (cs : list Candle.t) (tf : string)
    (r : list Candle.t) :
  aggregate_candles cs tf = Ok r ->
  exists minutes, parse_timeframe_to_minutes tf = Ok minutes /\ 0 < minutes.
Proof.
  intros H. destruct (parse_timeframe_to_minutes tf) as [n|e] eqn:P.
  - exists n. split; [reflexivity|].
    destruct (Z.le_gt_cases n 0) as [Hn|Hn]; [|lia].
    rewrite (aggregate_candles_nonpositive_interval cs tf n P Hn) in H.
    discriminate.
  - rewrite (aggregate_candles_invalid_timeframe cs tf e P) in H. discriminate.
Qed.

Lemma dict_get_set {V : Type} (d : list (string * V)) (k k' : string) (v : V) :
  dict_get (dict_set d k v) k'
  = if String.eqb k' k then Some v else dict_get d k'.
Proof.
  induction d as [|[k0 v0] d IH]; simpl; [reflexivity|].
  destruct (String.eqb_spec k k0) as [->|Hne]; simpl; [|rewrite IH].
  - destruct (String.eqb k' k0); reflexivity.
  - destruct (String.eqb_spec k' k0) as [->|Hne']; [|reflexivity].
    destruct (String.eqb_spec k0 k) as [Heq|_]; [congruence | reflexivity].
Qed.

Lemma build_timeframe_data_keys (one_minute_candles : list Candle.t)
    (timeframes : list TimeframeConfig.t)
    (timeframe_data : list (string * list Candle.t)) :
  build_timeframe_data one_minute_candles timeframes = Ok timeframe_data ->
  (forall tf, In tf timeframes ->
     TimeframeConfig.interval tf = "1m"
     \/ exists minutes,
          parse_timeframe_to_minutes (TimeframeConfig.interval tf) = Ok minutes
          /\ 0 < minutes)
  /\ (forall k v, dict_get timeframe_data k = Some v ->
        exists tf, In tf timeframes /\ TimeframeConfig.interval tf = k).
Proof.
  unfold build_timeframe_data.
  assert (G : forall d0 : list (string * list Candle.t),
             foldM (fun timeframe_data tf_config =>
                      let tf_name := TimeframeConfig.interval tf_config in
                      cs <- (if String.eqb tf_name "1m" then Ok one_minute_candles
                             else if String.eqb tf_name "2h"
                             then aggregate_candles one_minute_candles "2h"
                             else aggregate_candles one_minute_candles tf_name) ;;
                      Ok (dict_set timeframe_data tf_name cs))
               timeframes d0 = Ok timeframe_data ->
             (forall tf, In tf timeframes ->
                TimeframeConfig.interval tf = "1m"
                \/ exists minutes,
                     parse_timeframe_to_minutes (TimeframeConfig.interval tf)
                     = Ok minutes /\ 0 < minutes)
             /\ (forall k v, dict_get timeframe_data k = Some v ->
                   dict_get d0 k <> None
                   \/ exists tf, In tf timeframes /\ TimeframeConfig.interval tf = k)).
  { induction timeframes as [|tf tfs IH]; intros d0 H.
    - simpl in H. inversion H; subst. split; [intros tf []|].
      intros k v Hk. left. congruence.
    - cbn [foldM] in H. cbv zeta in H.
      assert (Hone : exists cs,
                 (if String.eqb (TimeframeConfig.interval tf) "1m"
                  then Ok one_minute_candles
                  else if String.eqb (TimeframeConfig.interval tf) "2h"
                  then aggregate_candles one_minute_candles "2h"
                  else aggregate_candles one_minute_candles
                         (TimeframeConfig.interval tf)) = Ok cs
                 /\ (TimeframeConfig.interval tf = "1m"
                     \/ exists minutes,
                          parse_timeframe_to_minutes (TimeframeConfig.interval tf)
                          = Ok minutes /\ 0 < minutes)).
      { destruct (String.eqb_spec (TimeframeConfig.interval tf) "1m") as [E1|_].
        - eexists. split; [reflexivity | now left].
        - destruct (String.eqb_spec (TimeframeConfig.interval tf) "2h") as [E2|_].
          + rewrite <- E2 in H |- *.
            destruct (aggregate_candles one_minute_candles
                        (TimeframeConfig.interval tf)) as [cs|] eqn:A;
              [|discriminate].
            exists cs. split; [reflexivity|]. right.
            now apply aggregate_candles_Ok_interval in A.
          + destruct (aggregate_candles one_minute_candles
                        (TimeframeConfig.interval tf)) as [cs|] eqn:A;
              [|discriminate].
            exists cs. split; [reflexivity|]. right.
            now apply aggregate_candles_Ok_interval in A. }
      destruct Hone as (cs & Ecs & Hint). rewrite Ecs in H. cbn [bind] in H.
      destruct (IH _ H) as (I1 & I2). split.
      + intros tf' [<-|Hin]; [exact Hint | now apply I1].
      + intros k v Hk. destruct (I2 k v Hk) as [Hd|(tf' & Hin & Ek)].
        * rewrite dict_get_set in Hd.
          destruct (String.eqb_spec k (TimeframeConfig.interval tf)) as [->|_].
          -- right. exists tf. split; [now left | reflexivity].
          -- now left.
        * right. exists tf'. split; [now right | exact Ek]. }
  intros H. destruct (G [] H) as (G1 & G2). split; [exact G1|].
  intros k v Hk. destruct (G2 k v Hk) as [Hd|Hx]; [|exact Hx].
  simpl in Hd. congruence.
Qed.

Lemma find_primary_spec (timeframes : list TimeframeConfig.t)
    (tf : TimeframeConfig.t) :
  find_primary timeframes = Ok (Some tf) ->
  In tf timeframes /\ TimeframeConfig.role tf = Some "primary".
Proof.
  induction timeframes as [|x tfs IH]; simpl; [discriminate|].
  destruct (TimeframeConfig.role x) as [role|] eqn:Er; [|discriminate].
  destruct (String.eqb_spec role "primary") as [->|_].
  - intros H. inversion H; subst. split; [now left | exact Er].
  - intros H. destruct (IH H) as [Hin Hr]. split; [now right | exact Hr].
Qed.

(** X25.  What a run needs of its configuration.  On an empty candle
    list the run returns early, with no result and no error.  A run that
    reaches the results summary had a timeframe whose role is
    ['primary'], had the ['1m'] timeframe among its timeframes, and every
    other configured timeframe names a positive number of minutes; a
    configuration failing one of these makes the run raise. *)
Theorem run_needs (pivot_detection_mode : string)
    (trade_config : TradeConfig.t) (multi_pivot_config : MultiPivotConfig.t) :
  run_immediate_aggregation_backtest pivot_detection_mode trade_config
    multi_pivot_config [] = Ok None
  /\ (forall one_minute_candles st,
         run_immediate_aggregation_backtest pivot_detection_mode trade_config
           multi_pivot_config one_minute_candles = Ok (Some st) ->
         one_minute_candles <> []
         /\ (exists tf, In tf (MultiPivotConfig.timeframes multi_pivot_config)
                        /\ TimeframeConfig.role tf = Some "primary")
         /\ (exists tf, In tf (MultiPivotConfig.timeframes multi_pivot_config)
                        /\ TimeframeConfig.interval tf = "1m")
         /\ (forall tf, In tf (MultiPivotConfig.timeframes multi_pivot_config) ->
               TimeframeConfig.interval tf = "1m"
               \/ exists minutes,
                    parse_timeframe_to_minutes (TimeframeConfig.interval tf)
                    = Ok minutes /\ 0 < minutes)).
Proof.
  split; [reflexivity|].
  intros cs st. unfold run_immediate_aggregation_backtest.
  destruct cs as [|c0 cs]; [discriminate|].
  destruct (build_timeframe_data _ _) as [td|] eqn:B; [|discriminate]. cbn [bind].
  destruct (build_timeframe_pivots _ _ _) as [tp|]; [|discriminate]. cbn [bind].
  destruct (find_primary _) as [[ptf|]|] eqn:P; try discriminate. cbn [bind].
  destruct (dict_get td _) as [pcs|]; [|discriminate]. cbn [bind].
  destruct (dict_get tp _) as [pps|]; [|discriminate]. cbn [bind].
  destruct (dict_get td "1m") as [ms|] eqn:M; [|discriminate].
  intros _.
  destruct (build_timeframe_data_keys _ _ _ B) as (K1 & K2).
  split; [discriminate|].
  split; [exists ptf; now apply find_primary_spec|].
  split; [exact (K2 "1m" ms M) | exact K1].
Qed.

Lemma run_needs_witness :
  exists st,
    run_immediate_aggregation_backtest "close" sample_trade_config
      sample_multi_pivot_config sample_candles = Ok (Some st)
    /\ sample_candles <> []
    /\ (exists tf, In tf (MultiPivotConfig.timeframes sample_multi_pivot_config)
                   /\ TimeframeConfig.role tf = Some "primary")
    /\ (exists tf, In tf (MultiPivotConfig.timeframes sample_multi_pivot_config)
                   /\ TimeframeConfig.interval tf = "1m")
    /\ (forall tf, In tf (MultiPivotConfig.timeframes sample_multi_pivot_config) ->
          TimeframeConfig.interval tf = "1m"
          \/ exists minutes,
               parse_timeframe_to_minutes (TimeframeConfig.interval tf)
               = Ok minutes /\ 0 < minutes).
Proof.
  eexists. split; [vm_compute; reflexivity|].
  eapply (proj2 (run_needs "close" sample_trade_config sample_multi_pivot_config)
            sample_candles).
  vm_compute. reflexivity.
Defined.

(** ** The primary signals counted *)

Lemma find_carries_pivot (env : Env.t) (c : Candle.t) :
  match find (fun p => Pivot.time p =? Candle.time c) (Env.primary_pivots env) with
  | Some _ => carries_pivot env c = true
  | None => carries_pivot env c = false
  end.
Proof.
  unfold carries_pivot.
  induction (Env.primary_pivots env) as [|p ps IH]; simpl; [reflexivity|].
  destruct (Pivot.time p =? Candle.time c); [reflexivity | exact IH].
Qed.

Lemma process_primary_candle_signals (env : Env.t) (st : Sim.t) (c : Candle.t)
    (st' : Sim.t) :
  ledger_invariant env st -> process_primary_candle env st c = Ok st' ->
  Sim.total_signals st'
  = Sim.total_signals st + (if carries_pivot env c then 1 else 0).
Proof.
  intros Hi. unfold process_primary_candle.
  destruct (parse_timeframe_to_minutes _) as [m|]; [|discriminate]. cbn [bind].
  destruct (deref_all _ _) as [trs|]; [|discriminate]. cbn [bind].
  destruct (apply_funding_rates _ _ _ _ _) as [[cap app]|]; [|discriminate].
  cbn [bind].
  set (st1 := Sim.mk cap _ _ _ _ _ _ app).
  assert (H1 : ledger_invariant env st1) by exact Hi.
  destruct (foldM _ _ _) as [s1|] eqn:F; [|discriminate]. cbn [bind].
  apply (foldM_invariant
           (fun s => ledger_invariant env s
                     /\ Sim.total_signals s = Sim.total_signals st)) in F.
  - destruct F as [_ Ft]. pose proof (find_carries_pivot env c) as Hf.
    destruct (find _ _); rewrite Hf; intros H; inversion H; subst; simpl; lia.
  - intros s x s' [Hs Ht] Hx.
    destruct (process_minute_ledger env s x s' Hs Hx) as (L & _ & T).
    split; [exact L | congruence].
  - split; [exact H1 | reflexivity].
Qed.

Lemma loop_signals (env : Env.t) (candles : list Candle.t) (st st' : Sim.t) :
  ledger_invariant env st ->
  foldM (process_primary_candle env) candles st = Ok st' ->
  Sim.total_signals st'
  = Sim.total_signals st
    + Z.of_nat (List.length (filter (carries_pivot env) candles)).
Proof.
  revert st. induction candles as [|c candles IH]; simpl; intros st Hi H.
  - inversion H; subst. lia.
  - destruct (process_primary_candle env st c) as [s1|] eqn:E; [|discriminate].
    cbn [bind] in H.
    rewrite (IH s1 (process_primary_candle_ledger env st c s1 Hi E) H).
    rewrite (process_primary_candle_signals env st c s1 Hi E).
    destruct (carries_pivot env c); simpl List.length; lia.
Qed.

(** X26.  What [total_signals] counts.  When the simulation returns,
    [total_signals] is the number of primary candles whose time is the
    time of some pivot of the primary timeframe; a candle counts once,
    however many pivots carry its time, and neither the monitoring of
    trades nor the closing block changes the count. *)
Theorem total_signals_counts_pivot_candles (env : Env.t)
    (primary_candles : list Candle.t) (capital : Q) (st : Sim.t) :
  simulate env primary_candles (Sim.init capital) = Ok st ->
  Sim.total_signals st
  = Z.of_nat (List.length (filter (carries_pivot env) primary_candles)).
Proof.
  unfold simulate.
  destruct (foldM _ _ _) as [s1|] eqn:F; [|discriminate]. cbn [bind].
  intros H.
  pose proof (ledger_loop env _ _ _ (ledger_init env capital) F) as L.
  destruct (close_remaining_final env _ _ _ (ledger_final env s1 L) H)
    as (_ & _ & T).
  rewrite T, (loop_signals env _ _ _ (ledger_init env capital) F).
  reflexivity.
Qed.

Lemma total_signals_counts_pivot_candles_witness :
  exists st,
    simulate sample_env sample_candles (Sim.init 10000%Q) = Ok st
    /\ filter (carries_pivot sample_env) sample_candles = [flat_candle 120000 101]
    /\ Sim.total_signals st
       = Z.of_nat (List.length (filter (carries_pivot sample_env) sample_candles)).
Proof.
  eexists. split; [vm_compute; reflexivity|].
  split; [reflexivity|].
  apply (total_signals_counts_pivot_candles sample_env sample_candles 10000%Q).
  vm_compute. reflexivity.
Defined.

(** ** The direction of the trades *)

Lemma apply_direction_filter_cases (pivot : Pivot.t) (config : TradeConfig.t)
    (side : Side) :
  apply_direction_filter pivot config = Some side ->
  direction_allows (get_default (TradeConfig.direction config) "both")
    (Pivot.signal pivot) side.
Proof.
  unfold apply_direction_filter, direction_allows.
  set (d := get_default (TradeConfig.direction config) "both").
  destruct (Pivot.signal pivot).
  - destruct (String.eqb_spec d "buy") as [Eb|_]; simpl.
    { intros H. inversion H. right. left. auto. }
    destruct (String.eqb_spec d "both") as [Eo|_].
    { intros H. inversion H. left. auto. }
    destruct (String.eqb_spec d "alternate") as [Ea|_]; [|discriminate].
    intros H. inversion H. right. right. right. auto.
  - destruct (String.eqb_spec d "sell") as [Eb|_]; simpl.
    { intros H. inversion H. right. right. left. auto. }
    destruct (String.eqb_spec d "both") as [Eo|_].
    { intros H. inversion H. left. auto. }
    destruct (String.eqb_spec d "alternate") as [Ea|_]; [|discriminate].
    intros H. inversion H. right. right. right. auto.
Qed.

(** X27.  The direction setting is respected by every trade of a run.
    When the simulation returns, each trade of [all_trades] has a pivot,
    and with [direction] 'both' (the default) its type is the pivot's
    signal, with 'buy' it is a long from a long signal, with 'sell' a
    short from a short signal, with 'alternate' the opposite of the
    pivot's signal; with any other [direction] the ledger is empty. *)
Theorem direction_is_respected (env : Env.t) (primary_candles : list Candle.t)
    (capital : Q) (st : Sim.t) :
  simulate env primary_candles (Sim.init capital) = Ok st ->
  let direction := get_default (TradeConfig.direction (Env.trade_config env)) "both" in
  Forall (fun trade =>
            exists pivot,
              Trade.pivot trade = Some pivot
              /\ direction_allows direction (Pivot.signal pivot) (Trade.type trade))
    (Sim.all_trades st)
  /\ (direction <> "both" -> direction <> "buy" -> direction <> "sell" ->
      direction <> "alternate" -> Sim.all_trades st = []).
Proof.
  intros S direction.
  destruct (simulate_final env _ capital st S) as ((_ & _ & _ & _ & _ & _ & It) & _).
  assert (Hall : Forall (fun trade =>
                           exists pivot,
                             Trade.pivot trade = Some pivot
                             /\ direction_allows direction (Pivot.signal pivot)
                                  (Trade.type trade))
                   (Sim.all_trades st)).
  { revert It. apply Forall_impl.
    intros trade (_ & _ & _ & pivot & Hp & _ & Hd & _).
    exists pivot. split; [exact Hp|].
    now apply apply_direction_filter_cases. }
  split; [exact Hall|].
  intros N1 N2 N3 N4. destruct (Sim.all_trades st) as [|trade rest]; [reflexivity|].
  inversion Hall as [|? ? (pivot & _ & Hd) _]; subst. exfalso.
  unfold direction_allows in Hd.
  destruct Hd as [[E _]|[[E _]|[[E _]|[E _]]]]; contradiction.
Qed.

Lemma direction_is_respected_witness :
  exists st,
    simulate sample_env sample_candles (Sim.init 10000%Q) = Ok st
    /\ map Trade.type (Sim.all_trades st) = [short]
    /\ Forall (fun trade =>
                 exists pivot,
                   Trade.pivot trade = Some pivot
                   /\ direction_allows "both" (Pivot.signal pivot) (Trade.type trade))
         (Sim.all_trades st).
Proof.
  eexists. split; [vm_compute; reflexivity|].
  split; [reflexivity|].
  apply (direction_is_respected sample_env sample_candles 10000%Q).
  vm_compute. reflexivity.
Defined.

(** ** The pivots of a timeframe *)

Lemma detect_pivot_at (candles : list Candle.t) (index : Z)
    (config : PivotConfig.t) (p : Pivot.t) :
  detect_pivot candles index config = Ok (Some p) ->
  Pivot.index p = index
  /\ exists cur, getitem candles index = Ok cur /\ Pivot.time p = Candle.time cur.
Proof.
  rewrite detect_pivot_stages.
  destruct (_ && _); [discriminate|].
  destruct (_ || _); [discriminate|].
  destruct (getitem candles index) as [cur|]; [|discriminate]. cbn [bind].
  destruct (pivot_flags config candles index cur) as [f|]; [|discriminate].
  cbn [bind]. destruct (_ && _); [discriminate|].
  intros H. apply finish_pivot_Some in H.
  destruct H as (_ & _ & Ht & Hi & _).
  split; [exact Hi|]. exists cur. split; [reflexivity | exact Ht].
Qed.

Lemma detect_pivots_from (candles : list Candle.t) (config : PivotConfig.t)
    (tf_name : string) (count first : nat) (found result : list Pivot.t) :
  foldM (fun found i =>
           pivot <- detect_pivot candles (Z.of_nat i) config ;;
           match pivot with
           | Some p =>
               Ok (found ++ [Pivot.mk (Pivot.type p) (Pivot.price p) (Pivot.time p)
                               (Pivot.index p) (Pivot.signal p) (Pivot.swing_pct p)
                               tf_name])
           | None => Ok found
           end)
    (seq first count) found = Ok result ->
  exists new,
    result = found ++ new
    /\ Forall (fun q => detected_at candles config tf_name q
                        /\ Z.of_nat first <= Pivot.index q) new
    /\ StronglySorted Z.lt (map Pivot.index new)
    /\ (forall i p, (first <= i < first + count)%nat ->
          detect_pivot candles (Z.of_nat i) config = Ok (Some p) ->
          In (with_timeframe tf_name p) new).
Proof.
  revert first found.
  induction count as [|count IH]; intros first found H.
  - simpl in H. inversion H; subst. exists []. rewrite app_nil_r.
    split; [reflexivity|]. split; [constructor|]. split; [constructor|].
    intros i p Hi. lia.
  - cbn [seq foldM] in H.
    destruct (detect_pivot candles (Z.of_nat first) config) as [[p|]|] eqn:D;
      [| |discriminate]; cbn [bind] in H.
    + destruct (IH _ _ H) as (new & -> & Hall & Hs & Hc).
      exists (with_timeframe tf_name p :: new).
      split; [now rewrite <- app_assoc|].
      destruct (detect_pivot_at _ _ _ _ D) as (Hi & cur & Hg & Ht).
      split; [|split].
      * constructor.
        -- split; [|simpl; lia]. exists p, (Z.of_nat first).
           split; [exact D|]. split; [reflexivity|]. split; [exact Hi|].
           exists cur. split; [exact Hg | exact Ht].
        -- revert Hall. apply Forall_impl. intros q [Hq Hl]. split; [exact Hq | lia].
      * simpl. constructor; [exact Hs|]. rewrite Hi.
        apply Forall_map. revert Hall. apply Forall_impl. intros q [_ Hl]. lia.
      * intros i q Hr Dq.
        destruct (Nat.eq_dec i first) as [->|Hne].
        -- rewrite D in Dq. inversion Dq; subst. now left.
        -- right. apply (Hc i q); [lia | exact Dq].
    + destruct (IH _ _ H) as (new & -> & Hall & Hs & Hc).
      exists new. split; [reflexivity|]. split; [|split; [exact Hs|]].
      * revert Hall. apply Forall_impl. intros q [Hq Hl]. split; [exact Hq | lia].
      * intros i q Hr Dq.
        destruct (Nat.eq_dec i first) as [->|Hne].
        -- rewrite D in Dq. discriminate.
        -- apply (Hc i q); [lia | exact Dq].
Qed.

(** X28.  The pivots of a timeframe are listed in candle order.  When
    the detection loop over a timeframe's candles returns, it has
    appended to the pivots already listed exactly the pivots that
    [detect_pivot] finds at the indices of the candle list, each stamped
    with the timeframe's name and carrying the index and the time of its
    candle, in strictly increasing index order; so no candle yields two
    pivots. *)
Theorem detect_pivots_in_candle_order (aggregated_candles : list Candle.t)
    (pivot_config : PivotConfig.t) (tf_name : string)
    (found result : list Pivot.t) :
  detect_pivots aggregated_candles pivot_config tf_name found = Ok result ->
  exists new,
    result = found ++ new
    /\ Forall (detected_at aggregated_candles pivot_config tf_name) new
    /\ StronglySorted Z.lt (map Pivot.index new)
    /\ (forall i p, (i < List.length aggregated_candles)%nat ->
          detect_pivot aggregated_candles (Z.of_nat i) pivot_config = Ok (Some p) ->
          In (with_timeframe tf_name p) new).
Proof.
  intros H. unfold detect_pivots in H.
  destruct (detect_pivots_from _ _ _ _ _ _ _ H) as (new & E & Hall & Hs & Hc).
  exists new. split; [exact E|]. split; [|split; [exact Hs|]].
  - revert Hall. apply Forall_impl. intros q [Hq _]. exact Hq.
  - intros i p Hi. apply Hc. lia.
Qed.

Lemma detect_pivots_in_candle_order_witness :
  exists new,
    new = [sample_pivot]
    /\ Forall (detected_at sample_candles (PivotConfig.mk 1 0 0 (Some "close")) "1m")
         new
    /\ StronglySorted Z.lt (map Pivot.index new).
Proof.
  destruct (detect_pivots_in_candle_order sample_candles
              (PivotConfig.mk 1 0 0 (Some "close")) "1m" [] [sample_pivot])
    as (new & E & Hall & Hs & _); [vm_compute; reflexivity|].
  exists new. split; [symmetry; exact E|]. split; [exact Hall | exact Hs].
Defined.

(** ** The funding keys of a run *)

Lemma apply_funding_rates_keys (current_time : Z) (open_trades : list Trade.t)
    (capital : Q) (applied : list Z) (config : TradeConfig.t)
    (capital' : Q) (applied' : list Z) :
  apply_funding_rates current_time open_trades capital applied config
  = Ok (capital', applied') ->
  applied' = applied
  \/ (applied' = funding_key config current_time :: applied
      /\ ~ In (funding_key config current_time) applied).
Proof.
  unfold apply_funding_rates, funding_key, floordiv.
  destruct (_ || _); [intros H; inversion H; now left|].
  destruct (_ =? 0); [discriminate|]. cbn [bind].
  destruct (existsb _ applied) eqn:E; intros H; inversion H; subst; [now left|].
  right. split; [reflexivity|]. intros Hin.
  apply existsb_Zeqb_In in Hin. congruence.
Qed.

Lemma process_primary_candle_funding (env : Env.t) (st : Sim.t) (c : Candle.t)
    (st' : Sim.t) :
  ledger_invariant env st -> process_primary_candle env st c = Ok st' ->
  Sim.applied_funding_rates st' = Sim.applied_funding_rates st
  \/ (Sim.applied_funding_rates st'
      = funding_key (Env.trade_config env) (Candle.time c)
        :: Sim.applied_funding_rates st
      /\ ~ In (funding_key (Env.trade_config env) (Candle.time c))
           (Sim.applied_funding_rates st)).
Proof.
  intros Hi. unfold process_primary_candle.
  destruct (parse_timeframe_to_minutes _) as [m|]; [|discriminate]. cbn [bind].
  destruct (deref_all _ _) as [trs|]; [|discriminate]. cbn [bind].
  destruct (apply_funding_rates _ _ _ _ _) as [[cap app]|] eqn:A; [|discriminate].
  cbn [bind]. apply apply_funding_rates_keys in A.
  set (st1 := Sim.mk cap _ _ _ _ _ _ app).
  assert (H1 : ledger_invariant env st1) by exact Hi.
  destruct (foldM _ _ _) as [s1|] eqn:F; [|discriminate]. cbn [bind].
  apply (foldM_invariant
           (fun s => ledger_invariant env s
                     /\ Sim.applied_funding_rates s = app)) in F.
  - destruct F as [_ Fa].
    destruct (find _ _); intros H; injection H as <-; simpl; rewrite ?Fa; exact A.
  - intros s x s' [Hs Ha] Hx.
    destruct (process_minute_ledger env s x s' Hs Hx) as (L & Ap & _).
    split; [exact L | congruence].
  - split; [exact H1 | reflexivity].
Qed.

Lemma close_remaining_funding (env : Env.t) (primary_candles : list Candle.t)
    (st st' : Sim.t) :
  close_remaining env primary_candles st = Ok st' ->
  Sim.applied_funding_rates st' = Sim.applied_funding_rates st.
Proof.
  unfold close_remaining.
  destruct (Sim.open_trades st) as [|r refs]; [intros H; now inversion H|].
  destruct (getitem primary_candles (-1)) as [last_candle|]; [|discriminate].
  unfold bind at 1. intros F.
  apply (foldM_invariant
           (fun s => Sim.applied_funding_rates s = Sim.applied_funding_rates st))
    in F; [exact F | | reflexivity].
  intros s x s' Hs. unfold close_one.
  destruct (deref _ _) as [tr|]; [|discriminate]. cbn [bind].
  destruct (update_trade _ _ _) as [[tr' b]|]; [|discriminate]. cbn [bind].
  intros H. inversion H; subst. exact Hs.
Qed.

Lemma loop_funding (env : Env.t) (all_candles candles : list Candle.t)
    (st st' : Sim.t) :
  incl candles all_candles ->
  ledger_invariant env st ->
  funding_keys_ok env all_candles (Sim.applied_funding_rates st) ->
  foldM (process_primary_candle env) candles st = Ok st' ->
  funding_keys_ok env all_candles (Sim.applied_funding_rates st').
Proof.
  revert st. induction candles as [|c candles IH]; simpl; intros st Hin Hi Hk H.
  - inversion H; subst. exact Hk.
  - destruct (process_primary_candle env st c) as [s1|] eqn:E; [|discriminate].
    cbn [bind] in H.
    apply (IH s1); [| |  | exact H].
    + intros x Hx. apply Hin. now right.
    + eapply process_primary_candle_ledger; eauto.
    + destruct Hk as [Nd Hall].
      destruct (process_primary_candle_funding env st c s1 Hi E) as [->|[-> Hn]];
        [now split|].
      split; [now constructor|].
      constructor; [|exact Hall].
      exists c. split; [apply Hin; now left | reflexivity].
Qed.

(** X29.  Funding is charged at most once per interval over a whole run.
    When the simulation returns, the funding keys it has recorded are
    pairwise distinct, each is the start of the funding interval
    ([funding_interval_hours], 8 by default) containing the time of some
    primary candle, and there are at most as many as primary candles. *)
Theorem funding_keys_distinct (env : Env.t) (primary_candles : list Candle.t)
    (capital : Q) (st : Sim.t) :
  simulate env primary_candles (Sim.init capital) = Ok st ->
  NoDup (Sim.applied_funding_rates st)
  /\ Forall (fun key =>
               exists c, In c primary_candles
                         /\ key = funding_key (Env.trade_config env) (Candle.time c))
       (Sim.applied_funding_rates st)
  /\ (List.length (Sim.applied_funding_rates st)
      <= List.length primary_candles)%nat.
Proof.
  unfold simulate.
  destruct (foldM _ _ _) as [s1|] eqn:F; [|discriminate]. cbn [bind].
  intros H. rewrite (close_remaining_funding env _ _ _ H).
  assert (K0 : funding_keys_ok env primary_candles
                 (Sim.applied_funding_rates (Sim.init capital)))
    by (split; constructor).
  destruct (loop_funding env primary_candles primary_candles _ s1
              (incl_refl _) (ledger_init env capital) K0 F) as [Nd Hall].
  split; [exact Nd|]. split; [exact Hall|].
  rewrite <- (length_map (fun c => funding_key (Env.trade_config env) (Candle.time c))
                primary_candles).
  apply NoDup_incl_length; [exact Nd|].
  intros key Hkey. rewrite Forall_forall in Hall.
  destruct (Hall key Hkey) as (c & Hc & ->).
  apply in_map_iff. exists c. split; [reflexivity | exact Hc].
Qed.

Lemma funding_keys_distinct_witness :
  exists st,
    simulate sample_env sample_candles (Sim.init 10000%Q) = Ok st
    /\ Sim.applied_funding_rates st = [0]
    /\ NoDup (Sim.applied_funding_rates st)
    /\ Forall (fun key =>
                 exists c, In c sample_candles
                           /\ key = funding_key (Env.trade_config sample_env)
                                      (Candle.time c))
         (Sim.applied_funding_rates st)
    /\ (List.length (Sim.applied_funding_rates st)
        <= List.length sample_candles)%nat.
Proof.
  eexists. split; [vm_compute; reflexivity|].
  split; [reflexivity|].
  apply (funding_keys_distinct sample_env sample_candles 10000%Q).
  vm_compute. reflexivity.
Defined.
